(** * tweakcn theme pipeline: a shallow embedding

    The theme-token pipeline of the editor (colour conversion, contrast
    evaluation, shadow map, preset resolution, editor store, code
    generation and CSS import) as Rocq functions, followed by the
    properties proved about them.

    Conventions.
    - A JavaScript string is a [string] of 8-bit code units.
    - A JavaScript object used as a dictionary is a [gmap string _]; a
      lookup that finds nothing is JavaScript's [undefined].
    - A JavaScript number is a [number]: an extended rational.  Every
      arithmetic result goes through the rounding operator of the
      [Binary64] class, so the development holds for any rounding that
      satisfies the laws stated there (round-to-nearest of IEEE-754
      binary64 does).  The sign of zero is not modelled.
    - The colour library (culori) is not part of the repository: it is a
      parameter, the record [Culori]. *)

From Stdlib Require Import ZArith QArith Qround Qabs Qminmax Lqa Lia Ascii String
  DecimalString DecimalN DecimalFacts.
From stdpp Require Import gmap strings list.

Local Open Scope string_scope.
#[local] Arguments String.append : simpl nomatch.

(* ===================================================================== *)
(** * Part I: the model                                                   *)
(* ===================================================================== *)

(** ** Strings *)

(** [\s] of a JavaScript regular expression and the characters removed by
    [String.prototype.trim], restricted to 8-bit code units. *)
Definition is_ws (c : ascii) : bool :=
  let n := nat_of_ascii c in
  (Nat.leb 9 n && Nat.leb n 13) || Nat.eqb n 32 || Nat.eqb n 160.

Definition is_digit (c : ascii) : bool :=
  let n := nat_of_ascii c in Nat.leb 48 n && Nat.leb n 57.

Fixpoint trim_start (s : string) : string :=
  match s with
  | String c s' => if is_ws c then trim_start s' else s
  | EmptyString => EmptyString
  end.

Fixpoint trim_end (s : string) : string :=
  match s with
  | String c s' =>
      match trim_end s' with
      | EmptyString => if is_ws c then EmptyString else String c EmptyString
      | t => String c t
      end
  | EmptyString => EmptyString
  end.

(** [s.trim()] *)
Definition trim (s : string) : string := trim_end (trim_start s).

(** [s.startsWith(p)], returning the rest of [s] after [p]. *)
Fixpoint strip_prefix (p s : string) : option string :=
  match p, s with
  | EmptyString, _ => Some s
  | String a p', String b s' => if Ascii.eqb a b then strip_prefix p' s' else None
  | String _ _, EmptyString => None
  end.

Definition starts_with (p s : string) : bool :=
  match strip_prefix p s with Some _ => true | None => false end.

(** [s.replace(pat, rep)] with a string pattern: the first occurrence only. *)
Fixpoint replace_first (pat rep s : string) : string :=
  match strip_prefix pat s with
  | Some rest => rep +:+ rest
  | None =>
      match s with
      | String c s' => String c (replace_first pat rep s')
      | EmptyString => EmptyString
      end
  end.

(** [xs.includes(x)] on an array of strings. *)
Definition includes (xs : list string) (x : string) : bool :=
  bool_decide (x ∈ xs).

(** A template literal prints a missing value as [undefined]. *)
Definition js_str (v : option string) : string := default "undefined" v.

(** The pieces of a template, one after the other. *)
Definition join (pieces : list string) : string := foldr String.append "" pieces.

(** ** Numbers *)

Inductive number : Type :=
  | NaN
  | PosInf
  | NegInf
  | Fin (q : Q).

Definition number_char (c : ascii) : bool :=
  is_digit c || bool_decide (c ∈ list_ascii_of_string ".-+e").

(** The floating-point format of the engine.  [rnd] rounds a rational to
    the nearest representable value (exponent range apart, see [fin]);
    [shortest] is the digit string [Number::toString] gives a finite
    value that is not a small integer.  The laws are those of
    round-to-nearest in binary64. *)
Class Binary64 : Type := {
  rnd : Q -> Q;
  shortest : Q -> string;
  rnd_proper : forall p q : Q, (p == q -> rnd p == rnd q)%Q;
  rnd_mono : forall p q : Q, (p <= q -> rnd p <= rnd q)%Q;
  rnd_int : forall z : Z,
    (Z.abs z <= 2 ^ 53)%Z -> (rnd (inject_Z z) == inject_Z z)%Q;
  rnd_error : forall q : Q,
    (1 # (2 ^ 1022) <= Qabs q ->
     Qabs (rnd q - q) <= Qabs q * (1 # (2 ^ 53)))%Q;
  shortest_chars : forall q : Q,
    forallb number_char (list_ascii_of_string (shortest q)) = true
}.

Section Numbers.
Context `{Binary64}.

(** The result of an arithmetic operation whose exact value is [q]:
    rounded, and infinite when the rounded value leaves the range. *)
Definition fin (q : Q) : number :=
  let r := rnd q in
  if Qle_bool (inject_Z (2 ^ 1024)) (Qabs r)
  then (if Qle_bool 0 r then PosInf else NegInf)
  else Fin r.

(** A numeric literal of the source. *)
Definition lit (q : Q) : number := fin q.

(** The sign of a number, for the rules of infinite arithmetic.
    [None] is NaN. *)
Definition sgn (x : number) : option Z :=
  match x with
  | NaN => None
  | PosInf => Some 1%Z
  | NegInf => Some (-1)%Z
  | Fin q => Some (Z.sgn (Qnum q))
  end.

Definition inf_of_sign (s : Z) : number :=
  if (0 <? s)%Z then PosInf else if (s <? 0)%Z then NegInf else NaN.

Definition neg (x : number) : number :=
  match x with
  | NaN => NaN
  | PosInf => NegInf
  | NegInf => PosInf
  | Fin q => Fin (- q)
  end.

(** [x + y] *)
Definition add (x y : number) : number :=
  match x, y with
  | NaN, _ | _, NaN => NaN
  | PosInf, NegInf | NegInf, PosInf => NaN
  | PosInf, _ | _, PosInf => PosInf
  | NegInf, _ | _, NegInf => NegInf
  | Fin p, Fin q => fin (p + q)
  end.

(** [x - y] *)
Definition sub (x y : number) : number := add x (neg y).

(** [x * y] *)
Definition mul (x y : number) : number :=
  match x, y with
  | Fin p, Fin q => fin (p * q)
  | _, _ =>
      match sgn x, sgn y with
      | Some a, Some b => inf_of_sign (a * b)
      | _, _ => NaN
      end
  end.

(** [x / y] *)
Definition div (x y : number) : number :=
  match x, y with
  | NaN, _ | _, NaN => NaN
  | Fin p, Fin q =>
      if Qeq_bool q 0 then inf_of_sign (Z.sgn (Qnum p)) else fin (p / q)
  | Fin _, _ => Fin 0
  | _, Fin q =>
      match sgn x with
      | Some a => inf_of_sign (a * (if Qle_bool 0 q then 1 else -1))
      | None => NaN
      end
  | _, _ => NaN
  end.

(** [x <= y] on numbers; false when either is NaN. *)
Definition leb (x y : number) : bool :=
  match x, y with
  | NaN, _ | _, NaN => false
  | NegInf, _ | _, PosInf => true
  | PosInf, _ | _, NegInf => false
  | Fin p, Fin q => Qle_bool p q
  end.

(** [Math.max(x, y)] and [Math.min(x, y)] *)
Definition Math_max (x y : number) : number :=
  match x, y with
  | NaN, _ | _, NaN => NaN
  | _, _ => if leb x y then y else x
  end.

Definition Math_min (x y : number) : number :=
  match x, y with
  | NaN, _ | _, NaN => NaN
  | _, _ => if leb x y then x else y
  end.

(** [!num] for a value that is a number or [undefined]. *)
Definition falsy (x : option number) : bool :=
  match x with
  | None => true
  | Some NaN => true
  | Some (Fin q) => Qeq_bool q 0
  | Some _ => false
  end.

(** [x % 1 === 0] *)
Definition is_integer (x : number) : bool :=
  match x with
  | Fin q => Qeq_bool (inject_Z (Qfloor q)) q
  | _ => false
  end.

(** Decimal digits of a natural number. *)
Definition digits (n : N) : string := NilZero.string_of_uint (N.to_uint n).

Definition two_digits (n : N) : string :=
  if (n <? 10)%N then "0" +:+ digits n else digits n.

(** The rendering of [n] hundredths with two decimals. *)
Definition fixed2 (negative : bool) (n : N) : string :=
  (if negative then "-" else "") +:+
  digits (n / 100) +:+ "." +:+ two_digits (n mod 100).

(** [String(x)], [x.toString()] and [x] inside a template literal. *)
Definition toString (x : number) : string :=
  match x with
  | NaN => "NaN"
  | PosInf => "Infinity"
  | NegInf => "-Infinity"
  | Fin q =>
      if is_integer x && Qle_bool (Qabs q) (inject_Z (2 ^ 53))
      then (if Qle_bool 0 q then "" else "-") +:+ digits (Z.to_N (Z.abs (Qfloor q)))
      else shortest q
  end.

(** The integer [n] for which [n / 100 - a] is closest to zero, the
    larger one on a tie ([a] is not negative). *)
Definition hundredths (a : Q) : N := Z.to_N (Qfloor (100 * a + (1 # 2))).

(** [x.toFixed(2)] *)
Definition toFixed2 (x : number) : string :=
  match x with
  | Fin q =>
      if Qle_bool (inject_Z (10 ^ 21)) (Qabs q) then toString x
      else fixed2 (negb (Qle_bool 0 q)) (hundredths (Qabs q))
  | _ => toString x
  end.

(** [undefined * y] is NaN. *)
Definition mul_opt (x : option number) (y : number) : number :=
  match x with
  | Some a => mul a y
  | None => NaN
  end.

End Numbers.

(** ** Exceptions *)

(** The outcome of a block of code that may throw. *)
Inductive outcome (A : Type) : Type :=
  | Return (a : A)
  | Throw (message : string).
Arguments Return {A} a.
Arguments Throw {A} message.

(** [try { body } catch (error) { handler }]: nothing escapes it. *)
Definition try_catch {A : Type} (body : outcome A) (handler : string -> A) : A :=
  match body with
  | Return a => a
  | Throw e => handler e
  end.

(** Sequencing: an exception of the first block ends the whole. *)
Definition and_then {A B : Type} (first : outcome A) (rest : A -> outcome B)
  : outcome B :=
  match first with
  | Return a => rest a
  | Throw e => Throw e
  end.

(** ** The colour library *)

(** A colour in the HSL space as culori returns it; a component may be
    missing ([undefined]). *)
Record Hsl : Type := mkHsl {
  hsl_h : option number;
  hsl_s : option number;
  hsl_l : option number
}.

Record Oklch : Type := mkOklch {
  oklch_l : option number;
  oklch_c : option number;
  oklch_h : option number
}.

(** The functions of culori the repository calls.  [culori_parse] gives
    [None] where [culori.parse] gives [undefined]. *)
Record Culori : Type := {
  color : Type;
  culori_parse : string -> option color;
  culori_hsl : color -> Hsl;
  culori_oklch : color -> Oklch;
  culori_formatRgb : color -> string;
  culori_formatHex : color -> string;
  culori_wcagLuminance : color -> number
}.

(** ** utils/color-converter.ts *)

Section ColorConverter.
Context `{Binary64} (culori : Culori).

(** [formatNumber]: the result as the template literal prints it. *)
Definition formatNumber (num : option number) : string :=
  match num with
  | Some n =>
      if falsy num then "0"
      else if is_integer n then toString n else toFixed2 n
  | None => "0"
  end.

(** The [try] block of [colorFormatter]. *)
Definition colorFormatter_try (colorValue format tailwindVersion : string)
  : outcome string :=
  match culori_parse culori colorValue with
  | None => Throw "Invalid color input"
  | Some color =>
      if String.eqb format "hsl" then
        let hsl := culori_hsl culori color in
        if String.eqb tailwindVersion "4" then
          Return ("hsl(" +:+ formatNumber (hsl_h hsl) +:+ " "
                  +:+ formatNumber (Some (mul_opt (hsl_s hsl) (Fin 100))) +:+ "% "
                  +:+ formatNumber (Some (mul_opt (hsl_l hsl) (Fin 100))) +:+ "%)")
        else
          Return (formatNumber (hsl_h hsl) +:+ " "
                  +:+ formatNumber (Some (mul_opt (hsl_s hsl) (Fin 100))) +:+ "% "
                  +:+ formatNumber (Some (mul_opt (hsl_l hsl) (Fin 100))) +:+ "%")
      else if String.eqb format "rgb" then
        Return (culori_formatRgb culori color)
      else if String.eqb format "oklch" then
        let oklch := culori_oklch culori color in
        Return ("oklch(" +:+ formatNumber (oklch_l oklch) +:+ " "
                +:+ formatNumber (oklch_c oklch) +:+ " "
                +:+ formatNumber (oklch_h oklch) +:+ ")")
      else if String.eqb format "hex" then
        Return (culori_formatHex culori color)
      else
        Return colorValue
  end.

(** [colorFormatter(colorValue, format, tailwindVersion)] *)
Definition colorFormatter (colorValue format tailwindVersion : string) : string :=
  try_catch (colorFormatter_try colorValue format tailwindVersion)
            (fun _ => colorValue).

(** [getLuminance] *)
Definition getLuminance (colorValue : string) : number :=
  try_catch
    (match culori_parse culori colorValue with
     | None => Return (Fin 0)
     | Some color => Return (culori_wcagLuminance culori color)
     end)
    (fun _ => Fin 0).

(** [getContrastRatio] *)
Definition getContrastRatio (color1 color2 : string) : string :=
  try_catch
    (let lum1 := getLuminance color1 in
     let lum2 := getLuminance color2 in
     let ratio := div (add (Math_max lum1 lum2) (lit (5 # 100)))
                      (add (Math_min lum1 lum2) (lit (5 # 100))) in
     Return (toFixed2 ratio))
    (fun _ => "1.00").

End ColorConverter.

(** ** Objects *)

(** An object literal [{ k1: v1, k2: v2, ... }]: a later entry for the same
    key replaces an earlier one. *)
Definition js_object {V : Type} (entries : list (string * V)) : gmap string V :=
  foldl (fun m kv => <[kv.1 := kv.2]> m) ∅ entries.

(** [{ ...a, ...b }]: the entries of [b] win. *)
Definition spread {V : Type} (a b : gmap string V) : gmap string V := b ∪ a.

(** ** types/theme.ts, types/editor.ts *)

Inductive Mode : Type := Light | Dark.

Global Instance Mode_eq_dec : EqDecision Mode.
Proof. solve_decision. Defined.

(** A token set ([ThemeStyleProps], or a partial one) is a
    [gmap string string] from token names to values. *)
Record ThemeStyles : Type := mkThemeStyles {
  light : gmap string string;
  dark : gmap string string
}.

Global Instance ThemeStyles_eq_dec : EqDecision ThemeStyles.
Proof. solve_decision. Defined.

(** [styles[mode]] *)
Definition styles_of (s : ThemeStyles) (mode : Mode) : gmap string string :=
  match mode with
  | Light => light s
  | Dark => dark s
  end.

(** [{ ...styles, [mode]: tokens }] *)
Definition with_mode (s : ThemeStyles) (mode : Mode) (tokens : gmap string string)
  : ThemeStyles :=
  match mode with
  | Light => {| light := tokens; dark := dark s |}
  | Dark => {| light := light s; dark := tokens |}
  end.

Record ThemeEditorState : Type := mkThemeEditorState {
  preset : option string;
  styles : ThemeStyles;
  currentMode : Mode
}.

Record ThemePreset : Type := mkThemePreset {
  createdAt : option string;
  label : option string;
  preset_light : option (gmap string string);
  preset_dark : option (gmap string string)
}.

(** ** config/theme.ts *)

Definition COMMON_STYLES : list string :=
  [ "font-sans"; "font-serif"; "font-mono"; "radius"; "shadow-opacity";
    "shadow-blur"; "shadow-spread"; "shadow-offset-x"; "shadow-offset-y";
    "letter-spacing"; "spacing" ].

(** The double quote character. *)
Definition dq : string := String (ascii_of_nat 34) EmptyString.

Definition DEFAULT_FONT_SANS : string :=
  "ui-sans-serif, system-ui, -apple-system, BlinkMacSystemFont, 'Segoe UI', Roboto, 'Helvetica Neue', Arial, 'Noto Sans', sans-serif, 'Apple Color Emoji', 'Segoe UI Emoji', 'Segoe UI Symbol', 'Noto Color Emoji'".

Definition DEFAULT_FONT_SERIF : string :=
  "ui-serif, Georgia, Cambria, " +:+ dq +:+ "Times New Roman" +:+ dq
  +:+ ", Times, serif".

Definition DEFAULT_FONT_MONO : string :=
  "ui-monospace, SFMono-Regular, Menlo, Monaco, Consolas, " +:+ dq
  +:+ "Liberation Mono" +:+ dq +:+ ", " +:+ dq +:+ "Courier New" +:+ dq
  +:+ ", monospace".

(** Default light theme styles *)
Definition defaultLightThemeStyles : gmap string string :=
  js_object [
    ("background", "hsl(0 0% 100%)");
    ("foreground", "hsl(0 0% 14.5%)");
    ("card", "hsl(0 0% 100%)");
    ("card-foreground", "hsl(0 0% 14.5%)");
    ("popover", "hsl(0 0% 100%)");
    ("popover-foreground", "hsl(0 0% 14.5%)");
    ("primary", "hsl(0 0% 20.5%)");
    ("primary-foreground", "hsl(0 0% 98.5%)");
    ("secondary", "hsl(0 0% 97%)");
    ("secondary-foreground", "hsl(0 0% 20.5%)");
    ("muted", "hsl(0 0% 97%)");
    ("muted-foreground", "hsl(0 0% 55.6%)");
    ("accent", "hsl(0 0% 97%)");
    ("accent-foreground", "hsl(0 0% 20.5%)");
    ("destructive", "hsl(0 80% 57.7%)");
    ("destructive-foreground", "hsl(0 0% 100%)");
    ("border", "hsl(0 0% 92.2%)");
    ("input", "hsl(0 0% 92.2%)");
    ("ring", "hsl(0 0% 70.8%)");
    ("chart-1", "hsl(41 78% 64.6%)");
    ("chart-2", "hsl(185 68% 60%)");
    ("chart-3", "hsl(227 65% 39.8%)");
    ("chart-4", "hsl(84 63% 82.8%)");
    ("chart-5", "hsl(70 68% 76.9%)");
    ("radius", "0.625rem");
    ("sidebar", "hsl(0 0% 98.5%)");
    ("sidebar-foreground", "hsl(0 0% 14.5%)");
    ("sidebar-primary", "hsl(0 0% 20.5%)");
    ("sidebar-primary-foreground", "hsl(0 0% 98.5%)");
    ("sidebar-accent", "hsl(0 0% 97%)");
    ("sidebar-accent-foreground", "hsl(0 0% 20.5%)");
    ("sidebar-border", "hsl(0 0% 92.2%)");
    ("sidebar-ring", "hsl(0 0% 70.8%)");
    ("font-sans", DEFAULT_FONT_SANS);
    ("font-serif", DEFAULT_FONT_SERIF);
    ("font-mono", DEFAULT_FONT_MONO);
    ("shadow-color", "hsl(0 0% 0%)");
    ("shadow-opacity", "0.1");
    ("shadow-blur", "3px");
    ("shadow-spread", "0px");
    ("shadow-offset-x", "0");
    ("shadow-offset-y", "1px");
    ("letter-spacing", "0em");
    ("spacing", "0.25rem")
  ].

(** Default dark theme styles: the light ones, then the overrides. *)
Definition defaultDarkThemeStyles : gmap string string :=
  spread defaultLightThemeStyles (js_object [
    ("background", "hsl(240 10% 3.9%)");
    ("foreground", "hsl(0 0% 98%)");
    ("card", "hsl(240 10% 3.9%)");
    ("card-foreground", "hsl(0 0% 98%)");
    ("popover", "hsl(240 10% 3.9%)");
    ("popover-foreground", "hsl(0 0% 98%)");
    ("primary", "hsl(0 0% 98%)");
    ("primary-foreground", "hsl(240 5.9% 10%)");
    ("secondary", "hsl(240 3.7% 15.9%)");
    ("secondary-foreground", "hsl(0 0% 98%)");
    ("muted", "hsl(240 3.7% 15.9%)");
    ("muted-foreground", "hsl(240 5% 64.9%)");
    ("accent", "hsl(240 3.7% 15.9%)");
    ("accent-foreground", "hsl(0 0% 98%)");
    ("destructive", "hsl(0 62.8% 30.6%)");
    ("destructive-foreground", "hsl(0 85.7% 97.3%)");
    ("border", "hsl(240 3.7% 15.9%)");
    ("input", "hsl(240 3.7% 15.9%)");
    ("ring", "hsl(240 4.9% 83.9%)");
    ("chart-1", "hsl(220 70% 50%)");
    ("chart-2", "hsl(160 60% 45%)");
    ("chart-3", "hsl(30 80% 55%)");
    ("chart-4", "hsl(280 65% 60%)");
    ("chart-5", "hsl(340 75% 55%)");
    ("radius", "0.625rem");
    ("sidebar", "hsl(240 5.9% 10%)");
    ("sidebar-foreground", "hsl(240 4.8% 95.9%)");
    ("sidebar-primary", "hsl(224.3 76.3% 48%)");
    ("sidebar-primary-foreground", "hsl(0 0% 100%)");
    ("sidebar-accent", "hsl(240 3.7% 15.9%)");
    ("sidebar-accent-foreground", "hsl(240 4.8% 95.9%)");
    ("sidebar-border", "hsl(240 3.7% 15.9%)");
    ("sidebar-ring", "hsl(240 4.9% 83.9%)");
    ("shadow-color", "hsl(0 0% 0%)");
    ("letter-spacing", "0em");
    ("spacing", "0.25rem")
  ]).

Definition defaultStyles : ThemeStyles :=
  {| light := defaultLightThemeStyles; dark := defaultDarkThemeStyles |}.

(** [defaultThemeState]; [prefersDark] is what the browser answers to
    [(prefers-color-scheme: dark)] when the module is loaded.  It has no
    [preset] field. *)
Definition defaultThemeState (prefersDark : bool) : ThemeEditorState :=
  {| preset := None;
     styles := defaultStyles;
     currentMode := if prefersDark then Dark else Light |}.

(** ** utils/theme-presets.ts *)

Definition preset_modern_minimal : ThemePreset := {|
  label := Some "Modern Minimal";
  createdAt := None;
  preset_light := Some (js_object [
      ("background", "#ffffff");
      ("foreground", "#333333");
      ("card", "#ffffff");
      ("card-foreground", "#333333");
      ("popover", "#ffffff");
      ("popover-foreground", "#333333");
      ("primary", "#3b82f6");
      ("primary-foreground", "#ffffff");
      ("secondary", "#f3f4f6");
      ("secondary-foreground", "#4b5563");
      ("muted", "#f9fafb");
      ("muted-foreground", "#6b7280");
      ("accent", "#e0f2fe");
      ("accent-foreground", "#1e3a8a");
      ("destructive", "#ef4444");
      ("destructive-foreground", "#ffffff");
      ("border", "#e5e7eb");
      ("input", "#e5e7eb");
      ("ring", "#3b82f6");
      ("chart-1", "#3b82f6");
      ("chart-2", "#2563eb");
      ("chart-3", "#1d4ed8");
      ("chart-4", "#1e40af");
      ("chart-5", "#1e3a8a");
      ("radius", "0.375rem");
      ("sidebar", "#f9fafb");
      ("sidebar-foreground", "#333333");
      ("sidebar-primary", "#3b82f6");
      ("sidebar-primary-foreground", "#ffffff");
      ("sidebar-accent", "#e0f2fe");
      ("sidebar-accent-foreground", "#1e3a8a");
      ("sidebar-border", "#e5e7eb");
      ("sidebar-ring", "#3b82f6");
      ("font-sans", "Inter, sans-serif");
      ("font-serif", "Source Serif 4, serif");
      ("font-mono", "JetBrains Mono, monospace")
    ]);
  preset_dark := Some (js_object [
      ("background", "#171717");
      ("foreground", "#e5e5e5");
      ("card", "#262626");
      ("card-foreground", "#e5e5e5");
      ("popover", "#262626");
      ("popover-foreground", "#e5e5e5");
      ("primary", "#3b82f6");
      ("primary-foreground", "#ffffff");
      ("secondary", "#262626");
      ("secondary-foreground", "#e5e5e5");
      ("muted", "#262626");
      ("muted-foreground", "#a3a3a3");
      ("accent", "#1e3a8a");
      ("accent-foreground", "#bfdbfe");
      ("destructive", "#ef4444");
      ("destructive-foreground", "#ffffff");
      ("border", "#404040");
      ("input", "#404040");
      ("ring", "#3b82f6");
      ("chart-1", "#60a5fa");
      ("chart-2", "#3b82f6");
      ("chart-3", "#2563eb");
      ("chart-4", "#1d4ed8");
      ("chart-5", "#1e40af");
      ("radius", "0.375rem");
      ("sidebar", "#171717");
      ("sidebar-foreground", "#e5e5e5");
      ("sidebar-primary", "#3b82f6");
      ("sidebar-primary-foreground", "#ffffff");
      ("sidebar-accent", "#1e3a8a");
      ("sidebar-accent-foreground", "#bfdbfe");
      ("sidebar-border", "#404040");
      ("sidebar-ring", "#3b82f6")
    ])
|}.

Definition preset_t3_chat : ThemePreset := {|
  label := Some "T3 Chat";
  createdAt := Some "2025-04-19";
  preset_light := Some (js_object [
      ("background", "#faf5fa");
      ("foreground", "#501854");
      ("card", "#faf5fa");
      ("card-foreground", "#501854");
      ("popover", "#ffffff");
      ("popover-foreground", "#501854");
      ("primary", "#a84370");
      ("primary-foreground", "#ffffff");
      ("secondary", "#f1c4e6");
      ("secondary-foreground", "#77347c");
      ("muted", "#f6e5f3");
      ("muted-foreground", "#834588");
      ("accent", "#f1c4e6");
      ("accent-foreground", "#77347c");
      ("destructive", "#ab4347");
      ("destructive-foreground", "#ffffff");
      ("border", "#efbdeb");
      ("input", "#e7c1dc");
      ("ring", "#db2777");
      ("chart-1", "#d926a2");
      ("chart-2", "#6c12b9");
      ("chart-3", "#274754");
      ("chart-4", "#e8c468");
      ("chart-5", "#f4a462");
      ("sidebar", "#f3e4f6");
      ("sidebar-foreground", "#ac1668");
      ("sidebar-primary", "#454554");
      ("sidebar-primary-foreground", "#faf1f7");
      ("sidebar-accent", "#f8f8f7");
      ("sidebar-accent-foreground", "#454554");
      ("sidebar-border", "#eceae9");
      ("sidebar-ring", "#db2777");
      ("radius", "0.5rem")
    ]);
  preset_dark := Some (js_object [
      ("background", "#221d27");
      ("foreground", "#d2c4de");
      ("card", "#2c2632");
      ("card-foreground", "#dbc5d2");
      ("popover", "#100a0e");
      ("popover-foreground", "#f8f1f5");
      ("primary", "#a3004c");
      ("primary-foreground", "#efc0d8");
      ("secondary", "#362d3d");
      ("secondary-foreground", "#d4c7e1");
      ("muted", "#28222d");
      ("muted-foreground", "#c2b6cf");
      ("accent", "#463753");
      ("accent-foreground", "#f8f1f5");
      ("destructive", "#301015");
      ("destructive-foreground", "#ffffff");
      ("border", "#3b3237");
      ("input", "#3e343c");
      ("ring", "#db2777");
      ("chart-1", "#a84370");
      ("chart-2", "#934dcb");
      ("chart-3", "#e88c30");
      ("chart-4", "#af57db");
      ("chart-5", "#e23670");
      ("sidebar", "#181117");
      ("sidebar-foreground", "#e0cad6");
      ("sidebar-primary", "#1d4ed8");
      ("sidebar-primary-foreground", "#ffffff");
      ("sidebar-accent", "#261922");
      ("sidebar-accent-foreground", "#f4f4f5");
      ("sidebar-border", "#000000");
      ("sidebar-ring", "#db2777")
    ])
|}.

Definition preset_bubblegum : ThemePreset := {|
  label := Some "Bubblegum";
  createdAt := Some "2025-04-18";
  preset_light := Some (js_object [
      ("background", "#f6e6ee");
      ("foreground", "#5b5b5b");
      ("card", "#fdedc9");
      ("card-foreground", "#5b5b5b");
      ("popover", "#ffffff");
      ("popover-foreground", "#5b5b5b");
      ("primary", "#d04f99");
      ("primary-foreground", "#ffffff");
      ("secondary", "#8acfd1");
      ("secondary-foreground", "#333333");
      ("muted", "#b2e1eb");
      ("muted-foreground", "#7a7a7a");
      ("accent", "#fbe2a7");
      ("accent-foreground", "#333333");
      ("destructive", "#f96f70");
      ("destructive-foreground", "#ffffff");
      ("border", "#d04f99");
      ("input", "#e4e4e4");
      ("ring", "#e670ab");
      ("chart-1", "#e670ab");
      ("chart-2", "#84d2e2");
      ("chart-3", "#fbe2a7");
      ("chart-4", "#f3a0ca");
      ("chart-5", "#d7488e");
      ("sidebar", "#f8d8ea");
      ("sidebar-foreground", "#333333");
      ("sidebar-primary", "#ec4899");
      ("sidebar-primary-foreground", "#ffffff");
      ("sidebar-accent", "#f9a8d4");
      ("sidebar-accent-foreground", "#333333");
      ("sidebar-border", "#f3e8ff");
      ("sidebar-ring", "#ec4899");
      ("font-sans", "Poppins, sans-serif");
      ("font-serif", "Lora, serif");
      ("font-mono", "Fira Code, monospace");
      ("radius", "0.4rem");
      ("shadow-color", "hsl(325.78 58.18% 56.86% / 0.5)");
      ("shadow-opacity", "1.0");
      ("shadow-blur", "0px");
      ("shadow-spread", "0px");
      ("shadow-offset-x", "3px");
      ("shadow-offset-y", "3px")
    ]);
  preset_dark := Some (js_object [
      ("background", "#12242e");
      ("foreground", "#f3e3ea");
      ("card", "#1c2e38");
      ("card-foreground", "#f3e3ea");
      ("popover", "#1c2e38");
      ("popover-foreground", "#f3e3ea");
      ("primary", "#fbe2a7");
      ("primary-foreground", "#12242e");
      ("secondary", "#e4a2b1");
      ("secondary-foreground", "#12242e");
      ("muted", "#24272b");
      ("muted-foreground", "#e4a2b1");
      ("accent", "#c67b96");
      ("accent-foreground", "#f3e3ea");
      ("destructive", "#e35ea4");
      ("destructive-foreground", "#12242e");
      ("border", "#324859");
      ("input", "#20333d");
      ("ring", "#50afb6");
      ("chart-1", "#50afb6");
      ("chart-2", "#e4a2b1");
      ("chart-3", "#c67b96");
      ("chart-4", "#175c6c");
      ("chart-5", "#24272b");
      ("sidebar", "#101f28");
      ("sidebar-foreground", "#f3f4f6");
      ("sidebar-primary", "#ec4899");
      ("sidebar-primary-foreground", "#ffffff");
      ("sidebar-accent", "#f9a8d4");
      ("sidebar-accent-foreground", "#1f2937");
      ("sidebar-border", "#374151");
      ("sidebar-ring", "#ec4899");
      ("font-sans", "Poppins, sans-serif");
      ("font-serif", "Lora, serif");
      ("font-mono", "Fira Code, monospace");
      ("shadow-color", "#324859")
    ])
|}.

Definition preset_catppuccin : ThemePreset := {|
  label := Some "Catppuccin";
  createdAt := Some "2025-04-18";
  preset_light := Some (js_object [
      ("background", "#eff1f5");
      ("foreground", "#4c4f69");
      ("card", "#ffffff");
      ("card-foreground", "#4c4f69");
      ("popover", "#ccd0da");
      ("popover-foreground", "#4c4f69");
      ("primary", "#8839ef");
      ("primary-foreground", "#ffffff");
      ("secondary", "#ccd0da");
      ("secondary-foreground", "#4c4f69");
      ("muted", "#dce0e8");
      ("muted-foreground", "#6c6f85");
      ("accent", "#04a5e5");
      ("accent-foreground", "#ffffff");
      ("destructive", "#d20f39");
      ("destructive-foreground", "#ffffff");
      ("border", "#bcc0cc");
      ("input", "#ccd0da");
      ("ring", "#8839ef");
      ("chart-1", "#8839ef");
      ("chart-2", "#04a5e5");
      ("chart-3", "#40a02b");
      ("chart-4", "#fe640b");
      ("chart-5", "#dc8a78");
      ("sidebar", "#e6e9ef");
      ("sidebar-foreground", "#4c4f69");
      ("sidebar-primary", "#8839ef");
      ("sidebar-primary-foreground", "#ffffff");
      ("sidebar-accent", "#04a5e5");
      ("sidebar-accent-foreground", "#ffffff");
      ("sidebar-border", "#bcc0cc");
      ("sidebar-ring", "#8839ef");
      ("font-sans", "Montserrat, sans-serif");
      ("font-serif", "Georgia, serif");
      ("font-mono", "Fira Code, monospace");
      ("radius", "0.35rem");
      ("shadow-color", "hsl(240 30% 25%)");
      ("shadow-opacity", "0.12");
      ("shadow-blur", "6px");
      ("shadow-spread", "0px");
      ("shadow-offset-x", "0px");
      ("shadow-offset-y", "4px")
    ]);
  preset_dark := Some (js_object [
      ("background", "#181825");
      ("foreground", "#cdd6f4");
      ("card", "#1e1e2e");
      ("card-foreground", "#cdd6f4");
      ("popover", "#45475a");
      ("popover-foreground", "#cdd6f4");
      ("primary", "#cba6f7");
      ("primary-foreground", "#1e1e2e");
      ("secondary", "#585b70");
      ("secondary-foreground", "#cdd6f4");
      ("muted", "#292c3c");
      ("muted-foreground", "#a6adc8");
      ("accent", "#89dceb");
      ("accent-foreground", "#1e1e2e");
      ("destructive", "#f38ba8");
      ("destructive-foreground", "#1e1e2e");
      ("border", "#313244");
      ("input", "#313244");
      ("ring", "#cba6f7");
      ("chart-1", "#cba6f7");
      ("chart-2", "#89dceb");
      ("chart-3", "#a6e3a1");
      ("chart-4", "#fab387");
      ("chart-5", "#f5e0dc");
      ("sidebar", "#11111b");
      ("sidebar-foreground", "#cdd6f4");
      ("sidebar-primary", "#cba6f7");
      ("sidebar-primary-foreground", "#1e1e2e");
      ("sidebar-accent", "#89dceb");
      ("sidebar-accent-foreground", "#1e1e2e");
      ("sidebar-border", "#45475a");
      ("sidebar-ring", "#cba6f7")
    ])
|}.

Definition preset_graphite : ThemePreset := {|
  label := Some "Graphite";
  createdAt := Some "2025-04-17";
  preset_light := Some (js_object [
      ("background", "#f0f0f0");
      ("foreground", "#333333");
      ("card", "#f5f5f5");
      ("card-foreground", "#333333");
      ("popover", "#f5f5f5");
      ("popover-foreground", "#333333");
      ("primary", "#606060");
      ("primary-foreground", "#ffffff");
      ("secondary", "#e0e0e0");
      ("secondary-foreground", "#333333");
      ("muted", "#d9d9d9");
      ("muted-foreground", "#666666");
      ("accent", "#c0c0c0");
      ("accent-foreground", "#333333");
      ("destructive", "#cc3333");
      ("destructive-foreground", "#ffffff");
      ("border", "#d0d0d0");
      ("input", "#e0e0e0");
      ("ring", "#606060");
      ("chart-1", "#606060");
      ("chart-2", "#476666");
      ("chart-3", "#909090");
      ("chart-4", "#a8a8a8");
      ("chart-5", "#c0c0c0");
      ("sidebar", "#eaeaea");
      ("sidebar-foreground", "#333333");
      ("sidebar-primary", "#606060");
      ("sidebar-primary-foreground", "#ffffff");
      ("sidebar-accent", "#c0c0c0");
      ("sidebar-accent-foreground", "#333333");
      ("sidebar-border", "#d0d0d0");
      ("sidebar-ring", "#606060");
      ("font-sans", "Montserrat, sans-serif");
      ("font-serif", "Georgia, serif");
      ("font-mono", "Fira Code, monospace");
      ("radius", "0.35rem");
      ("shadow-color", "hsl(0 0% 20% / 0.1)");
      ("shadow-opacity", "0.15");
      ("shadow-blur", "0px");
      ("shadow-spread", "0px");
      ("shadow-offset-x", "0px");
      ("shadow-offset-y", "2px")
    ]);
  preset_dark := Some (js_object [
      ("background", "#1a1a1a");
      ("foreground", "#d9d9d9");
      ("card", "#202020");
      ("card-foreground", "#d9d9d9");
      ("popover", "#202020");
      ("popover-foreground", "#d9d9d9");
      ("primary", "#a0a0a0");
      ("primary-foreground", "#1a1a1a");
      ("secondary", "#303030");
      ("secondary-foreground", "#d9d9d9");
      ("muted", "#2a2a2a");
      ("muted-foreground", "#808080");
      ("accent", "#404040");
      ("accent-foreground", "#d9d9d9");
      ("destructive", "#e06666");
      ("destructive-foreground", "#ffffff");
      ("border", "#353535");
      ("input", "#303030");
      ("ring", "#a0a0a0");
      ("chart-1", "#a0a0a0");
      ("chart-2", "#7e9ca0");
      ("chart-3", "#707070");
      ("chart-4", "#585858");
      ("chart-5", "#404040");
      ("sidebar", "#1f1f1f");
      ("sidebar-foreground", "#d9d9d9");
      ("sidebar-primary", "#a0a0a0");
      ("sidebar-primary-foreground", "#1a1a1a");
      ("sidebar-accent", "#404040");
      ("sidebar-accent-foreground", "#d9d9d9");
      ("sidebar-border", "#353535");
      ("sidebar-ring", "#a0a0a0");
      ("font-sans", "Inter, sans-serif");
      ("font-serif", "Georgia, serif");
      ("font-mono", "Fira Code, monospace")
    ])
|}.

Definition preset_perpetuity : ThemePreset := {|
  label := Some "Perpetuity";
  createdAt := Some "2025-04-01";
  preset_light := Some (js_object [
      ("background", "#e8f0f0");
      ("foreground", "#0a4a55");
      ("card", "#f2f7f7");
      ("card-foreground", "#0a4a55");
      ("popover", "#f2f7f7");
      ("popover-foreground", "#0a4a55");
      ("primary", "#06858e");
      ("primary-foreground", "#ffffff");
      ("secondary", "#d9eaea");
      ("secondary-foreground", "#0a4a55");
      ("muted", "#e0eaea");
      ("muted-foreground", "#427a7e");
      ("accent", "#c9e5e7");
      ("accent-foreground", "#0a4a55");
      ("destructive", "#d13838");
      ("destructive-foreground", "#ffffff");
      ("border", "#cde0e2");
      ("input", "#d9eaea");
      ("ring", "#06858e");
      ("chart-1", "#06858e");
      ("chart-2", "#1e9ea6");
      ("chart-3", "#37b6be");
      ("chart-4", "#5dc7ce");
      ("chart-5", "#8ad8dd");
      ("sidebar", "#daebed");
      ("sidebar-foreground", "#0a4a55");
      ("sidebar-primary", "#06858e");
      ("sidebar-primary-foreground", "#ffffff");
      ("sidebar-accent", "#c9e5e7");
      ("sidebar-accent-foreground", "#0a4a55");
      ("sidebar-border", "#cde0e2");
      ("sidebar-ring", "#06858e");
      ("font-sans", "Courier New, monospace");
      ("font-serif", "Courier New, monospace");
      ("font-mono", "Courier New, monospace");
      ("radius", "0.125rem");
      ("shadow-color", "hsl(185 70% 30% / 0.15)");
      ("shadow-opacity", "0.15");
      ("shadow-blur", "2px");
      ("shadow-spread", "0px");
      ("shadow-offset-x", "1px");
      ("shadow-offset-y", "1px")
    ]);
  preset_dark := Some (js_object [
      ("background", "#0a1a20");
      ("foreground", "#4de8e8");
      ("card", "#0c2025");
      ("card-foreground", "#4de8e8");
      ("popover", "#0c2025");
      ("popover-foreground", "#4de8e8");
      ("primary", "#4de8e8");
      ("primary-foreground", "#0a1a20");
      ("secondary", "#164955");
      ("secondary-foreground", "#4de8e8");
      ("muted", "#0f3039");
      ("muted-foreground", "#36a5a5");
      ("accent", "#164955");
      ("accent-foreground", "#4de8e8");
      ("destructive", "#e83c3c");
      ("destructive-foreground", "#f2f2f2");
      ("border", "#164955");
      ("input", "#164955");
      ("ring", "#4de8e8");
      ("chart-1", "#4de8e8");
      ("chart-2", "#36a5a5");
      ("chart-3", "#2d8a8a");
      ("chart-4", "#19595e");
      ("chart-5", "#0e383c");
      ("sidebar", "#0a1a20");
      ("sidebar-foreground", "#4de8e8");
      ("sidebar-primary", "#4de8e8");
      ("sidebar-primary-foreground", "#0a1a20");
      ("sidebar-accent", "#164955");
      ("sidebar-accent-foreground", "#4de8e8");
      ("sidebar-border", "#164955");
      ("sidebar-ring", "#4de8e8");
      ("font-sans", "Source Code Pro, monospace");
      ("font-serif", "Source Code Pro, monospace");
      ("font-mono", "Source Code Pro, monospace");
      ("radius", "0.125rem");
      ("shadow-color", "hsl(180 70% 60% / 0.2)");
      ("shadow-opacity", "0.2");
      ("shadow-blur", "2px");
      ("shadow-spread", "0px");
      ("shadow-offset-x", "1px");
      ("shadow-offset-y", "1px")
    ])
|}.

Definition preset_kodama_grove : ThemePreset := {|
  label := Some "Kodama Grove";
  createdAt := None;
  preset_light := Some (js_object [
      ("background", "#e4d7b0");
      ("foreground", "#5c4b3e");
      ("card", "#e7dbbf");
      ("card-foreground", "#5c4b3e");
      ("popover", "#f3ead2");
      ("popover-foreground", "#5c4b3e");
      ("primary", "#8d9d4f");
      ("primary-foreground", "#fdfbf6");
      ("secondary", "#decea0");
      ("secondary-foreground", "#5c4b3e");
      ("muted", "#decea0");
      ("muted-foreground", "#85766a");
      ("accent", "#dbc894");
      ("accent-foreground", "#5c4b3e");
      ("destructive", "#d98b7e");
      ("destructive-foreground", "#faf8f2");
      ("border", "#b19681");
      ("input", "#dbc894");
      ("ring", "#9db18c");
      ("chart-1", "#9db18c");
      ("chart-2", "#8a9f7b");
      ("chart-3", "#bac9b4");
      ("chart-4", "#71856a");
      ("chart-5", "#5e6e58");
      ("sidebar", "#e2d1a2");
      ("sidebar-foreground", "#5c4b3e");
      ("sidebar-primary", "#9db18c");
      ("sidebar-primary-foreground", "#fdfbf6");
      ("sidebar-accent", "#eae5d9");
      ("sidebar-accent-foreground", "#5c4b3e");
      ("sidebar-border", "#e5e0d4");
      ("sidebar-ring", "#9db18c");
      ("font-sans", "Merriweather, serif");
      ("font-serif", "Source Serif 4, serif");
      ("font-mono", "JetBrains Mono, monospace");
      ("radius", "0.425rem");
      ("shadow-color", "hsl(88 22% 35% / 0.15)");
      ("shadow-opacity", "0.15");
      ("shadow-blur", "2px");
      ("shadow-spread", "0px");
      ("shadow-offset-x", "3px");
      ("shadow-offset-y", "3px")
    ]);
  preset_dark := Some (js_object [
      ("background", "#3a3529");
      ("foreground", "#ede4d4");
      ("card", "#413c33");
      ("card-foreground", "#ede4d4");
      ("popover", "#413c33");
      ("popover-foreground", "#ede4d4");
      ("primary", "#8a9f7b");
      ("primary-foreground", "#2a2521");
      ("secondary", "#5a5345");
      ("secondary-foreground", "#ede4d4");
      ("muted", "#4a4439");
      ("muted-foreground", "#a8a096");
      ("accent", "#a18f5c");
      ("accent-foreground", "#2a2521");
      ("destructive", "#b5766a");
      ("destructive-foreground", "#f0e9db");
      ("border", "#5a5345");
      ("input", "#5a5345");
      ("ring", "#8a9f7b");
      ("chart-1", "#8a9f7b");
      ("chart-2", "#9db18c");
      ("chart-3", "#71856a");
      ("chart-4", "#a18f5c");
      ("chart-5", "#5e6e58");
      ("sidebar", "#3a3529");
      ("sidebar-foreground", "#ede4d4");
      ("sidebar-primary", "#8a9f7b");
      ("sidebar-primary-foreground", "#2a2521");
      ("sidebar-accent", "#a18f5c");
      ("sidebar-accent-foreground", "#2a2521");
      ("sidebar-border", "#5a5345");
      ("sidebar-ring", "#8a9f7b")
    ])
|}.

(** The catalog *)
Definition presets : gmap string ThemePreset :=
  js_object [
    ("modern-minimal", preset_modern_minimal);
    ("t3-chat", preset_t3_chat);
    ("bubblegum", preset_bubblegum);
    ("catppuccin", preset_catppuccin);
    ("graphite", preset_graphite);
    ("perpetuity", preset_perpetuity);
    ("kodama-grove", preset_kodama_grove)
  ].

(** [presets] is an object literal, so [presets[name]] also finds what the
    literal inherits from [Object.prototype]: for a name that is no key of
    the catalog, the property of that name there.  These are its
    properties; each is a function or an object, and none of them has a
    property [styles]. *)
Definition objectPrototypeProperties : list string :=
  [ "constructor"; "__defineGetter__"; "__defineSetter__"; "hasOwnProperty";
    "__lookupGetter__"; "__lookupSetter__"; "isPrototypeOf";
    "propertyIsEnumerable"; "toString"; "valueOf"; "__proto__";
    "toLocaleString" ].

(** The value of [presets[name]]. *)
Inductive PresetProperty : Type :=
  | OwnPreset (preset : ThemePreset)
  | InheritedProperty
  | NoProperty.

Definition presets_get (name : string) : PresetProperty :=
  match presets !! name with
  | Some preset => OwnPreset preset
  | None =>
      if includes objectPrototypeProperties name then InheritedProperty
      else NoProperty
  end.

(** [getPresetThemeStyles(name)].  An inherited property passes the test
    [!preset]; its [styles] is [undefined], and reading [light] of that
    throws a [TypeError]. *)
Definition getPresetThemeStyles (name : string) : outcome ThemeStyles :=
  let defaultTheme := defaultStyles in
  if String.eqb name "default" then Return defaultTheme
  else
    match presets_get name with
    | NoProperty => Return defaultTheme
    | InheritedProperty =>
        Throw "TypeError: Cannot read properties of undefined (reading 'light')"
    | OwnPreset preset =>
        Return
          {| light := spread (light defaultTheme) (default ∅ (preset_light preset));
             dark := spread (dark defaultTheme) (default ∅ (preset_dark preset)) |}
    end.

(** ** store/editor-store.ts *)

Record EditorStore : Type := mkEditorStore {
  themeState : ThemeEditorState;
  hasChangedThemeFromDefault : bool
}.

Section Store.
Variable prefersDark : bool.

Definition initialStore : EditorStore :=
  {| themeState := defaultThemeState prefersDark;
     hasChangedThemeFromDefault := false |}.

(** [setThemeState(state)] *)
Definition setThemeState (state : ThemeEditorState) (s : EditorStore) : EditorStore :=
  {| themeState := state;
     hasChangedThemeFromDefault := hasChangedThemeFromDefault s |}.

(** [applyThemePreset(preset)]: the store after the call.  When
    [getPresetThemeStyles] throws, [set] is not reached: the exception
    leaves the call and the store stays as it was. *)
Definition applyThemePreset (name : string) (s : EditorStore)
  : outcome EditorStore :=
  let ts := themeState s in
  and_then (getPresetThemeStyles name) (fun presetStyles =>
    let updated :=
      {| preset := Some name;
         styles := presetStyles;
         currentMode := currentMode ts |} in
    Return
      {| themeState := updated;
         hasChangedThemeFromDefault :=
           if negb (String.eqb name "default") then true
           else hasChangedThemeFromDefault s |}).

(** [resetToDefault()]: the new state is [defaultThemeState] with the
    current mode written over its [currentMode]. *)
Definition resetToDefault (s : EditorStore) : EditorStore :=
  let mode := currentMode (themeState s) in
  let d := defaultThemeState prefersDark in
  {| themeState :=
       {| preset := preset d; styles := styles d; currentMode := mode |};
     hasChangedThemeFromDefault := hasChangedThemeFromDefault s |}.

(** [themeState.preset || "default"] *)
Definition preset_or_default_name (ts : ThemeEditorState) : string :=
  match preset ts with
  | Some p => if String.eqb p "" then "default" else p
  | None => "default"
  end.

(** [resetToCurrentPreset()]: the store after the call; an exception of
    [getPresetThemeStyles] leaves the store as it was. *)
Definition resetToCurrentPreset (s : EditorStore) : outcome EditorStore :=
  let ts := themeState s in
  and_then (getPresetThemeStyles (preset_or_default_name ts)) (fun presetStyles =>
    Return
      {| themeState :=
           {| preset := preset ts;
              styles := presetStyles;
              currentMode := currentMode ts |};
         hasChangedThemeFromDefault := hasChangedThemeFromDefault s |}).

(** [hasDefaultThemeChanged()] *)
Definition hasDefaultThemeChanged (s : EditorStore) : bool :=
  negb (bool_decide (styles (themeState s) = styles (defaultThemeState prefersDark))).

(** [hasCurrentPresetChanged()] *)
Definition hasCurrentPresetChanged (s : EditorStore) : outcome bool :=
  and_then (getPresetThemeStyles (preset_or_default_name (themeState s)))
    (fun presetStyles =>
       Return (negb (bool_decide (styles (themeState s) = presetStyles)))).

(** ** components/editor/theme-control-panel.tsx, editor.tsx *)

(** [currentStyles]: the defaults of the mode under the mode's tokens. *)
Definition currentStyles (st : ThemeStyles) (mode : Mode) : gmap string string :=
  spread (styles_of (styles (defaultThemeState prefersDark)) mode) (styles_of st mode).

(** [updateStyle(key, value)]: the styles it hands to [onChange]. *)
Definition updateStyle (st : ThemeStyles) (mode : Mode) (key value : string)
  : ThemeStyles :=
  if includes COMMON_STYLES key then
    {| light := <[key := value]> (light st);
       dark := <[key := value]> (dark st) |}
  else
    with_mode st mode (<[key := value]> (currentStyles st mode)).

(** [handleStyleChange(newStyles)] of the editor, the [onChange] above. *)
Definition handleStyleChange (newStyles : ThemeStyles) (s : EditorStore) : EditorStore :=
  let ts := themeState s in
  setThemeState
    {| preset := preset ts; styles := newStyles; currentMode := currentMode ts |} s.

(** A per-token edit in the control panel. *)
Definition editToken (key value : string) (s : EditorStore) : EditorStore :=
  let ts := themeState s in
  handleStyleChange (updateStyle (styles ts) (currentMode ts) key value) s.

(** One operation of the store.  A call that throws changes nothing and is
    no step. *)
Inductive store_step : EditorStore -> EditorStore -> Prop :=
  | step_setThemeState state s : store_step s (setThemeState state s)
  | step_applyThemePreset name s s' :
      applyThemePreset name s = Return s' -> store_step s s'
  | step_resetToDefault s : store_step s (resetToDefault s)
  | step_resetToCurrentPreset s s' :
      resetToCurrentPreset s = Return s' -> store_step s s'.

(** The stores the editor can be in. *)
Inductive reachable : EditorStore -> Prop :=
  | reachable_initial : reachable initialStore
  | reachable_step s s' : reachable s -> store_step s s' -> reachable s'.

End Store.

(** ** parseFloat *)

(** The longest prefix of decimal digits, and what follows it. *)
Fixpoint span_digits (s : string) : string * string :=
  match s with
  | String c s' =>
      if is_digit c then let '(d, r) := span_digits s' in (String c d, r)
      else (EmptyString, s)
  | EmptyString => (EmptyString, EmptyString)
  end.

(** The value of a string of decimal digits, read after [acc]. *)
Fixpoint digits_value (acc : N) (s : string) : N :=
  match s with
  | String c s' => digits_value (acc * 10 + (N_of_ascii c - 48))%N s'
  | EmptyString => acc
  end.

(** [m * 10 ^ e] *)
Definition scale10 (m : Z) (e : Z) : Q :=
  if (0 <=? e)%Z then inject_Z (m * 10 ^ e)
  else Qmake m (Z.to_pos (10 ^ (- e))).

(** The exponent part of a decimal literal at the head of [s], if there
    is a well-formed one; [0] otherwise. *)
Definition exponent_part (s : string) : Z :=
  match s with
  | String c s' =>
      if bool_decide (c ∈ list_ascii_of_string "eE") then
        let '(negative, s'') :=
          match s' with
          | String "-" r => (true, r)
          | String "+" r => (false, r)
          | _ => (false, s')
          end in
        let '(d, _) := span_digits s'' in
        if String.eqb d "" then 0%Z
        else if negative then (- Z.of_N (digits_value 0 d))%Z
             else Z.of_N (digits_value 0 d)
      else 0%Z
  | EmptyString => 0%Z
  end.

Section ParseFloat.
Context `{Binary64}.

(** The value of the longest prefix of [s] that is a
    [StrUnsignedDecimalLiteral]; NaN when there is none. *)
Definition parse_unsigned (s : string) : number :=
  if starts_with "Infinity" s then PosInf
  else
    let '(ip, r1) := span_digits s in
    let '(fp, r2) :=
      match r1 with
      | String "." r => span_digits r
      | _ => (EmptyString, r1)
      end in
    if String.eqb ip "" && String.eqb fp "" then NaN
    else
      let m := Z.of_N (digits_value 0 (ip +:+ fp)) in
      fin (scale10 m (exponent_part r2 - Z.of_nat (String.length fp))).

(** [parseFloat(s)] *)
Definition parseFloat (s : string) : number :=
  match trim_start s with
  | String "-" r => neg (parse_unsigned r)
  | String "+" r => parse_unsigned r
  | t => parse_unsigned t
  end.

End ParseFloat.

(** ** utils/shadows.ts *)

Section Shadows.
Context `{Binary64} (culori : Culori).

(** [colorFormatter] on a token that may be missing: culori parses no
    [undefined], so the value comes back and is printed as such. *)
Definition colorFormatter_opt (colorValue : option string)
    (format tailwindVersion : string) : string :=
  match colorValue with
  | Some c => colorFormatter culori c format tailwindVersion
  | None => "undefined"
  end.

(** [getShadowMap({ styles, currentMode })] *)
Definition getShadowMap (st : ThemeStyles) (mode : Mode) : gmap string string :=
  let styles := spread (styles_of defaultStyles mode) (styles_of st mode) in
  let shadowColor := styles !! "shadow-color" in
  let hsl := colorFormatter_opt shadowColor "hsl" "3" in
  let offsetX := js_str (styles !! "shadow-offset-x") in
  let offsetY := js_str (styles !! "shadow-offset-y") in
  let blur := js_str (styles !! "shadow-blur") in
  let spread_ := styles !! "shadow-spread" in
  let opacity := parseFloat (js_str (styles !! "shadow-opacity")) in
  let color (opacityMultiplier : number) : string :=
    "hsl(" +:+ hsl +:+ " / " +:+ toFixed2 (mul opacity opacityMultiplier) +:+ ")" in
  let secondLayer (fixedOffsetY fixedBlur : string) : string :=
    let offsetX2 := offsetX in
    let offsetY2 := fixedOffsetY in
    let blur2 := fixedBlur in
    let spread2 :=
      toString (sub (parseFloat (match spread_ with
                                 | Some s => replace_first "px" "" s
                                 | None => "0"
                                 end))
                    (Fin 1)) +:+ "px" in
    let color2 := color (Fin 1) in
    offsetX2 +:+ " " +:+ offsetY2 +:+ " " +:+ blur2 +:+ " " +:+ spread2
    +:+ " " +:+ color2 in
  let first (k : number) : string :=
    offsetX +:+ " " +:+ offsetY +:+ " " +:+ blur +:+ " " +:+ js_str spread_
    +:+ " " +:+ color k in
  js_object [
    ("shadow-2xs", first (Fin (1 # 2)));
    ("shadow-xs", first (Fin (1 # 2)));
    ("shadow-2xl", first (Fin (5 # 2)));
    ("shadow-sm", first (Fin 1) +:+ ", " +:+ secondLayer "1px" "2px");
    ("shadow", first (Fin 1) +:+ ", " +:+ secondLayer "1px" "2px");
    ("shadow-md", first (Fin 1) +:+ ", " +:+ secondLayer "2px" "4px");
    ("shadow-lg", first (Fin 1) +:+ ", " +:+ secondLayer "4px" "6px");
    ("shadow-xl", first (Fin 1) +:+ ", " +:+ secondLayer "8px" "10px")
  ].

End Shadows.

(** ** utils/theme-style-generator.ts *)

(** The line feed of the templates. *)
Definition nl : string := String (ascii_of_nat 10) EmptyString.

(** One line [\n  --name: value;] of a variable block. *)
Definition declaration (name value : string) : string :=
  nl +:+ "  --" +:+ name +:+ ": " +:+ value +:+ ";".

(** The tokens [generateColorVariables] prints, in its order. *)
Definition colorVariableNames : list string :=
  [ "background"; "foreground"; "card"; "card-foreground"; "popover";
    "popover-foreground"; "primary"; "primary-foreground"; "secondary";
    "secondary-foreground"; "muted"; "muted-foreground"; "accent";
    "accent-foreground"; "destructive"; "destructive-foreground"; "border";
    "input"; "ring"; "chart-1"; "chart-2"; "chart-3"; "chart-4"; "chart-5";
    "sidebar"; "sidebar-foreground"; "sidebar-primary";
    "sidebar-primary-foreground"; "sidebar-accent";
    "sidebar-accent-foreground"; "sidebar-border"; "sidebar-ring" ].

Definition shadowVariableNames : list string :=
  [ "shadow-2xs"; "shadow-xs"; "shadow-sm"; "shadow"; "shadow-md";
    "shadow-lg"; "shadow-xl"; "shadow-2xl" ].

(** The state as [generateThemeCode] receives it: [styles] is an object
    whose keys are checked at run time. *)
Record ThemeStateInput : Type := mkThemeStateInput {
  input_styles : gmap string (gmap string string)
}.

(** A well-typed editor state seen as such an input. *)
Definition input_of_styles (st : ThemeStyles) : ThemeStateInput :=
  {| input_styles := js_object [("light", light st); ("dark", dark st)] |}.

Section Generator.
Context `{Binary64} (culori : Culori).

(** [generateColorVariables] *)
Definition generateColorVariables (themeStyles : ThemeStyles) (mode : Mode)
    (formatColor : option string -> string) : string :=
  let styles := styles_of themeStyles mode in
  join
    (map (fun name => declaration name (formatColor (styles !! name)))
         colorVariableNames).

(** [generateFontVariables] *)
Definition generateFontVariables (themeStyles : ThemeStyles) (mode : Mode) : string :=
  let styles := styles_of themeStyles mode in
  declaration "font-sans" (js_str (styles !! "font-sans"))
  +:+ declaration "font-serif" (js_str (styles !! "font-serif"))
  +:+ declaration "font-mono" (js_str (styles !! "font-mono")).

(** [generateShadowVariables] *)
Definition generateShadowVariables (shadowMap : gmap string string) : string :=
  join
    (map (fun name => declaration name (js_str (shadowMap !! name)))
         shadowVariableNames).

(** [generateTrackingVariables] *)
Definition generateTrackingVariables (themeStyles : ThemeStyles) : string :=
  let styles := light themeStyles in
  if bool_decide (styles !! "letter-spacing" = Some "0em") then ""
  else
    nl
    +:+ declaration "tracking-tighter" "calc(var(--tracking-normal) - 0.05em)"
    +:+ declaration "tracking-tight" "calc(var(--tracking-normal) - 0.025em)"
    +:+ declaration "tracking-normal" "var(--tracking-normal)"
    +:+ declaration "tracking-wide" "calc(var(--tracking-normal) + 0.025em)"
    +:+ declaration "tracking-wider" "calc(var(--tracking-normal) + 0.05em)"
    +:+ declaration "tracking-widest" "calc(var(--tracking-normal) + 0.1em)".

(** [generateThemeVariables] *)
Definition generateThemeVariables (themeStyles : ThemeStyles) (mode : Mode)
    (formatColor : option string -> string) : string :=
  let selector := match mode with Dark => ".dark" | Light => ":root" end in
  let colorVars := generateColorVariables themeStyles mode formatColor in
  let fontVars := generateFontVariables themeStyles mode in
  let radiusVar :=
    declaration "radius" (js_str (styles_of themeStyles mode !! "radius")) in
  let shadowVars :=
    generateShadowVariables (getShadowMap culori themeStyles mode) in
  let spacingVar :=
    if bool_decide (mode = Light)
       && negb (bool_decide (light themeStyles !! "spacing"
                             = defaultLightThemeStyles !! "spacing"))
    then declaration "spacing" (js_str (light themeStyles !! "spacing"))
    else "" in
  let trackingVars :=
    if bool_decide (mode = Light)
       && negb (bool_decide (light themeStyles !! "letter-spacing"
                             = defaultLightThemeStyles !! "letter-spacing"))
    then declaration "tracking-normal"
           (js_str (light themeStyles !! "letter-spacing"))
    else "" in
  selector +:+ " {" +:+ colorVars +:+ fontVars +:+ radiusVar +:+ shadowVars
  +:+ trackingVars +:+ spacingVar +:+ nl +:+ "}".

(** One line [\n  --alias: var(--name);] of the inline theme. *)
Definition alias (prefix name : string) : string :=
  declaration (prefix +:+ name) ("var(--" +:+ name +:+ ")").

(** [generateTailwindV4ThemeInline] *)
Definition generateTailwindV4ThemeInline (themeStyles : ThemeStyles) : string :=
  "@theme inline {"
  +:+ join (map (alias "color-") colorVariableNames)
  +:+ nl
  +:+ alias "" "font-sans" +:+ alias "" "font-mono" +:+ alias "" "font-serif"
  +:+ nl
  +:+ declaration "radius-sm" "calc(var(--radius) - 4px)"
  +:+ declaration "radius-md" "calc(var(--radius) - 2px)"
  +:+ declaration "radius-lg" "var(--radius)"
  +:+ declaration "radius-xl" "calc(var(--radius) + 4px)"
  +:+ nl
  +:+ join (map (alias "") shadowVariableNames)
  +:+ generateTrackingVariables themeStyles
  +:+ nl +:+ "}".

(** [generateThemeCode(themeEditorState, colorFormat, tailwindVersion)];
    [None] is a null state. *)
Definition generateThemeCode (themeEditorState : option ThemeStateInput)
    (colorFormat tailwindVersion : string) : outcome string :=
  match themeEditorState with
  | None => Throw "Invalid theme styles: missing light or dark mode"
  | Some state =>
      match input_styles state !! "light", input_styles state !! "dark" with
      | Some l, Some d =>
          let themeStyles := {| light := l; dark := d |} in
          let formatColor (color : option string) : string :=
            colorFormatter_opt culori color colorFormat tailwindVersion in
          let lightTheme := generateThemeVariables themeStyles Light formatColor in
          let darkTheme := generateThemeVariables themeStyles Dark formatColor in
          let tailwindV4Theme :=
            if String.eqb tailwindVersion "4"
            then nl +:+ nl +:+ generateTailwindV4ThemeInline themeStyles
            else "" in
          let bodyLetterSpacing :=
            if negb (bool_decide (l !! "letter-spacing" = Some "0em"))
            then nl +:+ nl +:+ "body {" +:+ nl
                 +:+ "  letter-spacing: var(--tracking-normal);" +:+ nl +:+ "}"
            else "" in
          Return (lightTheme +:+ nl +:+ nl +:+ darkTheme +:+ tailwindV4Theme
                  +:+ bodyLetterSpacing)
      | _, _ => Throw "Invalid theme styles: missing light or dark mode"
      end
  end.

End Generator.

(** ** utils/parse-css-input.ts *)

(** The longest prefix of [s] without a character of [stop], and what
    follows it: a greedy [[^c]*]. *)
Fixpoint span_until (stop : ascii -> bool) (s : string) : string * string :=
  match s with
  | String c s' =>
      if stop c then (EmptyString, s)
      else let '(run, r) := span_until stop s' in (String c run, r)
  | EmptyString => (EmptyString, EmptyString)
  end.

(** The capture of [selector\s*{([^}]+)}] matched at the head of [s]. *)
Definition block_at (selector s : string) : option string :=
  match strip_prefix selector s with
  | Some r =>
      match trim_start r with
      | String "{" r' =>
          match span_until (Ascii.eqb "}") r' with
          | (String c body, String "}" _) => Some (String c body)
          | _ => None
          end
      | _ => None
      end
  | None => None
  end.

(** The capture of the leftmost match of that pattern in [s]. *)
Fixpoint first_block (selector s : string) : option string :=
  match block_at selector s with
  | Some body => Some body
  | None =>
      match s with
      | String _ s' => first_block selector s'
      | EmptyString => None
      end
  end.

(** [extractCssBlockContent(input, selector)]; [None] is [null]. *)
Definition extractCssBlockContent (input selector : string) : option string :=
  match first_block selector input with
  | Some body =>
      let content := trim body in
      if String.eqb content "" then None else Some content
  | None => None
  end.

(** The text [--[^:]+:\s*[^;]+] matches at the head of [s]. *)
Definition declaration_at (s : string) : option string :=
  match strip_prefix "--" s with
  | Some r =>
      match span_until (Ascii.eqb ":") r with
      | (String c name, String ":" r') =>
          match span_until (Ascii.eqb ";") r' with
          | (String c' value, _) =>
              Some ("--" +:+ String c name +:+ ":" +:+ String c' value)
          | _ => None
          end
      | _ => None
      end
  | None => None
  end.

(** [s.match(/--[^:]+:\s*[^;]+/g) || []]: the matches from left to right,
    none overlapping another; [skip] characters of [s] belong to the
    match before. *)
Fixpoint match_declarations (skip : nat) (s : string) : list string :=
  match s with
  | EmptyString => []
  | String _ s' =>
      match skip with
      | S k => match_declarations k s'
      | O =>
          match declaration_at s with
          | Some d => d :: match_declarations (String.length d - 1) s'
          | None => match_declarations 0 s'
          end
      end
  end.

(** [s.split(":")] *)
Fixpoint split_colon (s : string) : list string :=
  match s with
  | EmptyString => [EmptyString]
  | String c s' =>
      if Ascii.eqb c ":" then EmptyString :: split_colon s'
      else
        match split_colon s' with
        | piece :: pieces => String c piece :: pieces
        | [] => [String c EmptyString]
        end
  end.

(** [Object.keys(defaultThemeState.styles.light)]; only membership in it
    is used. *)
Definition variableNames : list string := elements (dom defaultLightThemeStyles).

Definition nonColorVariables : list string := COMMON_STYLES.

Definition VARIABLE_PREFIX : string := "--".

(** [processColorValue] *)
Definition processColorValue (value : string) : string :=
  match value with
  | String c _ => if is_digit c then "hsl(" +:+ value +:+ ")" else value
  | EmptyString => value
  end.

Section Parser.
Context `{Binary64} (culori : Culori).

(** The body of the [forEach] of [parseColorVariables]. *)
Definition parseDeclaration (validNames : list string)
    (target : gmap string string) (decl : string) : gmap string string :=
  match map trim (split_colon decl) with
  | name :: value :: _ =>
      let cleanName := replace_first VARIABLE_PREFIX "" name in
      if includes validNames cleanName then
        if includes nonColorVariables cleanName then
          <[cleanName := value]> target
        else
          let colorValue := processColorValue value in
          let formattedValue := colorFormatter culori colorValue "hex" "3" in
          <[cleanName := formattedValue]> target
      else target
  | _ => target
  end.

(** [parseColorVariables(cssContent, target, validNames)]: the target
    after the call. *)
Definition parseColorVariables (cssContent : string)
    (target : gmap string string) (validNames : list string)
  : gmap string string :=
  let variableDeclarations := match_declarations 0 cssContent in
  foldl (parseDeclaration validNames) target variableDeclarations.

(** [parseCssInput(input)]: the pair [(lightColors, darkColors)]. *)
Definition parseCssInput (input : string)
  : gmap string string * gmap string string :=
  let rootContent := extractCssBlockContent input ":root" in
  let darkContent := extractCssBlockContent input ".dark" in
  let lightColors :=
    match rootContent with
    | Some content => parseColorVariables content ∅ variableNames
    | None => ∅
    end in
  let darkColors :=
    match darkContent with
    | Some content => parseColorVariables content ∅ variableNames
    | None => ∅
    end in
  (lightColors, darkColors).

End Parser.

(** ** Instances for the worked examples *)

(** Exact arithmetic: the rounding that rounds nothing.  Its digit
    string is the decimal expansion, cut after twenty decimals. *)
Definition digit_char (d : nat) : ascii := ascii_of_nat (48 + d mod 10).

Fixpoint fraction_digits (fuel : nat) (num den : Z) : string :=
  match fuel with
  | O => EmptyString
  | S fuel' =>
      if (num =? 0)%Z then EmptyString
      else String (digit_char (Z.to_nat (num * 10 / den)))
                  (fraction_digits fuel' (num * 10 mod den) den)
  end.

Definition exact_shortest (q : Q) : string :=
  let a := Qabs q in
  let whole := Qfloor a in
  let frac := fraction_digits 20 (Qnum a - whole * Zpos (Qden a)) (Zpos (Qden a)) in
  (if Qle_bool 0 q then "" else "-")
  +:+ digits (Z.to_N whole)
  +:+ (if String.eqb frac "" then "" else "." +:+ frac).

(** A small colour library: colours are sRGB byte triples, read from
    six-digit hex literals only. *)
Definition hex_value (c : ascii) : option N :=
  let n := N_of_ascii c in
  if ((48 <=? n) && (n <=? 57))%N then Some (n - 48)%N
  else if ((97 <=? n) && (n <=? 102))%N then Some (n - 87)%N
  else if ((65 <=? n) && (n <=? 70))%N then Some (n - 55)%N
  else None.

Definition hex_digit (n : N) : ascii :=
  if (n <? 10)%N then ascii_of_N (48 + n) else ascii_of_N (87 + n).

Definition hex_byte (n : N) : string :=
  String (hex_digit (n / 16 mod 16)) (String (hex_digit (n mod 16)) EmptyString).

Definition sample_parse (s : string) : option (N * N * N) :=
  match s with
  | String "#" (String r1 (String r2 (String g1 (String g2
      (String b1 (String b2 EmptyString)))))) =>
      match hex_value r1, hex_value r2, hex_value g1, hex_value g2,
            hex_value b1, hex_value b2 with
      | Some r1, Some r2, Some g1, Some g2, Some b1, Some b2 =>
          Some (r1 * 16 + r2, g1 * 16 + g2, b1 * 16 + b2)%N
      | _, _, _, _, _, _ => None
      end
  | _ => None
  end.

Definition sample_formatHex (c : N * N * N) : string :=
  let '(r, g, b) := c in "#" +:+ hex_byte r +:+ hex_byte g +:+ hex_byte b.

Definition sample_formatRgb (c : N * N * N) : string :=
  let '(r, g, b) := c in
  "rgb(" +:+ digits r +:+ ", " +:+ digits g +:+ ", " +:+ digits b +:+ ")".

(** A byte as a fraction of 255, at most 1. *)
Definition channel (n : N) : Q := Qmake (Z.of_N (N.min n 255)) 255.

Definition sample_hsl (c : N * N * N) : Hsl :=
  let '(r, g, b) := c in
  let '(r, g, b) := (channel r, channel g, channel b) in
  let M := Qmax r (Qmax g b) in
  let m := Qmin r (Qmin g b) in
  let d := (M - m)%Q in
  {| hsl_h :=
       if Qeq_bool d 0 then None
       else Some (Fin (60 * (if Qeq_bool M r
                             then (g - b) / d + (if Qle_bool b g then 0 else 6)
                             else if Qeq_bool M g then (b - r) / d + 2
                             else (r - g) / d + 4))%Q);
     hsl_s := Some (Fin (if Qeq_bool d 0 then 0 else d / (1 - Qabs (M + m - 1)))%Q);
     hsl_l := Some (Fin ((M + m) / 2)%Q) |}.

(** Relative luminance, with the exponent 2.4 of the transfer curve
    replaced by 2 to stay rational. *)
Definition sample_linear (c : Q) : Q :=
  if Qle_bool c (4045 # 100000) then (c / (1292 # 100))%Q
  else (((c + (55 # 1000)) / (1055 # 1000)) ^ 2)%Q.

Definition sample_luminance (c : N * N * N) : Q :=
  let '(r, g, b) := c in
  ((2126 # 10000) * sample_linear (channel r)
   + (7152 # 10000) * sample_linear (channel g)
   + (722 # 10000) * sample_linear (channel b))%Q.

(** The lightness-only reading of a colour in OKLCH. *)
Definition sample_oklch (c : N * N * N) : Oklch :=
  {| oklch_l := Some (Fin (sample_luminance c));
     oklch_c := Some (Fin 0);
     oklch_h := None |}.

Definition sampleCulori : Culori :=
  {| color := N * N * N;
     culori_parse := sample_parse;
     culori_hsl := sample_hsl;
     culori_oklch := sample_oklch;
     culori_formatRgb := sample_formatRgb;
     culori_formatHex := sample_formatHex;
     culori_wcagLuminance := fun c => Fin (sample_luminance c) |}.

(** The same library, reading besides the notation [rgb(r g b)] with whole
    channels.  Like culori it keeps a channel above 255 as it is, so the
    luminance of such a colour exceeds 1. *)
Definition wide_parse (s : string) : option (N * N * N) :=
  match strip_prefix "rgb(" s with
  | Some s1 =>
      let '(r, s2) := span_digits s1 in
      match strip_prefix " " s2 with
      | Some s3 =>
          let '(g, s4) := span_digits s3 in
          match strip_prefix " " s4 with
          | Some s5 =>
              let '(b, s6) := span_digits s5 in
              if String.eqb s6 ")"
                 && negb (String.eqb r "" || String.eqb g "" || String.eqb b "")
              then Some (digits_value 0 r, digits_value 0 g, digits_value 0 b)
              else None
          | None => None
          end
      | None => None
      end
  | None => sample_parse s
  end.

Definition wide_channel (n : N) : Q := Qmake (Z.of_N n) 255.

Definition wide_luminance (c : N * N * N) : Q :=
  let '(r, g, b) := c in
  ((2126 # 10000) * sample_linear (wide_channel r)
   + (7152 # 10000) * sample_linear (wide_channel g)
   + (722 # 10000) * sample_linear (wide_channel b))%Q.

Definition wideGamutCulori : Culori :=
  {| color := N * N * N;
     culori_parse := wide_parse;
     culori_hsl := sample_hsl;
     culori_oklch := sample_oklch;
     culori_formatRgb := sample_formatRgb;
     culori_formatHex := sample_formatHex;
     culori_wcagLuminance := fun c => Fin (wide_luminance c) |}.

(** ** hooks/use-toast.ts *)

Definition TOAST_LIMIT : nat := 1.

(** [Number.MAX_SAFE_INTEGER] *)
Definition MAX_SAFE_INTEGER : N := 2 ^ 53 - 1.

(** The value of a property of a toast: a text, a flag, a React node, or
    the handler [(open) => { if (!open) dismiss() }] that [toast] binds
    to the toast's id. *)
Inductive ToastValue : Type :=
  | VText (s : string)
  | VFlag (b : bool)
  | VNode (label : string)
  | VDismissOnClose (id : string).

Global Instance ToastValue_eq_dec : EqDecision ToastValue.
Proof. solve_decision. Defined.

(** [ToasterToast]: the id, and the other properties by name. *)
Record ToasterToast : Type := mkToasterToast {
  toast_id : string;
  toast_props : gmap string ToastValue
}.

(** [Partial<ToasterToast>] *)
Record PartialToast : Type := mkPartialToast {
  partial_id : option string;
  partial_props : gmap string ToastValue
}.

Inductive Action : Type :=
  | ADD_TOAST (toast : ToasterToast)
  | UPDATE_TOAST (toast : PartialToast)
  | DISMISS_TOAST (toastId : option string)
  | REMOVE_TOAST (toastId : option string).

(** The state of the module: the counter of [genId], the ids that have a
    removal timer pending in [toastTimeouts] (in the order the timers were
    set) and [memoryState.toasts]. *)
Record ToastModule : Type := mkToastModule {
  count : N;
  toastTimeouts : list string;
  memoryState : list ToasterToast
}.

Definition initialToastModule : ToastModule :=
  {| count := 0; toastTimeouts := []; memoryState := [] |}.

(** [genId()]: the id, and the counter after the call. *)
Definition genId (count : N) : string * N :=
  let count' := ((count + 1) mod MAX_SAFE_INTEGER)%N in
  (digits count', count').

(** [addToRemoveQueue(toastId)]: the pending timers after the call. *)
Definition addToRemoveQueue (toastId : string) (timeouts : list string)
  : list string :=
  if bool_decide (toastId ∈ timeouts) then timeouts
  else timeouts ++ [toastId].

(** [{ ...t, ...toast }] *)
Definition merge_toast (t : ToasterToast) (p : PartialToast) : ToasterToast :=
  {| toast_id := default (toast_id t) (partial_id p);
     toast_props := spread (toast_props t) (partial_props p) |}.

(** [{ ...t, open: false }] *)
Definition close_toast (t : ToasterToast) : ToasterToast :=
  {| toast_id := toast_id t;
     toast_props := <["open" := VFlag false]> (toast_props t) |}.

(** [reducer(state, action)], with the timers it sets on the way. *)
Definition reducer (timeouts : list string) (state : list ToasterToast)
    (action : Action) : list string * list ToasterToast :=
  match action with
  | ADD_TOAST toast => (timeouts, take TOAST_LIMIT (toast :: state))
  | UPDATE_TOAST toast =>
      (timeouts,
       map (fun t => if bool_decide (Some (toast_id t) = partial_id toast)
                     then merge_toast t toast else t) state)
  | DISMISS_TOAST toastId =>
      let timeouts' :=
        match toastId with
        | Some id =>
            if negb (String.eqb id "") then addToRemoveQueue id timeouts
            else foldl (fun q t => addToRemoveQueue (toast_id t) q) timeouts state
        | None => foldl (fun q t => addToRemoveQueue (toast_id t) q) timeouts state
        end in
      (timeouts',
       map (fun t => if bool_decide (Some (toast_id t) = toastId)
                        || bool_decide (toastId = None)
                     then close_toast t else t) state)
  | REMOVE_TOAST None => (timeouts, [])
  | REMOVE_TOAST (Some id) =>
      (timeouts, filter (fun t => toast_id t <> id) state)
  end.

(** [dispatch(action)] *)
Definition dispatch (action : Action) (m : ToastModule) : ToastModule :=
  let '(timeouts, state) := reducer (toastTimeouts m) (memoryState m) action in
  {| count := count m; toastTimeouts := timeouts; memoryState := state |}.

(** The callback of the timer [addToRemoveQueue] sets for [toastId]. *)
Definition removal_timer_fires (toastId : string) (m : ToastModule) : ToastModule :=
  dispatch (REMOVE_TOAST (Some toastId))
    {| count := count m;
       toastTimeouts := filter (fun id => id <> toastId) (toastTimeouts m);
       memoryState := memoryState m |}.

(** [toast(props)]: the id of the new toast, and the module after the call. *)
Definition toast (props : gmap string ToastValue) (m : ToastModule)
  : string * ToastModule :=
  let '(id, count') := genId (count m) in
  let m' := {| count := count'; toastTimeouts := toastTimeouts m;
               memoryState := memoryState m |} in
  (id,
   dispatch
     (ADD_TOAST
        {| toast_id := id;
           toast_props := <["onOpenChange" := VDismissOnClose id]>
                            (<["open" := VFlag true]> props) |}) m').

(** The [dismiss] and [update] of the handle [toast] returns, and the
    [dismiss] of [useToast]. *)
Definition dismiss (toastId : option string) (m : ToastModule) : ToastModule :=
  dispatch (DISMISS_TOAST toastId) m.

Definition update (id : string) (props : ToasterToast) (m : ToastModule)
  : ToastModule :=
  dispatch (UPDATE_TOAST {| partial_id := Some id;
                            partial_props := toast_props props |}) m.

(** One thing that happens to the module. *)
Inductive toast_step : ToastModule -> ToastModule -> Prop :=
  | step_toast props m : toast_step m (toast props m).2
  | step_dismiss toastId m : toast_step m (dismiss toastId m)
  | step_update id props m : toast_step m (update id props m)
  | step_timer toastId m :
      toastId ∈ toastTimeouts m -> toast_step m (removal_timer_fires toastId m).

Inductive toast_reachable : ToastModule -> Prop :=
  | toast_reachable_initial : toast_reachable initialToastModule
  | toast_reachable_step m m' :
      toast_reachable m -> toast_step m m' -> toast_reachable m'.

(** ** components/editor/css-import-dialog.tsx *)

(** [s.includes(p)] on strings. *)
Fixpoint string_includes (p s : string) : bool :=
  match strip_prefix p s with
  | Some _ => true
  | None =>
      match s with
      | String _ s' => string_includes p s'
      | EmptyString => false
      end
  end.

(** The text area and the error line of the dialog. *)
Record ImportDialog : Type := mkImportDialog {
  cssText : string;
  dialog_error : option string
}.

(** [handleImport()]: the dialog after the click, and the text handed to
    [onImport] when the dialog accepts it and closes. *)
Definition handleImport (d : ImportDialog) : ImportDialog * option string :=
  if String.eqb (trim (cssText d)) "" then
    ({| cssText := cssText d; dialog_error := Some "Please enter CSS content" |},
     None)
  else if negb (string_includes "--" (cssText d))
          || negb (string_includes ":" (cssText d)) then
    ({| cssText := cssText d;
        dialog_error :=
          Some "Invalid CSS format. CSS should contain variable definitions like --primary: #color" |},
     None)
  else
    ({| cssText := ""; dialog_error := None |}, Some (cssText d)).

(** ** components/editor/action-bar.tsx *)

Section ActionBar.
Context `{Binary64} (culori : Culori).

(** [handleCssImport(css)]: the store and the toasts after the call. *)
Definition handleCssImport (css : string) (s : EditorStore) (m : ToastModule)
  : EditorStore * ToastModule :=
  let '(lightColors, darkColors) := parseCssInput culori css in
  let ts := themeState s in
  let styles' :=
    {| light := spread (light (styles ts)) lightColors;
       dark := spread (dark (styles ts)) darkColors |} in
  (setThemeState
     {| preset := preset ts; styles := styles'; currentMode := currentMode ts |} s,
   (toast (js_object [("title", VText "CSS imported");
                      ("description",
                       VText "Your custom CSS has been imported successfully")])
          m).2).

End ActionBar.

(** ** hooks/use-contrast-checker.ts *)

Record ColorPair : Type := mkColorPair {
  pair_id : string;
  foreground : string;
  background : string
}.

Record ContrastResult : Type := mkContrastResult {
  result_id : string;
  contrastRatio : number
}.

Section ContrastChecker.
Context `{Binary64} (culori : Culori).

(** The calculation [useContrastChecker] runs, debounced, on the colour
    pairs: the value it hands to [setContrastResults]. *)
Definition contrastResults (pairs : list ColorPair) : list ContrastResult :=
  match pairs with
  | [] => []
  | _ =>
      try_catch
        (Return
           (map (fun pair =>
                   let ratio :=
                     parseFloat (getContrastRatio culori (foreground pair)
                                                  (background pair)) in
                   {| result_id := pair_id pair; contrastRatio := ratio |})
                pairs))
        (fun _ => [])
  end.

End ContrastChecker.

(** ** components/editor/theme-control-panel.tsx: the sliders *)

Section Sliders.
Context `{Binary64}.

(** The number a slider shows for a token written with [unit]:
    [parseFloat(token.replace(unit, ""))]. *)
Definition slider_value (unit token : string) : number :=
  parseFloat (replace_first unit "" token).

(** The token a slider writes for a number: the template [${value}unit]. *)
Definition slider_token (unit : string) (value : number) : string :=
  toString value +:+ unit.

End Sliders.

(** ** scripts/generate-theme-registry.ts *)

(** [a || b] where [a] is a string that may be missing. *)
Definition or_opt (a b : option string) : option string :=
  match a with
  | Some s => if String.eqb s "" then b else Some s
  | None => b
  end.

Definition or_else (a : option string) (b : string) : string :=
  default b (or_opt a (Some b)).

(** [{ ...m, [key]: value }] for a value that may be [undefined]; a key
    with that value is not written to the JSON file. *)
Definition set_key (key : string) (value : option string)
    (m : gmap string string) : gmap string string :=
  match value with
  | Some v => <[key := v]> m
  | None => delete key m
  end.

(** The registry item, as it is written to [public/r/themes/<name>.json]. *)
Record RegistryItem : Type := mkRegistryItem {
  registry_schema : string;
  registry_name : string;
  registry_type : string;
  registry_dependencies : list string;
  registry_registryDependencies : list string;
  registry_css : gmap string (gmap string (gmap string string));
  cssVars_theme : gmap string string;
  cssVars_light : gmap string string;
  cssVars_dark : gmap string string
}.

(** The tokens [convertTheme] converts, in the order of its assignments. *)
Definition registryColorKeys : list string :=
  [ "background"; "foreground"; "card"; "card-foreground"; "popover";
    "popover-foreground"; "primary"; "primary-foreground"; "secondary";
    "secondary-foreground"; "muted"; "muted-foreground"; "accent";
    "accent-foreground"; "destructive"; "destructive-foreground"; "border";
    "input"; "ring"; "chart-1"; "chart-2"; "chart-3"; "chart-4"; "chart-5";
    "sidebar"; "sidebar-foreground"; "sidebar-primary";
    "sidebar-primary-foreground"; "sidebar-accent";
    "sidebar-accent-foreground"; "sidebar-border"; "sidebar-ring" ].

Section Registry.
Context `{Binary64} (culori : Culori).

Definition convertToRegistryColor (color : string) : string :=
  colorFormatter culori color "oklch" "3".

(** [getThemeValue(dark, light, key)]: [dark[key] || light[key] || ""] *)
Definition getThemeValue (dark light : gmap string string) (key : string)
  : string :=
  or_else (or_opt (dark !! key) (light !! key)) "".

(** [convertTheme(theme)]: [result] is [theme] itself, so each assignment
    reads the object the assignments before it have written. *)
Definition convertTheme (theme : gmap string string) : gmap string string :=
  let convertColor (color : option string) : string :=
    convertToRegistryColor (or_else color "") in
  foldl (fun result key => <[key := convertColor (result !! key)]> result)
        theme registryColorKeys.

(** [convertThemeStyles(styles)] *)
Definition convertThemeStyles (styles : ThemeStyles) : ThemeStyles :=
  {| light := spread defaultLightThemeStyles (convertTheme (light styles));
     dark := spread defaultDarkThemeStyles (convertTheme (dark styles)) |}.

(** The object literal [registryItem] of [generateThemeRegistry], from the
    name, the converted token sets and the two shadow maps. *)
Definition registryItem (name : string)
    (light dark lightShadows darkShadows : gmap string string) : RegistryItem :=
  let with_shadows (shadows tokens : gmap string string) :=
    foldl (fun m key => set_key key (shadows !! key) m) tokens
          [ "shadow-2xs"; "shadow-xs"; "shadow-sm"; "shadow"; "shadow-md";
            "shadow-lg"; "shadow-xl"; "shadow-2xl" ] in
  {| registry_schema := "https://ui.shadcn.com/schema/registry-item.json";
     registry_name := name;
     registry_type := "registry:style";
     registry_dependencies := [];
     registry_registryDependencies := [];
     registry_css :=
       js_object
         [("@layer base",
           js_object
             [("body",
               js_object [("letter-spacing", "var(--tracking-normal)")])])];
     cssVars_theme :=
       js_object
         [ ("font-sans",
            or_else (Some (getThemeValue dark light "font-sans"))
                    "Inter, sans-serif");
           ("font-mono",
            or_else (Some (getThemeValue dark light "font-mono")) "monospace");
           ("font-serif",
            or_else (Some (getThemeValue dark light "font-serif")) "serif");
           ("radius",
            or_else (Some (getThemeValue dark light "radius")) "0.5rem");
           ("tracking-tighter", "calc(var(--tracking-normal) - 0.05em)");
           ("tracking-tight", "calc(var(--tracking-normal) - 0.025em)");
           ("tracking-wide", "calc(var(--tracking-normal) + 0.025em)");
           ("tracking-wider", "calc(var(--tracking-normal) + 0.05em)");
           ("tracking-widest", "calc(var(--tracking-normal) + 0.1em)") ];
     cssVars_light :=
       <["spacing" := or_else (Some (getThemeValue dark light "spacing"))
                              "0.25rem"]>
         (<["tracking-normal" :=
              or_else (Some (getThemeValue dark light "letter-spacing")) "0em"]>
            (with_shadows lightShadows light));
     cssVars_dark := with_shadows darkShadows dark |}.

(** [generateThemeRegistry(name)]; the script calls it on the keys of the
    catalog. *)
Definition generateThemeRegistry (name : string) : outcome RegistryItem :=
  and_then (getPresetThemeStyles name) (fun presetStyles =>
    let converted := convertThemeStyles presetStyles in
    let light := light converted in
    let dark := dark converted in
    let lightShadows := getShadowMap culori converted Light in
    let darkShadows := getShadowMap culori converted Dark in
    Return (registryItem name light dark lightShadows darkShadows)).

End Registry.

(** ** utils/theme-fonts.ts *)

(** The entries of the object [fonts], in the order of the literal. *)
Definition fonts : list (string * string) :=
  [ ("Inter", "Inter, sans-serif");
    ("Roboto", "Roboto, sans-serif");
    ("Open Sans", "Open Sans, sans-serif");
    ("Poppins", "Poppins, sans-serif");
    ("Montserrat", "Montserrat, sans-serif");
    ("Outfit", "Outfit, sans-serif");
    ("Plus Jakarta Sans", "Plus Jakarta Sans, sans-serif");
    ("DM Sans", "DM Sans, sans-serif");
    ("IBM Plex Sans", "IBM Plex Sans, sans-serif");
    ("Geist", "Geist, sans-serif");
    ("Oxanium", "Oxanium, sans-serif");
    ("Merriweather", "Merriweather, serif");
    ("Playfair Display", "Playfair Display, serif");
    ("Lora", "Lora, serif");
    ("Source Serif Pro", "Source Serif Pro, serif");
    ("Libre Baskerville", "Libre Baskerville, serif");
    ("Space Grotesk", "Space Grotesk, serif");
    ("JetBrains Mono", "JetBrains Mono, monospace");
    ("Fira Code", "Fira Code, monospace");
    ("Source Code Pro", "Source Code Pro, monospace");
    ("IBM Plex Mono", "IBM Plex Mono, monospace");
    ("Roboto Mono", "Roboto Mono, monospace");
    ("Space Mono", "Space Mono, monospace");
    ("Geist Mono", "Geist Mono, monospace") ].

(** [getAppliedThemeFont(state, fontKey)]: the first key of [fonts] whose
    stack includes the light token; [null] is [None].  [fonts[key]] is read
    from the object; a missing token is searched for as ["undefined"]. *)
Definition getAppliedThemeFont (state : ThemeEditorState) (fontKey : string)
  : option string :=
  let fontSans := light (styles state) !! fontKey in
  let key :=
    find (fun key =>
            match js_object fonts !! key with
            | Some stack => string_includes (js_str fontSans) stack
            | None => false
            end)
         (map fst fonts) in
  match key with
  | Some key => if String.eqb key "" then None else Some key
  | None => None
  end.

(** ** utils/apply-style-to-element.ts, components/theme-provider.tsx *)

(** The root element, as far as the theme effect touches it: its [style]
    attribute ([None] when the element has none) and its class list. *)
Record Element : Type := mkElement {
  style_attribute : option string;
  classList : list string
}.

(** [applyStyleToElement(element, key, value)] *)
Definition applyStyleToElement (element : Element) (key value : string)
  : Element :=
  let old :=
    match style_attribute element with
    | Some s => s
    | None => ""
    end in
  {| style_attribute := Some (old +:+ "--" +:+ key +:+ ": " +:+ value +:+ ";");
     classList := classList element |}.

(** [updateThemeClass(root, mode)]: [classList.remove] drops the token,
    [classList.add] appends it unless it is there. *)
Definition updateThemeClass (root : Element) (mode : Mode) : Element :=
  match mode with
  | Light =>
      {| style_attribute := style_attribute root;
         classList := filter (fun c => c <> "dark") (classList root) |}
  | Dark =>
      if includes (classList root) "dark" then root
      else {| style_attribute := style_attribute root;
              classList := classList root ++ ["dark"] |}
  end.

Section ThemeProvider.
Context `{Binary64} (culori : Culori).

(** [Object.entries(o)]: the entries of the object in its own order. *)
Variable Object_entries : gmap string string -> list (string * string).

(** [applyCommonStyles(root, themeStyles)] *)
Definition applyCommonStyles (root : Element) (themeStyles : gmap string string)
  : Element :=
  foldl (fun root entry => applyStyleToElement root entry.1 entry.2) root
        (filter (fun entry => includes COMMON_STYLES entry.1 = true)
                (Object_entries themeStyles)).

(** [applyThemeColors(root, themeStyles, mode)] *)
Definition applyThemeColors (root : Element) (themeStyles : ThemeStyles)
    (mode : Mode) : Element :=
  foldl (fun root entry =>
           if negb (includes COMMON_STYLES entry.1) then
             let hslValue := colorFormatter culori entry.2 "hsl" "4" in
             applyStyleToElement root entry.1 hslValue
           else root)
        root (Object_entries (styles_of themeStyles mode)).

(** [setShadowVariables(themeEditorState)], on the root element. *)
Definition setShadowVariables (root : Element) (themeEditorState : ThemeEditorState)
  : Element :=
  let shadows :=
    getShadowMap culori (styles themeEditorState) (currentMode themeEditorState) in
  foldl (fun root entry => applyStyleToElement root entry.1 entry.2) root
        (Object_entries shadows).

(** The effect of [ThemeProvider], run at every change of [themeState]. *)
Definition themeEffect (root : Element) (themeState : ThemeEditorState) : Element :=
  let mode := currentMode themeState in
  let themeStyles := styles themeState in
  let root := updateThemeClass root mode in
  let root := applyCommonStyles root (light themeStyles) in
  let root := applyThemeColors root themeStyles mode in
  setShadowVariables root themeState.

End ThemeProvider.

(* ===================================================================== *)
(** * Part II: properties                                                 *)
(* ===================================================================== *)

(** ** Strings and digits *)

Lemma append_assoc (a b c : string) : (a +:+ b) +:+ c = a +:+ b +:+ c.
Proof. induction a as [|x a IH]; simpl; [reflexivity | now rewrite IH]. Qed.

Lemma append_empty_r (a : string) : a +:+ "" = a.
Proof. induction a as [|x a IH]; simpl; [reflexivity | now rewrite IH]. Qed.

Lemma list_ascii_of_string_app (a b : string) :
  list_ascii_of_string (a +:+ b)
  = (list_ascii_of_string a ++ list_ascii_of_string b)%list.
Proof. induction a as [|x a IH]; simpl; [reflexivity | now rewrite IH]. Qed.

(** The characters of a string all satisfy [p]. *)
Definition all_chars (p : ascii -> bool) (s : string) : bool :=
  forallb p (list_ascii_of_string s).

Lemma all_chars_app p a b :
  all_chars p (a +:+ b) = all_chars p a && all_chars p b.
Proof. unfold all_chars. now rewrite list_ascii_of_string_app, forallb_app. Qed.

Lemma all_chars_weaken (p q : ascii -> bool) s :
  (forall c, p c = true -> q c = true) ->
  all_chars p s = true -> all_chars q s = true.
Proof.
  intros Hpq. unfold all_chars.
  induction (list_ascii_of_string s) as [|c l IH]; simpl; [reflexivity |].
  intros [Hc Hl]%andb_prop. rewrite (Hpq _ Hc). simpl. now apply IH.
Qed.

Lemma uint_digits (d : Decimal.uint) :
  all_chars is_digit (NilEmpty.string_of_uint d) = true.
Proof. induction d; simpl; try reflexivity; exact IHd. Qed.

Lemma digits_are_digits (n : N) : all_chars is_digit (digits n) = true.
Proof.
  unfold digits, NilZero.string_of_uint.
  destruct (N.to_uint n); try reflexivity; apply (uint_digits (_ _)).
Qed.

Lemma digits_nonempty (n : N) : digits n <> "".
Proof.
  unfold digits, NilZero.string_of_uint.
  destruct (N.to_uint n); simpl; discriminate.
Qed.

Lemma is_digit_number_char c : is_digit c = true -> number_char c = true.
Proof. intros Hc. unfold number_char. now rewrite Hc. Qed.

Lemma digit_char_is_digit (d : nat) : is_digit (digit_char d) = true.
Proof.
  unfold digit_char.
  assert (Hlt : (d mod 10 < 10)%nat) by (apply Nat.mod_upper_bound; lia).
  destruct (d mod 10)%nat as [|[|[|[|[|[|[|[|[|[|k]]]]]]]]]]; try reflexivity; lia.
Qed.

Lemma fraction_digits_digits fuel num den :
  all_chars is_digit (fraction_digits fuel num den) = true.
Proof.
  revert num. induction fuel as [|fuel IH]; intros num; simpl; [reflexivity |].
  destruct (num =? 0)%Z; [reflexivity |].
  unfold all_chars in *. cbn [list_ascii_of_string forallb].
  now rewrite digit_char_is_digit, IH.
Qed.

Lemma exact_shortest_chars (q : Q) :
  forallb number_char (list_ascii_of_string (exact_shortest q)) = true.
Proof.
  change (all_chars number_char (exact_shortest q) = true).
  unfold exact_shortest. rewrite !all_chars_app.
  repeat (apply andb_true_intro; split).
  - now destruct (Qle_bool 0 q).
  - apply (all_chars_weaken is_digit); [apply is_digit_number_char |].
    apply digits_are_digits.
  - destruct (String.eqb _ ""); [reflexivity |].
    rewrite all_chars_app. apply andb_true_intro; split; [reflexivity |].
    apply (all_chars_weaken is_digit); [apply is_digit_number_char |].
    apply fraction_digits_digits.
Qed.

(** Exact arithmetic satisfies the laws of the floating-point format. *)
#[export] Program Instance exact_arithmetic : Binary64 :=
  {| rnd := fun q => q; shortest := exact_shortest |}.
Next Obligation. intros p q Hpq; exact Hpq. Qed.
Next Obligation. intros p q Hpq; exact Hpq. Qed.
Next Obligation. intros z _; reflexivity. Qed.
Next Obligation.
  intros q _. assert (E : (q - q == 0)%Q) by ring. rewrite E.
  apply Qmult_le_0_compat; [apply Qabs_nonneg | discriminate].
Qed.
Next Obligation. exact exact_shortest_chars. Qed.

(** ** Number formatting *)

(** The first character of [s], if any, is not the letter h. *)
Definition safe_head (s : string) : bool :=
  match s with
  | String c _ => negb (Ascii.eqb c "h")
  | EmptyString => true
  end.

Lemma safe_head_app (a b : string) :
  safe_head a = true -> safe_head b = true -> safe_head (a +:+ b) = true.
Proof. destruct a; simpl; auto. Qed.

Lemma safe_head_number_chars (s : string) :
  all_chars number_char s = true -> safe_head s = true.
Proof.
  destruct s as [|c s]; [reflexivity |]. unfold all_chars; simpl.
  intros [Hc _]%andb_prop. destruct (Ascii.eqb_spec c "h") as [->|]; [|reflexivity].
  discriminate Hc.
Qed.

Lemma safe_head_digits (n : N) : safe_head (digits n) = true.
Proof.
  apply safe_head_number_chars, (all_chars_weaken is_digit).
  - apply is_digit_number_char.
  - apply digits_are_digits.
Qed.

Lemma safe_head_no_prefix (s : string) :
  safe_head s = true -> starts_with "hsl(" s = false.
Proof.
  destruct s as [|c s]; [reflexivity |]. unfold starts_with, safe_head.
  intros Hc%negb_true_iff.
  change (strip_prefix "hsl(" (String c s))
    with (if Ascii.eqb "h" c then strip_prefix "sl(" s else None).
  rewrite Ascii.eqb_sym. now rewrite Hc.
Qed.

Section NumberFormatting.
Context `{Binary64}.

Lemma safe_head_toString (x : number) : safe_head (toString x) = true.
Proof.
  destruct x as [| | |q]; try reflexivity. unfold toString.
  destruct (_ && _).
  - destruct (Qle_bool 0 q); [apply safe_head_digits | reflexivity].
  - apply safe_head_number_chars, shortest_chars.
Qed.

Lemma safe_head_toFixed2 (x : number) : safe_head (toFixed2 x) = true.
Proof.
  destruct x as [| | |q]; try reflexivity. unfold toFixed2.
  destruct (Qle_bool _ _); [apply safe_head_toString |]. unfold fixed2.
  destruct (negb _); [reflexivity |].
  apply (safe_head_app ""); [reflexivity |].
  apply safe_head_app; [apply safe_head_digits | reflexivity].
Qed.

Lemma safe_head_formatNumber (x : option number) : safe_head (formatNumber x) = true.
Proof.
  unfold formatNumber. destruct x as [n|]; [|reflexivity].
  destruct (falsy _); [reflexivity |].
  destruct (is_integer n); [apply safe_head_toString | apply safe_head_toFixed2].
Qed.

Lemma toString_zero (q : Q) : Qeq_bool q 0 = true -> toString (Fin q) = "0".
Proof.
  intros Hq%Qeq_bool_eq. unfold toString, is_integer.
  assert (Hfloor : Qfloor q = 0%Z) by (now rewrite Hq).
  rewrite Hfloor.
  assert (H1 : Qeq_bool (inject_Z 0) q = true)
    by (apply Qeq_bool_iff; now rewrite Hq).
  assert (H2 : Qle_bool (Qabs q) (inject_Z (2 ^ 53)) = true)
    by (apply Qle_bool_iff; rewrite Hq; discriminate).
  assert (H3 : Qle_bool 0 q = true)
    by (apply Qle_bool_iff; rewrite Hq; apply Qle_refl).
  now rewrite H1, H2, H3.
Qed.

(** The formatting rule of the specification: a missing component (and
    the NaN a product with one gives) prints as [0], an integer as its
    digits, any other number with two decimals. *)
Definition component_text (x : option number) : string :=
  match x with
  | None | Some NaN => "0"
  | Some n => if is_integer n then toString n else toFixed2 n
  end.

Lemma formatNumber_component_text (x : option number) :
  formatNumber x = component_text x.
Proof.
  destruct x as [[| | |q]|]; try reflexivity.
  unfold formatNumber, component_text, falsy.
  destruct (Qeq_bool q 0) eqn:Hq; [|reflexivity].
  rewrite (toString_zero q Hq). unfold is_integer.
  apply Qeq_bool_eq in Hq.
  assert (H1 : Qeq_bool (inject_Z (Qfloor q)) q = true).
  { apply Qeq_bool_iff. assert (Hf : Qfloor q = 0%Z) by (now rewrite Hq).
    rewrite Hf. now rewrite Hq. }
  now rewrite H1.
Qed.

End NumberFormatting.

(** ** utils/color-converter.ts: the converter *)

Section ColorConverterProperties.
Context `{Binary64} (culori : Culori).

(** The bare triplet [H S% L%] of a colour. *)
Definition hsl_triplet (col : color culori) : string :=
  let hsl := culori_hsl culori col in
  component_text (hsl_h hsl) +:+ " "
  +:+ component_text (Some (mul_opt (hsl_s hsl) (Fin 100))) +:+ "% "
  +:+ component_text (Some (mul_opt (hsl_l hsl) (Fin 100))) +:+ "%".

(** C1.  For a literal that parses, the version-3 output is the bare
    triplet [H S% L%] and the version-4 output is the same triplet wrapped
    in [hsl(...)]; the triplet has no [hsl(] prefix.  Each component is
    printed by [component_text]: [0] when missing, the integer when
    integral, two decimals otherwise. *)
Theorem colorFormatter_hsl_dialects (c : string) (col : color culori) :
  culori_parse culori c = Some col ->
  colorFormatter culori c "hsl" "3" = hsl_triplet col
  /\ colorFormatter culori c "hsl" "4" = "hsl(" +:+ hsl_triplet col +:+ ")"
  /\ starts_with "hsl(" (colorFormatter culori c "hsl" "3") = false.
Proof.
  intros Hparse.
  assert (H3 : colorFormatter culori c "hsl" "3" = hsl_triplet col).
  { unfold colorFormatter, colorFormatter_try, hsl_triplet. rewrite Hparse.
    rewrite !formatNumber_component_text. reflexivity. }
  split; [exact H3 | split].
  - unfold colorFormatter, colorFormatter_try, hsl_triplet. rewrite Hparse.
    rewrite !formatNumber_component_text, !append_assoc. reflexivity.
  - rewrite H3. apply safe_head_no_prefix. unfold hsl_triplet.
    apply safe_head_app; [|reflexivity].
    rewrite <- formatNumber_component_text. apply safe_head_formatNumber.
Qed.

(** C8.  A literal that does not parse comes back unchanged, whatever
    the target format and the style version: the [try] block throws and
    the handler returns the input. *)
Theorem colorFormatter_unparseable (c format tailwindVersion : string) :
  culori_parse culori c = None ->
  colorFormatter_try culori c format tailwindVersion = Throw "Invalid color input"
  /\ colorFormatter culori c format tailwindVersion = c.
Proof.
  intros Hparse. unfold colorFormatter, colorFormatter_try.
  rewrite Hparse. split; reflexivity.
Qed.

End ColorConverterProperties.

(** The red of the specification, through the sample colour library. *)
Example colorFormatter_red :
  colorFormatter sampleCulori "#ff0000" "hsl" "3" = "0 100% 50%"
  /\ colorFormatter sampleCulori "#ff0000" "hsl" "4" = "hsl(0 100% 50%)".
Proof. split; vm_compute; reflexivity. Qed.

Lemma colorFormatter_hsl_dialects_witness :
  colorFormatter sampleCulori "#ff0000" "hsl" "3" = hsl_triplet sampleCulori (255, 0, 0)%N
  /\ colorFormatter sampleCulori "#ff0000" "hsl" "4"
     = "hsl(" +:+ hsl_triplet sampleCulori (255, 0, 0)%N +:+ ")"
  /\ starts_with "hsl(" (colorFormatter sampleCulori "#ff0000" "hsl" "3") = false.
Proof.
  apply (colorFormatter_hsl_dialects sampleCulori "#ff0000" (255, 0, 0)%N).
  reflexivity.
Defined.

Lemma colorFormatter_unparseable_witness :
  colorFormatter_try sampleCulori "not a colour" "oklch" "4"
    = Throw "Invalid color input"
  /\ colorFormatter sampleCulori "not a colour" "oklch" "4" = "not a colour".
Proof.
  apply (colorFormatter_unparseable sampleCulori "not a colour" "oklch" "4").
  reflexivity.
Defined.

(** ** Objects *)

Lemma lookup_spread {V : Type} (a b : gmap string V) (k : string) :
  spread a b !! k = match b !! k with Some v => Some v | None => a !! k end.
Proof.
  unfold spread. destruct (b !! k) as [v|] eqn:Hb.
  - now apply lookup_union_Some_l.
  - now rewrite lookup_union_r.
Qed.

Lemma dom_spread {V : Type} (a b : gmap string V) :
  dom (spread a b) = dom a ∪ dom b.
Proof. unfold spread. rewrite dom_union_L. apply (comm_L (∪)). Qed.

(** ** utils/theme-presets.ts *)

(** Every token a preset of the catalog sets is a token of the defaults. *)
Lemma presets_within_defaults :
  map_Forall (fun _ p =>
    dom (default ∅ (preset_light p)) ⊆ dom defaultLightThemeStyles
    /\ dom (default ∅ (preset_dark p)) ⊆ dom defaultDarkThemeStyles) presets.
Proof. apply (bool_decide_unpack _). vm_compute. exact I. Qed.

Lemma default_not_in_catalog : presets !! "default" = None.
Proof. vm_compute. reflexivity. Qed.

(** The styles of a catalog entry over the defaults, and the defaults for
    a name the catalog lacks: what [getPresetThemeStyles] returns, where it
    returns. *)
Definition catalogStyles (name : string) : ThemeStyles :=
  let defaultTheme := defaultStyles in
  if String.eqb name "default" then defaultTheme
  else
    match presets !! name with
    | None => defaultTheme
    | Some preset =>
        {| light := spread (light defaultTheme) (default ∅ (preset_light preset));
           dark := spread (dark defaultTheme) (default ∅ (preset_dark preset)) |}
    end.

(** The exception of [getPresetThemeStyles]. *)
Definition styles_of_undefined : string :=
  "TypeError: Cannot read properties of undefined (reading 'light')".

Lemma inherited_names_apart :
  Forall (fun name => name <> "default" /\ presets !! name = None)
         objectPrototypeProperties.
Proof.
  repeat constructor; try discriminate; vm_compute; reflexivity.
Qed.

Lemma getPresetThemeStyles_inherited (name : string) :
  name ∈ objectPrototypeProperties ->
  getPresetThemeStyles name = Throw styles_of_undefined.
Proof.
  intros Hin.
  destruct (proj1 (Forall_forall _ _) inherited_names_apart name Hin)
    as [Hname Hcat].
  unfold getPresetThemeStyles, presets_get, includes.
  apply String.eqb_neq in Hname. rewrite Hname, Hcat.
  now rewrite bool_decide_eq_true_2.
Qed.

Lemma getPresetThemeStyles_returns (name : string) :
  name ∉ objectPrototypeProperties ->
  getPresetThemeStyles name = Return (catalogStyles name).
Proof.
  intros Hout. unfold getPresetThemeStyles, catalogStyles, presets_get, includes.
  destruct (String.eqb name "default"); [reflexivity |].
  destruct (presets !! name); [reflexivity |].
  now rewrite bool_decide_eq_false_2.
Qed.

Lemma catalog_names_own (name : string) :
  is_Some (presets !! name) -> name ∉ objectPrototypeProperties.
Proof.
  intros [p Hp] Hin.
  destruct (proj1 (Forall_forall _ _) inherited_names_apart name Hin)
    as [_ Hcat].
  congruence.
Qed.

Lemma getPresetThemeStyles_catalog (name : string) :
  is_Some (presets !! name) ->
  getPresetThemeStyles name = Return (catalogStyles name).
Proof. intros Hp. now apply getPresetThemeStyles_returns, catalog_names_own. Qed.

(** C5.  The names the catalog object inherits from [Object.prototype]
    are absent from the catalog, and [getPresetThemeStyles] does not give
    the default styles for them: for "toString", and for each of the
    others, it throws. *)
Theorem getPresetThemeStyles_inherited_throws :
  presets !! "toString" = None
  /\ getPresetThemeStyles "toString" = Throw styles_of_undefined
  /\ Forall (fun name =>
               presets !! name = None
               /\ getPresetThemeStyles name = Throw styles_of_undefined)
            objectPrototypeProperties.
Proof.
  split; [vm_compute; reflexivity |].
  split; [apply getPresetThemeStyles_inherited; repeat constructor |].
  apply Forall_forall. intros name Hin. split.
  - exact (proj2 (proj1 (Forall_forall _ _) inherited_names_apart name Hin)).
  - now apply getPresetThemeStyles_inherited.
Qed.

(** X27.  For every name that is no property of [Object.prototype],
    [getPresetThemeStyles] returns token sets with the key sets of the
    defaults: the defaults themselves for "default" and for a name outside
    the catalog; and for a catalog name, per mode, the preset's value where
    the preset sets the token and the default value elsewhere. *)
Theorem getPresetThemeStyles_merge (name : string) :
  name ∉ objectPrototypeProperties ->
  exists st,
    getPresetThemeStyles name = Return st
    /\ (dom (light st) = dom defaultLightThemeStyles
        /\ dom (dark st) = dom defaultDarkThemeStyles)
    /\ (name = "default" \/ presets !! name = None -> st = defaultStyles)
    /\ (forall p, presets !! name = Some p ->
        forall k,
          light st !! k
            = match default ∅ (preset_light p) !! k with
              | Some v => Some v
              | None => defaultLightThemeStyles !! k
              end
          /\ dark st !! k
            = match default ∅ (preset_dark p) !! k with
              | Some v => Some v
              | None => defaultDarkThemeStyles !! k
              end).
Proof.
  intros Hout. exists (catalogStyles name).
  split; [now apply getPresetThemeStyles_returns |].
  unfold catalogStyles, defaultStyles.
  destruct (String.eqb_spec name "default") as [->|Hname].
  - rewrite default_not_in_catalog. repeat split; try reflexivity; discriminate.
  - destruct (presets !! name) as [p|] eqn:Hp.
    + pose proof (presets_within_defaults name p Hp) as [Hl Hd].
      cbn [light dark].
      generalize dependent defaultLightThemeStyles.
      generalize dependent defaultDarkThemeStyles.
      intros defaultDark Hd defaultLight Hl.
      split; [split | split].
      * rewrite dom_spread, (comm_L (∪)). now apply subseteq_union_1_L.
      * rewrite dom_spread, (comm_L (∪)). now apply subseteq_union_1_L.
      * intros [?|?]; congruence.
      * intros p' [= <-] k. split; apply lookup_spread.
    + split; [split; reflexivity | split; [reflexivity | discriminate]].
Qed.

Lemma getPresetThemeStyles_merge_witness :
  exists st,
    getPresetThemeStyles "kodama-grove" = Return st
    /\ (dom (light st) = dom defaultLightThemeStyles
        /\ dom (dark st) = dom defaultDarkThemeStyles)
    /\ ("kodama-grove" = "default" \/ presets !! "kodama-grove" = None ->
        st = defaultStyles)
    /\ (forall p, presets !! "kodama-grove" = Some p ->
        forall k,
          light st !! k
            = match default ∅ (preset_light p) !! k with
              | Some v => Some v
              | None => defaultLightThemeStyles !! k
              end
          /\ dark st !! k
            = match default ∅ (preset_dark p) !! k with
              | Some v => Some v
              | None => defaultDarkThemeStyles !! k
              end).
Proof.
  apply (getPresetThemeStyles_merge "kodama-grove").
  apply (bool_decide_unpack _). vm_compute. exact I.
Defined.

(** ** store/editor-store.ts *)

(** The store [applyThemePreset] leaves when it returns. *)
Definition appliedPreset (name : string) (s : EditorStore) : EditorStore :=
  {| themeState :=
       {| preset := Some name;
          styles := catalogStyles name;
          currentMode := currentMode (themeState s) |};
     hasChangedThemeFromDefault :=
       if negb (String.eqb name "default") then true
       else hasChangedThemeFromDefault s |}.

Lemma applyThemePreset_returns (name : string) (s : EditorStore) :
  name ∉ objectPrototypeProperties ->
  applyThemePreset name s = Return (appliedPreset name s).
Proof.
  intros Hout. unfold applyThemePreset.
  now rewrite (getPresetThemeStyles_returns name Hout).
Qed.

Lemma applyThemePreset_throws (name : string) (s : EditorStore) :
  name ∈ objectPrototypeProperties ->
  applyThemePreset name s = Throw styles_of_undefined.
Proof.
  intros Hin. unfold applyThemePreset.
  now rewrite (getPresetThemeStyles_inherited name Hin).
Qed.

Lemma applyThemePreset_inv (name : string) (s s' : EditorStore) :
  applyThemePreset name s = Return s' ->
  (name ∉ objectPrototypeProperties) /\ s' = appliedPreset name s.
Proof.
  intros Hcall.
  destruct (decide (name ∈ objectPrototypeProperties)) as [Hin|Hout].
  - rewrite (applyThemePreset_throws name s Hin) in Hcall. discriminate.
  - rewrite (applyThemePreset_returns name s Hout) in Hcall.
    split; [exact Hout | congruence].
Qed.

(** The amended C2.  [resetToDefault] installs the default styles, keeps
    the current mode and the latch, and leaves the state without a preset
    name: the new state is built from [defaultThemeState], which has
    none. *)
Theorem resetToDefault_clears_preset (prefersDark : bool) (s : EditorStore) :
  styles (themeState (resetToDefault prefersDark s)) = defaultStyles
  /\ currentMode (themeState (resetToDefault prefersDark s))
     = currentMode (themeState s)
  /\ preset (themeState (resetToDefault prefersDark s)) = None
  /\ hasChangedThemeFromDefault (resetToDefault prefersDark s)
     = hasChangedThemeFromDefault s.
Proof. repeat split. Qed.

(** C2 as stated fails: after a preset was applied, [resetToDefault] does
    not keep its name. *)
Lemma resetToDefault_keeps_preset_counterexample :
  exists s,
    applyThemePreset "modern-minimal" (initialStore false) = Return s
    /\ reachable false s
    /\ preset (themeState s) = Some "modern-minimal"
    /\ preset (themeState (resetToDefault false s)) <> preset (themeState s).
Proof.
  assert (Hcall : applyThemePreset "modern-minimal" (initialStore false)
                  = Return (appliedPreset "modern-minimal" (initialStore false))).
  { apply applyThemePreset_returns. apply (bool_decide_unpack _).
    vm_compute. exact I. }
  eexists. split; [exact Hcall |]. repeat split.
  - eapply reachable_step; [apply reachable_initial |].
    exact (step_applyThemePreset false _ _ _ Hcall).
  - discriminate.
Qed.

(** C10.  "toString" is neither "default" nor a key of the catalog, and
    [applyThemePreset] installs nothing for it: the call throws, for this
    name and for every other property of [Object.prototype], whatever the
    store. *)
Theorem applyThemePreset_inherited_throws (s : EditorStore) :
  presets !! "toString" = None
  /\ applyThemePreset "toString" s = Throw styles_of_undefined
  /\ Forall (fun name => applyThemePreset name s = Throw styles_of_undefined)
            objectPrototypeProperties.
Proof.
  split; [vm_compute; reflexivity |].
  split; [apply applyThemePreset_throws; repeat constructor |].
  apply Forall_forall. intros name. apply applyThemePreset_throws.
Qed.

(** X28.  Applying a name that is neither "default", nor in the catalog, nor a
    property of [Object.prototype] installs the default styles under that
    name and still sets the latch: one operation leads to a store whose
    latch is set while its styles equal the defaults. *)
Theorem applyThemePreset_unknown (prefersDark : bool) (name : string) (s : EditorStore) :
  name <> "default" ->
  presets !! name = None ->
  name ∉ objectPrototypeProperties ->
  exists s',
    applyThemePreset name s = Return s'
    /\ store_step prefersDark s s'
    /\ styles (themeState s') = styles (defaultThemeState prefersDark)
    /\ preset (themeState s') = Some name
    /\ hasChangedThemeFromDefault s' = true
    /\ hasDefaultThemeChanged prefersDark s' = false.
Proof.
  intros Hname Hcat Hout.
  assert (Hstyles : catalogStyles name = defaultStyles).
  { unfold catalogStyles. rewrite Hcat.
    now destruct (String.eqb name "default"). }
  pose proof (applyThemePreset_returns name s Hout) as Hcall.
  exists (appliedPreset name s). split; [exact Hcall |].
  unfold appliedPreset in *. rewrite Hstyles in *.
  apply String.eqb_neq in Hname. rewrite Hname in *. cbn [negb] in *.
  repeat split; try exact (step_applyThemePreset prefersDark _ _ _ Hcall).
  all: unfold hasDefaultThemeChanged; cbn [themeState defaultThemeState styles];
    now rewrite bool_decide_eq_true_2.
Qed.

Lemma applyThemePreset_unknown_witness :
  exists s',
    applyThemePreset "nonexistent-xyz" (initialStore false) = Return s'
    /\ store_step false (initialStore false) s'
    /\ styles (themeState s') = styles (defaultThemeState false)
    /\ preset (themeState s') = Some "nonexistent-xyz"
    /\ hasChangedThemeFromDefault s' = true
    /\ hasDefaultThemeChanged false s' = false.
Proof.
  apply (applyThemePreset_unknown false "nonexistent-xyz" (initialStore false)).
  - discriminate.
  - vm_compute. reflexivity.
  - apply (bool_decide_unpack _). vm_compute. exact I.
Defined.

(** ** components/editor/theme-control-panel.tsx *)

(** The mode that is not [mode]. *)
Definition other_mode (mode : Mode) : Mode :=
  match mode with
  | Light => Dark
  | Dark => Light
  end.

(** C3.  An edit of a common token writes the value into both modes; an
    edit of any other token writes it into the active mode only and
    leaves the other mode's token set as it was. *)
Theorem editToken_common_or_active (prefersDark : bool) (key value : string)
    (s : EditorStore) :
  let mode := currentMode (themeState s) in
  let before := styles (themeState s) in
  let after := styles (themeState (editToken prefersDark key value s)) in
  (key ∈ COMMON_STYLES ->
     light after !! key = Some value /\ dark after !! key = Some value)
  /\ (key ∉ COMMON_STYLES ->
     styles_of after mode !! key = Some value
     /\ styles_of after (other_mode mode) = styles_of before (other_mode mode)).
Proof.
  intros mode before after.
  unfold after, editToken, handleStyleChange, setThemeState, updateStyle, includes.
  cbn [themeState styles]. fold mode before. split; intros Hkey.
  - rewrite bool_decide_eq_true_2 by exact Hkey. cbn [light dark].
    split; apply lookup_insert_eq.
  - rewrite bool_decide_eq_false_2 by exact Hkey.
    destruct mode; cbn [with_mode styles_of other_mode light dark];
      (split; [apply lookup_insert_eq | reflexivity]).
Qed.

(** ** utils/shadows.ts *)

(** An object literal of eight entries under the shadow names. *)
Lemma shadow_object (v1 v2 v3 v4 v5 v6 v7 v8 : string) :
  let m := js_object [ ("shadow-2xs", v1); ("shadow-xs", v2); ("shadow-2xl", v3);
                       ("shadow-sm", v4); ("shadow", v5); ("shadow-md", v6);
                       ("shadow-lg", v7); ("shadow-xl", v8) ] in
  size m = 8%nat
  /\ m !! "shadow-2xs" = Some v1 /\ m !! "shadow-xs" = Some v2
  /\ m !! "shadow-2xl" = Some v3 /\ m !! "shadow-sm" = Some v4
  /\ m !! "shadow" = Some v5 /\ m !! "shadow-md" = Some v6
  /\ m !! "shadow-lg" = Some v7 /\ m !! "shadow-xl" = Some v8.
Proof. vm_compute. repeat split. Qed.

Section ShadowProperties.
Context `{Binary64} (culori : Culori) (st : ThemeStyles) (mode : Mode).











End ShadowProperties.

(** ** utils/theme-style-generator.ts *)

Section GeneratorProperties.
Context `{Binary64} (culori : Culori).

(** C6.  [generateThemeCode] throws the malformed-input error when the
    styles lack the "light" key or the "dark" key, and returns a
    stylesheet when both are there. *)
Theorem generateThemeCode_validates (state : ThemeStateInput)
    (colorFormat tailwindVersion : string) :
  (input_styles state !! "light" = None \/ input_styles state !! "dark" = None ->
   generateThemeCode culori (Some state) colorFormat tailwindVersion
   = Throw "Invalid theme styles: missing light or dark mode")
  /\ (is_Some (input_styles state !! "light") ->
      is_Some (input_styles state !! "dark") ->
      exists css,
        generateThemeCode culori (Some state) colorFormat tailwindVersion
        = Return css).
Proof.
  unfold generateThemeCode. split.
  - intros [-> | ->]; [reflexivity |].
    now destruct (input_styles state !! "light").
  - intros [l ->] [d ->]. eexists. reflexivity.
Qed.

(** The malformed state of the specification: [{ styles: { light: {} } }]. *)
Example generateThemeCode_light_only (colorFormat tailwindVersion : string) :
  generateThemeCode culori
    (Some {| input_styles := js_object [("light", ∅)] |})
    colorFormat tailwindVersion
  = Throw "Invalid theme styles: missing light or dark mode".
Proof. reflexivity. Qed.

End GeneratorProperties.

(** ** utils/contrast-checker.ts *)

Section RoundingBounds.
Context `{Binary64}.
Local Open Scope Q_scope.

(** The unit roundoff of binary64. *)
Definition unit_roundoff : Q := 1 # 9007199254740992.

Lemma above_tiny (q : Q) : 1 # 1000 <= q -> 1 # (2 ^ 1022) <= Qabs q.
Proof.
  intros Hq. rewrite Qabs_pos by lra.
  apply Qle_trans with (1 # 1000); [|exact Hq].
  apply Qle_bool_imp_le. vm_compute. reflexivity.
Qed.

Lemma rnd_near (q : Q) :
  1 # 1000 <= q ->
  q * (1 - unit_roundoff) <= rnd q <= q * (1 + unit_roundoff).
Proof.
  intros Hq. pose proof (rnd_error q (above_tiny q Hq)) as Herr.
  rewrite (Qabs_pos q) in Herr by lra.
  apply Qabs_Qle_condition in Herr.
  change (1 # 2 ^ 53) with unit_roundoff in Herr. lra.
Qed.

Lemma fin_small (q : Q) : -(1000) <= rnd q <= 1000 -> fin q = Fin (rnd q).
Proof.
  intros Hq. unfold fin.
  destruct (Qle_bool (inject_Z (2 ^ 1024)) (Qabs (rnd q))) eqn:Hbig; [|reflexivity].
  apply Qle_bool_iff in Hbig. exfalso.
  assert (Hsmall : Qabs (rnd q) <= 1000) by (apply Qabs_Qle_condition; lra).
  assert (Hcmp : 1000 < inject_Z (2 ^ 1024)) by reflexivity.
  lra.
Qed.
End RoundingBounds.

Section ContrastProperties.
Context `{Binary64} (culori : Culori).
Local Open Scope Q_scope.

(** The value of the literal [0.05]. *)
Definition offset : Q := rnd (5 # 100).

Lemma offset_near :
  (1 # 20) * (1 - unit_roundoff) <= offset <= (1 # 20) * (1 + unit_roundoff).
Proof.
  assert (Hq : 1 # 1000 <= 5 # 100) by (apply Qle_bool_imp_le; reflexivity).
  pose proof (rnd_near (5 # 100) Hq) as Hnear. unfold offset.
  unfold unit_roundoff in *. lra.
Qed.

Lemma lit_offset : lit (5 # 100) = Fin offset.
Proof.
  unfold lit, offset. apply fin_small. pose proof offset_near as Hnear.
  unfold offset, unit_roundoff in Hnear. lra.
Qed.

(** A luminance in [[0, 1]] shifted by the literal. *)
Definition shifted (m : Q) : Q := rnd (m + offset).

Lemma shifted_near (m : Q) :
  0 <= m <= 1 ->
  (m + offset) * (1 - unit_roundoff) <= shifted m
  /\ shifted m <= (m + offset) * (1 + unit_roundoff).
Proof.
  intros Hm. pose proof offset_near as Hoff. unfold shifted.
  apply rnd_near. unfold unit_roundoff in Hoff. lra.
Qed.

Lemma shifted_range (m : Q) :
  0 <= m <= 1 -> 49999 # 1000000 <= shifted m <= 105001 # 100000.
Proof.
  intros Hm. pose proof offset_near as Hoff.
  pose proof (shifted_near m Hm) as Hnear.
  unfold unit_roundoff in *. lra.
Qed.

Lemma add_offset (m : Q) :
  0 <= m <= 1 -> add (Fin m) (lit (5 # 100)) = Fin (shifted m).
Proof.
  intros Hm. rewrite lit_offset. cbn [add]. apply fin_small.
  pose proof (shifted_range m Hm) as Hr. unfold shifted in Hr. lra.
Qed.

(** The rounded quotient of two shifted luminances. *)
Definition quotient (M m : Q) : Q := rnd (shifted M / shifted m).

Lemma quotient_range (M m : Q) :
  0 <= m -> m <= M -> M <= 1 ->
  1 <= shifted M / shifted m <= 210001 # 10000
  /\ 1 <= quotient M m <= 21001 # 1000.
Proof.
  intros H0 HmM H1.
  assert (Hm : 0 <= m <= 1) by lra. assert (HM : 0 <= M <= 1) by lra.
  pose proof offset_near as Hoff.
  pose proof (shifted_near m Hm) as [Hb _].
  pose proof (shifted_near M HM) as [_ Ha].
  pose proof (shifted_range m Hm) as Hbr.
  assert (Hmono : shifted m <= shifted M)
    by (apply rnd_mono; lra).
  assert (Hquot : 1 <= shifted M / shifted m <= 210001 # 10000).
  { split.
    - apply Qle_shift_div_l; lra.
    - apply Qle_shift_div_r; [lra |]. unfold unit_roundoff in *. lra. }
  split; [exact Hquot |]. unfold quotient.
  set (x := shifted M / shifted m) in *. split.
  - pose proof (rnd_mono 1 x (proj1 Hquot)) as Hle.
    pose proof (rnd_int 1 ltac:(discriminate)) as Hone.
    change (inject_Z 1) with 1 in Hone. lra.
  - assert (Hx : 1 # 1000 <= x) by lra.
    pose proof (rnd_near x Hx) as Hnear. unfold unit_roundoff in *. lra.
Qed.

Lemma div_shifted (M m : Q) :
  0 <= m -> m <= M -> M <= 1 ->
  div (Fin (shifted M)) (Fin (shifted m)) = Fin (quotient M m).
Proof.
  intros H0 HmM H1. cbn [div].
  assert (Hm : 0 <= m <= 1) by lra.
  pose proof (shifted_range m Hm) as Hbr.
  destruct (Qeq_bool (shifted m) 0) eqn:Hz.
  - apply Qeq_bool_eq in Hz. lra.
  - apply fin_small.
    pose proof (quotient_range M m H0 HmM H1) as [_ Hq].
    unfold quotient in Hq. lra.
Qed.

Lemma quotient_same (m : Q) : 0 <= m <= 1 -> quotient m m == 1.
Proof.
  intros Hm. pose proof (shifted_range m Hm) as Hr. unfold quotient.
  assert (Hone : shifted m / shifted m == 1) by (field; lra).
  rewrite (rnd_proper _ _ Hone).
  exact (rnd_int 1 ltac:(discriminate)).
Qed.

Lemma quotient_extreme (M m : Q) :
  m == 0 -> M == 1 -> 20999 # 1000 <= quotient M m.
Proof.
  intros Hm HM.
  assert (Hm' : 0 <= m <= 1) by lra. assert (HM' : 0 <= M <= 1) by lra.
  pose proof offset_near as Hoff.
  pose proof (shifted_near m Hm') as [_ Hb].
  pose proof (shifted_near M HM') as [Ha _].
  pose proof (shifted_range m Hm') as Hbr.
  assert (Hquot : 209999 # 10000 <= shifted M / shifted m).
  { apply Qle_shift_div_l; [lra |]. unfold unit_roundoff in *. lra. }
  unfold quotient. set (x := shifted M / shifted m) in *.
  assert (Hx : 1 # 1000 <= x) by lra.
  pose proof (rnd_near x Hx) as Hnear. unfold unit_roundoff in *. lra.
Qed.

(** Two-decimal rendering of a moderate, non-negative value. *)
Lemma hundredths_comp (p q : Q) : p == q -> hundredths p = hundredths q.
Proof. intros Hpq. unfold hundredths. now rewrite Hpq. Qed.

Lemma toFixed2_moderate (r : Q) :
  0 <= r <= 1000 -> toFixed2 (Fin r) = fixed2 false (hundredths r).
Proof.
  intros Hr. unfold toFixed2.
  assert (Habs : Qabs r == r) by (apply Qabs_pos; lra).
  destruct (Qle_bool (inject_Z (10 ^ 21)) (Qabs r)) eqn:Hbig.
  - apply Qle_bool_iff in Hbig. rewrite Habs in Hbig.
    assert (Hcmp : 1000 < inject_Z (10 ^ 21)) by reflexivity. lra.
  - assert (Hpos : Qle_bool 0 r = true) by (apply Qle_bool_iff; lra).
    rewrite Hpos. cbn [negb]. f_equal. now apply hundredths_comp.
Qed.

Lemma hundredths_range (r : Q) (lo hi : Z) :
  inject_Z lo <= 100 * r + (1 # 2) ->
  100 * r + (1 # 2) < inject_Z (hi + 1) ->
  (Z.to_N lo <= hundredths r <= Z.to_N hi)%N.
Proof.
  intros Hlo Hhi. unfold hundredths.
  set (x := 100 * r + (1 # 2)) in *.
  assert (H1 : (lo <= Qfloor x)%Z).
  { rewrite <- (Qfloor_Z lo). now apply Qfloor_resp_le. }
  assert (H2 : (Qfloor x < hi + 1)%Z).
  { rewrite Zlt_Qlt. apply Qle_lt_trans with x; [apply Qfloor_le | exact Hhi]. }
  lia.
Qed.

(** The luminance the evaluator works with: the library's for a literal
    that parses, [0] for one that does not. *)
Definition luminance_of (c : string) : number :=
  match culori_parse culori c with
  | Some col => culori_wcagLuminance culori col
  | None => Fin 0
  end.

(** [(max(L1, L2) + 0.05) / (min(L1, L2) + 0.05)] *)
Definition contrast_formula (L1 L2 : number) : number :=
  div (add (Math_max L1 L2) (lit (5 # 100)))
      (add (Math_min L1 L2) (lit (5 # 100))).

Lemma getContrastRatio_formula (c1 c2 : string) :
  getContrastRatio culori c1 c2
  = toFixed2 (contrast_formula (luminance_of c1) (luminance_of c2)).
Proof.
  unfold getContrastRatio, getLuminance, luminance_of, contrast_formula.
  now destruct (culori_parse culori c1), (culori_parse culori c2).
Qed.

(** A library all of whose luminances lie in [[0, 1]].  The sample
    library is one; culori is not, since it reports more than 1 for a
    colour outside the sRGB gamut. *)
Definition luminance_in_unit_interval : Prop :=
  forall col, exists q, culori_wcagLuminance culori col = Fin q /\ 0 <= q <= 1.

Lemma luminance_of_unit (c : string) :
  luminance_in_unit_interval ->
  exists q, luminance_of c = Fin q /\ 0 <= q <= 1.
Proof.
  intros Hlum. unfold luminance_of.
  destruct (culori_parse culori c) as [col|]; [apply Hlum |].
  exists 0. split; [reflexivity | lra].
Qed.

Lemma contrast_formula_value (p q : Q) :
  0 <= p <= 1 -> 0 <= q <= 1 ->
  exists M m, ((M = q /\ m = p) \/ (M = p /\ m = q))
    /\ 0 <= m /\ m <= M /\ M <= 1
    /\ contrast_formula (Fin p) (Fin q) = Fin (quotient M m).
Proof.
  intros Hp Hq. unfold contrast_formula, Math_max, Math_min, leb.
  destruct (Qle_bool p q) eqn:Hle.
  - apply Qle_bool_iff in Hle. exists q, p.
    repeat split; try lra; [now left |].
    rewrite !add_offset by lra. apply div_shifted; lra.
  - assert (Hlt : q <= p).
    { destruct (Qlt_le_dec p q) as [Hlt|Hge]; [|exact Hge].
      apply Qlt_le_weak, Qle_bool_iff in Hlt. congruence. }
    exists p, q.
    repeat split; try lra; [now right |].
    rewrite !add_offset by lra. apply div_shifted; lra.
Qed.

Lemma getLuminance_value (c : string) :
  getLuminance culori c = luminance_of c.
Proof.
  unfold getLuminance, luminance_of. now destruct (culori_parse culori c).
Qed.

Lemma shifted_near_wide (m : Q) :
  0 <= m <= 2 ->
  (m + offset) * (1 - unit_roundoff) <= shifted m
  /\ shifted m <= (m + offset) * (1 + unit_roundoff).
Proof.
  intros Hm. pose proof offset_near as Hoff. unfold shifted.
  apply rnd_near. unfold unit_roundoff in Hoff. lra.
Qed.

Lemma add_offset_wide (m : Q) :
  0 <= m <= 2 -> add (Fin m) (lit (5 # 100)) = Fin (shifted m).
Proof.
  intros Hm. rewrite lit_offset. cbn [add]. apply fin_small.
  pose proof offset_near as Hoff.
  pose proof (shifted_near_wide m Hm) as Hr.
  unfold shifted, unit_roundoff in *. lra.
Qed.

(** C9.  The range fails where the library reports a luminance above 1,
    as culori does for a colour outside the sRGB gamut such as
    [rgb(300 255 255)]: against a colour of luminance 0 the result is a
    two-decimal string above "21.00". *)
Theorem getContrastRatio_above_range (c1 c2 : string) (l z : Q) :
  getLuminance culori c1 = Fin l -> 1001 # 1000 <= l <= 2 ->
  getLuminance culori c2 = Fin z -> z == 0 ->
  exists n, getContrastRatio culori c1 c2 = fixed2 false n /\ (2100 < n)%N.
Proof.
  rewrite !getLuminance_value.
  intros Hl Hrange Hz Hzero. rewrite getContrastRatio_formula, Hl, Hz.
  assert (Hlz : Qle_bool l z = false).
  { destruct (Qle_bool l z) eqn:E; [|reflexivity].
    apply Qle_bool_iff in E. lra. }
  unfold contrast_formula, Math_max, Math_min, leb. rewrite Hlz.
  rewrite (add_offset_wide l), (add_offset_wide z) by lra.
  pose proof offset_near as Hoff.
  pose proof (shifted_near_wide l ltac:(lra)) as [Hl1 Hl2].
  pose proof (shifted_near_wide z ltac:(lra)) as [Hz1 Hz2].
  assert (Hzpos : 49999 # 1000000 <= shifted z <= 50001 # 1000000)
    by (unfold unit_roundoff in *; lra).
  set (x := shifted l / shifted z).
  assert (Hx : 2101 # 100 <= x <= 42).
  { unfold x. split.
    - apply Qle_shift_div_l; [lra |]. unfold unit_roundoff in *. lra.
    - apply Qle_shift_div_r; [lra |]. unfold unit_roundoff in *. lra. }
  pose proof (rnd_near x ltac:(lra)) as Hnear.
  assert (Hr : 21009 # 1000 <= rnd x <= 43)
    by (unfold unit_roundoff in *; lra).
  assert (Hdiv : div (Fin (shifted l)) (Fin (shifted z)) = Fin (rnd x)).
  { cbn [div]. destruct (Qeq_bool (shifted z) 0) eqn:E.
    - apply Qeq_bool_eq in E. lra.
    - apply fin_small. fold x. lra. }
  rewrite Hdiv, toFixed2_moderate by lra.
  exists (hundredths (rnd x)). split; [reflexivity |].
  assert (Hn : (Z.to_N 2101 <= hundredths (rnd x) <= Z.to_N 4300)%N).
  { apply hundredths_range.
    - change (inject_Z 2101) with 2101. lra.
    - change (inject_Z (4300 + 1)) with 4301. lra. }
  lia.
Qed.

(** X29.  The contrast ratio of two colours whose luminances lie in [[0, 1]] is
    the formula printed with two decimals, a value between 1.00 and 21.00:
    "1.00" for equal luminances and "21.00" for the luminances 0 and 1. *)
Theorem getContrastRatio_bounds (c1 c2 : string) (p q : Q) :
  getLuminance culori c1 = Fin p -> 0 <= p <= 1 ->
  getLuminance culori c2 = Fin q -> 0 <= q <= 1 ->
  getContrastRatio culori c1 c2 = toFixed2 (contrast_formula (Fin p) (Fin q))
  /\ (exists n, getContrastRatio culori c1 c2 = fixed2 false n
        /\ (100 <= n <= 2100)%N)
  /\ (p == q -> getContrastRatio culori c1 c2 = "1.00")
  /\ ((p == 0 /\ q == 1) \/ (p == 1 /\ q == 0) ->
      getContrastRatio culori c1 c2 = "21.00").
Proof.
  rewrite !getLuminance_value.
  intros Hl1 Hp Hl2 Hq. rewrite getContrastRatio_formula, Hl1, Hl2.
  destruct (contrast_formula_value p q Hp Hq)
    as (M & m & Hsel & H0 & HmM & H1 & ->).
  pose proof (quotient_range M m H0 HmM H1) as [_ Hr].
  rewrite toFixed2_moderate by lra.
  split; [reflexivity |]. split; [| split].
  - exists (hundredths (quotient M m)). split; [reflexivity |].
    change 100%N with (Z.to_N 100). change 2100%N with (Z.to_N 2100).
    apply hundredths_range.
    + change (inject_Z 100) with 100. lra.
    + change (inject_Z (2100 + 1)) with 2101. lra.
  - intros Hpq.
    assert (Hone : quotient M m == 1).
    { unfold quotient.
      assert (Hsame : shifted M == shifted m).
      { unfold shifted. apply rnd_proper.
        destruct Hsel as [[-> ->]|[-> ->]]; lra. }
      pose proof (shifted_range m ltac:(lra)) as Hpos.
      assert (E : shifted M / shifted m == 1) by (rewrite Hsame; field; lra).
      rewrite (rnd_proper _ _ E). exact (rnd_int 1 ltac:(discriminate)). }
    rewrite (hundredths_comp _ _ Hone). reflexivity.
  - intros Hends.
    assert (Hm : m == 0 /\ M == 1)
      by (destruct Hsel as [[-> ->]|[-> ->]], Hends as [[? ?]|[? ?]]; lra).
    destruct Hm as [Hm HM].
    pose proof (quotient_extreme M m Hm HM) as Hlow.
    assert (Hn : (Z.to_N 2100 <= hundredths (quotient M m) <= Z.to_N 2100)%N).
    { apply hundredths_range.
      - change (inject_Z 2100) with 2100. lra.
      - change (inject_Z (2100 + 1)) with 2101. lra. }
    replace (hundredths (quotient M m)) with 2100%N by lia. reflexivity.
Qed.

End ContrastProperties.

Lemma channel_unit (n : N) : (0 <= channel n <= 1)%Q.
Proof.
  unfold channel, Qle. cbn [Qnum Qden]. lia.
Qed.

Lemma sample_linear_unit (c : Q) :
  (0 <= c <= 1 -> 0 <= sample_linear c <= 1)%Q.
Proof.
  intros Hc. unfold sample_linear. destruct (Qle_bool c (4045 # 100000)).
  - assert (E : (c / (1292 # 100) == c * (100 # 1292))%Q) by (now field).
    rewrite E. lra.
  - set (x := ((c + (55 # 1000)) / (1055 # 1000))%Q).
    assert (E : (x == (c + (55 # 1000)) * (1000 # 1055))%Q)
      by (unfold x; now field).
    assert (Hx : (0 <= x <= 1)%Q) by (rewrite E; lra).
    change (x ^ 2)%Q with (x * x)%Q. nra.
Qed.

Lemma sample_luminance_unit : luminance_in_unit_interval sampleCulori.
Proof.
  intros [[r g] b]. eexists. split; [reflexivity |].
  unfold sample_luminance.
  pose proof (sample_linear_unit _ (channel_unit r)).
  pose proof (sample_linear_unit _ (channel_unit g)).
  pose proof (sample_linear_unit _ (channel_unit b)).
  lra.
Qed.

Lemma getContrastRatio_above_range_witness :
  exists n,
    getContrastRatio (H := exact_arithmetic) wideGamutCulori
      "rgb(300 255 255)" "#000000" = fixed2 false n
    /\ (2100 < n)%N.
Proof.
  eapply (getContrastRatio_above_range (H := exact_arithmetic) wideGamutCulori
            "rgb(300 255 255)" "#000000").
  - vm_compute. reflexivity.
  - split; apply Qle_bool_imp_le; vm_compute; reflexivity.
  - vm_compute. reflexivity.
  - vm_compute. reflexivity.
Defined.

Lemma getContrastRatio_bounds_witness :
  exists p q,
    getLuminance sampleCulori "#000000" = Fin p
    /\ getLuminance sampleCulori "#ffffff" = Fin q
    /\ getContrastRatio (H := exact_arithmetic) sampleCulori "#000000" "#ffffff"
       = toFixed2 (contrast_formula (Fin p) (Fin q))
    /\ (exists n,
          getContrastRatio (H := exact_arithmetic) sampleCulori
            "#000000" "#ffffff" = fixed2 false n
          /\ (100 <= n <= 2100)%N)
    /\ (p == q ->
        getContrastRatio (H := exact_arithmetic) sampleCulori "#000000" "#ffffff"
        = "1.00")%Q
    /\ ((p == 0 /\ q == 1) \/ (p == 1 /\ q == 0) ->
        getContrastRatio (H := exact_arithmetic) sampleCulori "#000000" "#ffffff"
        = "21.00")%Q.
Proof.
  destruct (luminance_of_unit sampleCulori "#000000" sample_luminance_unit)
    as (p & Hp & Hpr).
  destruct (luminance_of_unit sampleCulori "#ffffff" sample_luminance_unit)
    as (q & Hq & Hqr).
  rewrite <- getLuminance_value in Hp, Hq.
  exists p, q. split; [exact Hp |]. split; [exact Hq |].
  exact (getContrastRatio_bounds (H := exact_arithmetic) sampleCulori
           "#000000" "#ffffff" p q Hp Hpr Hq Hqr).
Defined.

(** ** utils/parse-css-input.ts: scanning lemmas *)

Lemma string_length_app (a b : string) :
  String.length (a +:+ b) = (String.length a + String.length b)%nat.
Proof. induction a as [|x a IH]; simpl; [reflexivity | now rewrite IH]. Qed.

Lemma strip_prefix_app (p s : string) : strip_prefix p (p +:+ s) = Some s.
Proof.
  induction p as [|x p IH]; simpl; [now destruct s |].
  now rewrite Ascii.eqb_refl.
Qed.

Lemma strip_prefix_Some (p s r : string) : strip_prefix p s = Some r -> s = p +:+ r.
Proof.
  revert s. induction p as [|x p IH]; intros s; simpl.
  - destruct s; now intros [= ->].
  - destruct s as [|y s]; [discriminate |].
    destruct (Ascii.eqb_spec x y) as [->|]; [|discriminate].
    now intros ->%IH.
Qed.

(** No character of [s] satisfies [p]. *)
Definition free_of (p : ascii -> bool) (s : string) : bool :=
  all_chars (fun c => negb (p c)) s.

Lemma free_of_app p a b : free_of p (a +:+ b) = free_of p a && free_of p b.
Proof. apply all_chars_app. Qed.

Lemma free_of_cons p c s :
  free_of p (String c s) = true -> p c = false /\ free_of p s = true.
Proof.
  unfold free_of, all_chars. cbn [list_ascii_of_string forallb].
  intros [Hc Hs]%andb_prop. now apply negb_true_iff in Hc.
Qed.

Lemma span_until_app (p : ascii -> bool) (a : string) (c : ascii) (b : string) :
  free_of p a = true -> p c = true ->
  span_until p (a +:+ String c b) = (a, String c b).
Proof.
  intros Ha Hc. induction a as [|x a IH]; simpl.
  - now rewrite Hc.
  - apply free_of_cons in Ha as [Hx Ha].
    rewrite Hx, (IH Ha). reflexivity.
Qed.

Lemma span_until_end (p : ascii -> bool) (a : string) :
  free_of p a = true -> span_until p a = (a, "").
Proof.
  intros Ha. induction a as [|x a IH]; simpl; [reflexivity |].
  apply free_of_cons in Ha as [Hx Ha].
  rewrite Hx, (IH Ha). reflexivity.
Qed.

Lemma trim_start_ws (w s : string) :
  all_chars is_ws w = true -> trim_start (w +:+ s) = trim_start s.
Proof.
  intros Hw. induction w as [|x w IH]; simpl; [reflexivity |].
  unfold all_chars in Hw. simpl in Hw. apply andb_prop in Hw as [Hx Hw].
  rewrite Hx. now apply IH.
Qed.

Lemma trim_start_split (s : string) :
  exists w, all_chars is_ws w = true /\ s = w +:+ trim_start s.
Proof.
  induction s as [|x s (w & Hw & Hs)]; simpl.
  - now exists "".
  - destruct (is_ws x) eqn:Hx.
    + exists (String x w). split.
      * unfold all_chars in *. simpl. now rewrite Hx.
      * simpl. now rewrite <- Hs.
    + now exists "".
Qed.

(** The last character of [s] is not white space. *)
Fixpoint ends_solid (s : string) : bool :=
  match s with
  | EmptyString => false
  | String c EmptyString => negb (is_ws c)
  | String _ s' => ends_solid s'
  end.

Lemma ends_solid_app (a b : string) : ends_solid b = true -> ends_solid (a +:+ b) = true.
Proof.
  intros Hb. induction a as [|x a IH]; simpl; [exact Hb |].
  destruct (a +:+ b) eqn:Hab; [discriminate IH | exact IH].
Qed.

Lemma trim_end_solid (s : string) : ends_solid s = true -> trim_end s = s.
Proof.
  induction s as [|x s IH]; simpl; [discriminate |].
  destruct s as [|y s].
  - simpl. now intros ->%negb_true_iff.
  - intros Hs. rewrite (IH Hs). reflexivity.
Qed.

Lemma trim_end_ws (w : string) : all_chars is_ws w = true -> trim_end w = "".
Proof.
  induction w as [|x w IH]; simpl; [reflexivity |].
  unfold all_chars. simpl. intros [Hx Hw]%andb_prop.
  rewrite (IH Hw). now rewrite Hx.
Qed.

Lemma trim_end_app_ws (s w : string) :
  ends_solid s = true -> all_chars is_ws w = true -> trim_end (s +:+ w) = s.
Proof.
  intros Hs Hw. induction s as [|x s IH]; simpl; [discriminate |].
  destruct s as [|y s].
  - simpl in *. rewrite (trim_end_ws w Hw). now apply negb_true_iff in Hs as ->.
  - rewrite (IH Hs). reflexivity.
Qed.

Abbreviation is_open_brace := (Ascii.eqb "{").
Abbreviation is_close_brace := (Ascii.eqb "}").
Abbreviation is_semicolon := (Ascii.eqb ";").
Abbreviation is_colon := (Ascii.eqb ":").

Lemma block_at_found (selector body rest : string) :
  body <> "" -> free_of is_close_brace body = true ->
  block_at selector (selector +:+ " {" +:+ body +:+ "}" +:+ rest) = Some body.
Proof.
  intros Hne Hfree. unfold block_at. rewrite strip_prefix_app.
  change (trim_start (" {" +:+ body +:+ "}" +:+ rest))
    with (String "{" (body +:+ String "}" rest)).
  cbv beta iota.
  rewrite (span_until_app is_close_brace) by (exact Hfree || reflexivity).
  now destruct body.
Qed.

Lemma block_at_shape (selector s body : string) :
  block_at selector s = Some body ->
  exists w r, all_chars is_ws w = true /\ s = selector +:+ w +:+ String "{" r.
Proof.
  unfold block_at. destruct (strip_prefix selector s) as [r0|] eqn:Hs; [|discriminate].
  apply strip_prefix_Some in Hs. destruct (trim_start_split r0) as (w & Hw & Hr0).
  destruct (trim_start r0) as [|c r] eqn:Ht; [discriminate |].
  destruct (Ascii.eqb_spec c "{") as [->|Hc].
  - intros _. exists w, r. split; [exact Hw |]. now rewrite Hs, Hr0.
  - intros Hm. exfalso. revert Hm.
    destruct c as [[] [] [] [] [] [] [] []]; try discriminate. now elim Hc.
Qed.

(** White space cannot cover the two characters [k ] that close a
    selector. *)
Lemma ws_cannot_cover (x w y : string) :
  all_chars is_ws w = true -> x +:+ w = y +:+ "k " ->
  (String.length w <= 1)%nat.
Proof.
  intros Hw. revert y. induction x as [|c x IH]; intros y Heq.
  - simpl in Heq. subst w. exfalso. revert Hw. rewrite all_chars_app.
    intros [_ Hk]%andb_prop. discriminate Hk.
  - destruct y as [|d y].
    + simpl in Heq. injection Heq as _ Heq.
      assert (Hlen : String.length (x +:+ w) = 1%nat) by now rewrite Heq.
      rewrite string_length_app in Hlen. lia.
    + simpl in Heq. injection Heq as _ Heq. now apply (IH y).
Qed.

Lemma block_at_dark_inside (c : ascii) (q body rest : string) :
  free_of is_open_brace (String c q) = true ->
  block_at ".dark" (String c q +:+ ".dark {" +:+ body +:+ rest) = None.
Proof.
  intros Hq. destruct (block_at _ _) as [b|] eqn:Hb; [exfalso | reflexivity].
  apply block_at_shape in Hb as (w & r & Hw & Heq).
  assert (E1 : String c q +:+ ".dark {" +:+ body +:+ rest
               = (String c q +:+ ".dark ") +:+ String "{" (body +:+ rest))
    by (now rewrite append_assoc).
  assert (E2 : ".dark" +:+ w +:+ String "{" r = (".dark" +:+ w) +:+ String "{" r)
    by (now rewrite append_assoc).
  rewrite E1, E2 in Heq.
  apply (f_equal (fun s => fst (span_until is_open_brace s))) in Heq.
  rewrite !(span_until_app is_open_brace) in Heq; try reflexivity.
  - cbn [fst] in Heq.
    assert (Hlen : (String.length w <= 1)%nat).
    { apply (ws_cannot_cover ".dark" w (String c q +:+ ".dar")); [exact Hw |].
      rewrite <- Heq, append_assoc. reflexivity. }
    apply (f_equal String.length) in Heq.
    rewrite !string_length_app in Heq. simpl in Heq. lia.
  - rewrite free_of_app. apply andb_true_intro. split; [reflexivity |].
    apply (all_chars_weaken is_ws); [|exact Hw].
    intros x Hx. destruct x as [[] [] [] [] [] [] [] []]; try reflexivity; discriminate.
  - rewrite free_of_app. apply andb_true_intro. split; [exact Hq | reflexivity].
Qed.

Lemma first_block_dark (q body rest : string) :
  free_of is_open_brace q = true ->
  body <> "" -> free_of is_close_brace body = true ->
  first_block ".dark" (":root {" +:+ q +:+ ".dark {" +:+ body +:+ "}" +:+ rest)
  = Some body.
Proof.
  intros Hq Hne Hfree.
  change (first_block ".dark" (":root {" +:+ q +:+ ".dark {" +:+ body +:+ "}" +:+ rest))
    with (first_block ".dark" (q +:+ ".dark {" +:+ body +:+ "}" +:+ rest)).
  induction q as [|c q IH].
  - change ("" +:+ ".dark {" +:+ body +:+ "}" +:+ rest)
      with (".dark" +:+ " {" +:+ body +:+ "}" +:+ rest).
    destruct (".dark" +:+ " {" +:+ body +:+ "}" +:+ rest) eqn:Hs; [discriminate |].
    cbn [first_block]. rewrite <- Hs. now rewrite block_at_found.
  - change ((String c q) +:+ ".dark {" +:+ body +:+ "}" +:+ rest)
      with (String c (q +:+ ".dark {" +:+ body +:+ "}" +:+ rest)).
    cbn [first_block].
    change (String c (q +:+ ".dark {" +:+ body +:+ "}" +:+ rest))
      with (String c q +:+ ".dark {" +:+ body +:+ ("}" +:+ rest)).
    rewrite block_at_dark_inside by exact Hq.
    apply IH. now apply free_of_cons in Hq as [_ Hq].
Qed.

Lemma first_block_root (body rest : string) :
  body <> "" -> free_of is_close_brace body = true ->
  first_block ":root" (":root {" +:+ body +:+ "}" +:+ rest) = Some body.
Proof.
  intros Hne Hfree.
  change (":root {" +:+ body +:+ "}" +:+ rest)
    with (String ":" ("root {" +:+ body +:+ "}" +:+ rest)).
  cbn [first_block].
  change (String ":" ("root {" +:+ body +:+ "}" +:+ rest))
    with (":root" +:+ " {" +:+ body +:+ "}" +:+ rest).
  now rewrite block_at_found.
Qed.

(** The text of a declaration as the global pattern matches it. *)
Definition matched_text (d : string * string) : string :=
  "--" +:+ d.1 +:+ ": " +:+ d.2.

(** The lines of a variable block. *)
Definition declarations_text (ds : list (string * string)) : string :=
  join (map (fun d => declaration d.1 d.2) ds).

(** A name and a value the pattern reads back whole. *)
Definition scannable (d : string * string) : Prop :=
  d.1 <> "" /\ free_of is_colon d.1 = true /\ free_of is_semicolon d.2 = true.

Lemma Forall_scannable (names : list string) (value : string -> string) :
  forallb (fun n => negb (String.eqb n "") && free_of is_colon n) names = true ->
  (forall n, n ∈ names -> free_of is_semicolon (value n) = true) ->
  Forall scannable (map (fun n => (n, value n)) names).
Proof.
  intros Hnames Hvalues. apply List.Forall_forall. intros d Hd.
  apply in_map_iff in Hd as (n & <- & Hn).
  rewrite forallb_forall in Hnames.
  pose proof (Hnames n Hn) as [Hne Hcolon]%andb_prop.
  repeat split; cbn [fst snd].
  - apply negb_true_iff, String.eqb_neq in Hne. exact Hne.
  - exact Hcolon.
  - apply Hvalues. now apply list_elem_of_In.
Qed.

Lemma declaration_at_matched (d : string * string) (rest : string) :
  scannable d ->
  declaration_at (matched_text d +:+ ";" +:+ rest) = Some (matched_text d).
Proof.
  destruct d as [n v]. intros (Hne & Hn & Hv). unfold matched_text, declaration_at.
  cbn [fst snd] in *. rewrite !append_assoc. rewrite strip_prefix_app.
  change (n +:+ ": " +:+ v +:+ ";" +:+ rest)
    with (n +:+ String ":" (" " +:+ v +:+ ";" +:+ rest)).
  rewrite (span_until_app is_colon) by (exact Hn || reflexivity).
  destruct n as [|c n]; [now elim Hne |].
  change (" " +:+ v +:+ ";" +:+ rest) with ((" " +:+ v) +:+ String ";" rest).
  rewrite (span_until_app is_semicolon); [reflexivity | | reflexivity].
  rewrite free_of_app. now rewrite Hv.
Qed.

Lemma match_declarations_skip (a s : string) :
  match_declarations (String.length a) (a +:+ s) = match_declarations 0 s.
Proof. induction a as [|x a IH]; [reflexivity | exact IH]. Qed.

Lemma match_declarations_matched (d : string * string) (rest : string) :
  scannable d ->
  match_declarations 0 (matched_text d +:+ ";" +:+ rest)
  = matched_text d :: match_declarations 0 rest.
Proof.
  intros Hd. pose proof (declaration_at_matched d rest Hd) as Hat.
  destruct (matched_text d) as [|c m] eqn:Hm; [discriminate |].
  change (String c m +:+ ";" +:+ rest) with (String c (m +:+ ";" +:+ rest)) in *.
  cbn [match_declarations]. rewrite Hat. f_equal.
  replace (String.length (String c m) - 1)%nat with (String.length m)
    by (cbn [String.length]; lia).
  rewrite match_declarations_skip. reflexivity.
Qed.

Lemma match_declarations_line (d : string * string) (rest : string) :
  scannable d ->
  match_declarations 0 (declaration d.1 d.2 +:+ rest)
  = matched_text d :: match_declarations 0 rest.
Proof.
  intros Hd.
  assert (E : declaration d.1 d.2 +:+ rest
              = nl +:+ "  " +:+ matched_text d +:+ ";" +:+ rest).
  { unfold declaration, matched_text. now rewrite !append_assoc. }
  rewrite E.
  change (match_declarations 0 (nl +:+ "  " +:+ matched_text d +:+ ";" +:+ rest))
    with (match_declarations 0 (matched_text d +:+ ";" +:+ rest)).
  now apply match_declarations_matched.
Qed.

Lemma match_declarations_lines (ds : list (string * string)) :
  Forall scannable ds ->
  match_declarations 0 (declarations_text ds) = map matched_text ds.
Proof.
  induction 1 as [|d ds Hd Hds IH]; [reflexivity |].
  change (declarations_text (d :: ds))
    with (declaration d.1 d.2 +:+ declarations_text ds).
  rewrite match_declarations_line by exact Hd. now rewrite IH.
Qed.

Lemma declarations_text_solid (p : string) (ds : list (string * string)) :
  ends_solid (p +:+ ";" +:+ declarations_text ds) = true.
Proof.
  revert p. induction ds as [|d ds IH]; intros p.
  - apply ends_solid_app. reflexivity.
  - change (declarations_text (d :: ds))
      with (declaration d.1 d.2 +:+ declarations_text ds).
    assert (E : p +:+ ";" +:+ declaration d.1 d.2 +:+ declarations_text ds
                = (p +:+ ";" +:+ nl +:+ "  --" +:+ d.1 +:+ ": " +:+ d.2)
                  +:+ ";" +:+ declarations_text ds).
    { unfold declaration. now rewrite !append_assoc. }
    rewrite E. apply IH.
Qed.

(** The content [extractCssBlockContent] returns for a block of lines. *)
Lemma trim_block (d : string * string) (ds : list (string * string)) :
  trim (declarations_text (d :: ds) +:+ nl)
  = matched_text d +:+ ";" +:+ declarations_text ds.
Proof.
  unfold trim.
  assert (E : declarations_text (d :: ds) +:+ nl
              = nl +:+ "  " +:+ (matched_text d +:+ ";" +:+ declarations_text ds)
                +:+ nl).
  { change (declarations_text (d :: ds))
      with (declaration d.1 d.2 +:+ declarations_text ds).
    unfold declaration, matched_text. now rewrite !append_assoc. }
  rewrite E.
  change (trim_start (nl +:+ "  " +:+ (matched_text d +:+ ";"
                                       +:+ declarations_text ds) +:+ nl))
    with ((matched_text d +:+ ";" +:+ declarations_text ds) +:+ nl).
  apply trim_end_app_ws; [|reflexivity].
  unfold matched_text. rewrite !append_assoc.
  rewrite <- (append_assoc "--"), <- (append_assoc _ ": "), <- (append_assoc _ d.2).
  apply declarations_text_solid.
Qed.

Lemma match_declarations_block (d : string * string) (ds : list (string * string)) :
  Forall scannable (d :: ds) ->
  match_declarations 0 (trim (declarations_text (d :: ds) +:+ nl))
  = map matched_text (d :: ds).
Proof.
  intros Hds. rewrite trim_block. inversion Hds as [|? ? Hd Hrest]; subst.
  rewrite match_declarations_matched by exact Hd.
  now rewrite match_declarations_lines.
Qed.

Lemma split_colon_nonempty (s : string) : split_colon s <> [].
Proof.
  induction s as [|c s IH]; simpl; [discriminate |].
  destruct (Ascii.eqb c ":"); [discriminate |].
  now destruct (split_colon s).
Qed.

Lemma split_colon_app (a b : string) :
  free_of is_colon a = true ->
  split_colon (a +:+ ":" +:+ b) = a :: split_colon b.
Proof.
  intros Ha. induction a as [|c a IH]; [reflexivity |].
  apply free_of_cons in Ha as [Hc Ha].
  change (String c a +:+ ":" +:+ b) with (String c (a +:+ ":" +:+ b)).
  cbn [split_colon]. rewrite Ascii.eqb_sym, Hc. now rewrite (IH Ha).
Qed.

Lemma split_colon_free (a : string) :
  free_of is_colon a = true -> split_colon a = [a].
Proof.
  intros Ha. induction a as [|c a IH]; [reflexivity |].
  apply free_of_cons in Ha as [Hc Ha].
  cbn [split_colon]. rewrite Ascii.eqb_sym, Hc. now rewrite (IH Ha).
Qed.

(** The name the importer reads from the text [--n], and the value it
    reads from the text [: v]. *)
Definition name_read (n : string) : string :=
  replace_first VARIABLE_PREFIX "" (trim ("--" +:+ n)).

Definition value_read (v : string) : string :=
  trim (hd "" (split_colon (" " +:+ v))).

Section ImporterSteps.
Context `{Binary64} (culori : Culori).

(** What the importer stores for a name and a value it has read. *)
Definition store_value (validNames : list string) (target : gmap string string)
    (name value : string) : gmap string string :=
  if includes validNames name then
    if includes nonColorVariables name then <[name := value]> target
    else <[name := colorFormatter culori (processColorValue value) "hex" "3"]> target
  else target.

Lemma parseDeclaration_matched (validNames : list string)
    (target : gmap string string) (d : string * string) :
  free_of is_colon d.1 = true ->
  parseDeclaration culori validNames target (matched_text d)
  = store_value validNames target (name_read d.1) (value_read d.2).
Proof.
  destruct d as [n v]. cbn [fst snd]. intros Hn.
  unfold parseDeclaration, matched_text, value_read. cbn [fst snd].
  assert (E : "--" +:+ n +:+ ": " +:+ v = ("--" +:+ n) +:+ ":" +:+ (" " +:+ v))
    by (now rewrite !append_assoc).
  rewrite E, split_colon_app by exact Hn.
  pose proof (split_colon_nonempty (" " +:+ v)) as Hne.
  destruct (split_colon (" " +:+ v)) as [|p ps]; [now elim Hne |].
  reflexivity.
Qed.

(** The importer's loop over the matched declarations. *)
Definition store_all (validNames : list string) (target : gmap string string)
    (ds : list (string * string)) : gmap string string :=
  foldl (fun t d => store_value validNames t (name_read d.1) (value_read d.2))
        target ds.

Lemma foldl_parseDeclaration (validNames : list string)
    (target : gmap string string) (ds : list (string * string)) :
  Forall scannable ds ->
  foldl (parseDeclaration culori validNames) target (map matched_text ds)
  = store_all validNames target ds.
Proof.
  intros Hds. revert target. induction Hds as [|d ds Hd Hds IH]; intros target.
  - reflexivity.
  - cbn [map foldl]. rewrite parseDeclaration_matched by apply Hd.
    now rewrite IH.
Qed.

Lemma store_value_other (validNames : list string) (target : gmap string string)
    (name value k : string) :
  k <> name -> store_value validNames target name value !! k = target !! k.
Proof.
  intros Hk. unfold store_value.
  destruct (includes validNames name); [|reflexivity].
  destruct (includes nonColorVariables name); now rewrite lookup_insert_ne.
Qed.

Lemma store_all_other (validNames : list string) (target : gmap string string)
    (ds : list (string * string)) (k : string) :
  k ∉ map (fun d => name_read d.1) ds ->
  store_all validNames target ds !! k = target !! k.
Proof.
  revert target. induction ds as [|d ds IH]; intros target Hk; [reflexivity |].
  cbn [store_all foldl]. fold (store_all validNames). cbn [map] in Hk.
  apply not_elem_of_cons in Hk as [Hkd Hk].
  change (foldl _ ?t ds) with (store_all validNames t ds).
  rewrite IH by exact Hk. now apply store_value_other.
Qed.

Lemma store_all_color (validNames : list string) (target : gmap string string)
    (ds : list (string * string)) (d : string * string) :
  NoDup (map (fun d => name_read d.1) ds) ->
  d ∈ ds ->
  includes validNames (name_read d.1) = true ->
  includes nonColorVariables (name_read d.1) = false ->
  store_all validNames target ds !! name_read d.1
  = Some (colorFormatter culori (processColorValue (value_read d.2)) "hex" "3").
Proof.
  intros Hnodup Hin Hvalid Hcolor. revert target.
  induction ds as [|e ds IH]; intros target; [now apply elem_of_nil in Hin |].
  cbn [map] in Hnodup. apply NoDup_cons in Hnodup as [Hfresh Hnodup].
  unfold store_all. cbn [foldl].
  change (foldl _ ?t ds) with (store_all validNames t ds).
  apply elem_of_cons in Hin as [<-|Hin].
  - rewrite store_all_other by exact Hfresh.
    unfold store_value. rewrite Hvalid, Hcolor. apply lookup_insert_eq.
  - now apply IH.
Qed.

End ImporterSteps.

(** ** Values that are safe inside a variable block *)

(** The characters that end a declaration or a block. *)
Definition is_delimiter (c : ascii) : bool :=
  Ascii.eqb ";" c || Ascii.eqb "{" c || Ascii.eqb "}" c.

(** [s] has no [;], [{] or [}]. *)
Definition css_safe (s : string) : bool := free_of is_delimiter s.

Lemma css_safe_app (a b : string) : css_safe (a +:+ b) = css_safe a && css_safe b.
Proof. apply free_of_app. Qed.

Lemma css_safe_free (p : ascii -> bool) (s : string) :
  (forall c, p c = true -> is_delimiter c = true) ->
  css_safe s = true -> free_of p s = true.
Proof.
  intros Hp. apply all_chars_weaken. intros c Hc.
  destruct (p c) eqn:Hpc; [|reflexivity]. now rewrite (Hp c Hpc) in Hc.
Qed.

Lemma css_safe_semicolon s : css_safe s = true -> free_of is_semicolon s = true.
Proof. apply css_safe_free. intros c Hc. unfold is_delimiter. now rewrite Hc. Qed.

Lemma css_safe_open s : css_safe s = true -> free_of is_open_brace s = true.
Proof.
  apply css_safe_free. intros c Hc. unfold is_delimiter. rewrite Hc.
  now rewrite orb_true_r.
Qed.

Lemma css_safe_close s : css_safe s = true -> free_of is_close_brace s = true.
Proof.
  apply css_safe_free. intros c Hc. unfold is_delimiter. rewrite Hc.
  now rewrite orb_true_r.
Qed.

Lemma css_safe_js_str (v : option string) :
  (forall s, v = Some s -> css_safe s = true) -> css_safe (js_str v) = true.
Proof. destruct v as [s|]; intros Hv; [now apply Hv | reflexivity]. Qed.

Lemma css_safe_number_chars (s : string) :
  all_chars number_char s = true -> css_safe s = true.
Proof.
  apply all_chars_weaken. intros c Hc.
  destruct (is_delimiter c) eqn:Hd; [|reflexivity].
  unfold is_delimiter in Hd.
  apply orb_prop in Hd as [[Hd|Hd]%orb_prop|Hd];
    apply Ascii.eqb_eq in Hd; subst c; discriminate Hc.
Qed.

Lemma css_safe_digits (n : N) : css_safe (digits n) = true.
Proof.
  apply css_safe_number_chars, (all_chars_weaken is_digit).
  - apply is_digit_number_char.
  - apply digits_are_digits.
Qed.

(** Breaks a goal [css_safe (a +:+ b +:+ ...) = true] into its pieces and
    closes the literal ones. *)
Ltac css_safe_pieces :=
  repeat (rewrite css_safe_app; apply andb_true_intro; split);
  try reflexivity.

Section SafeNumbers.
Context `{Binary64}.

Lemma css_safe_toString (x : number) : css_safe (toString x) = true.
Proof.
  destruct x as [| | |q]; try reflexivity. unfold toString.
  destruct (_ && _).
  - css_safe_pieces; [now destruct (Qle_bool 0 q) | apply css_safe_digits].
  - apply css_safe_number_chars, shortest_chars.
Qed.

Lemma css_safe_toFixed2 (x : number) : css_safe (toFixed2 x) = true.
Proof.
  destruct x as [| | |q]; try reflexivity. unfold toFixed2.
  destruct (Qle_bool _ _); [apply css_safe_toString |]. unfold fixed2, two_digits.
  css_safe_pieces.
  - now destruct (negb _).
  - apply css_safe_digits.
  - destruct (_ <? _)%N; css_safe_pieces; apply css_safe_digits.
Qed.

Lemma css_safe_formatNumber (x : option number) : css_safe (formatNumber x) = true.
Proof.
  unfold formatNumber. destruct x as [n|]; [|reflexivity].
  destruct (falsy _); [reflexivity |].
  destruct (is_integer n); [apply css_safe_toString | apply css_safe_toFixed2].
Qed.

End SafeNumbers.

(** Every value of the default token sets is safe. *)
Lemma default_tokens_safe (mode : Mode) (k v : string) :
  styles_of defaultStyles mode !! k = Some v -> css_safe v = true.
Proof.
  assert (Hall : forall mode,
    map_Forall (fun _ v => css_safe v = true) (styles_of defaultStyles mode)).
  { intros []; apply (bool_decide_unpack _); vm_compute; exact I. }
  apply Hall.
Qed.

(** ** The generated stylesheet as lines *)

Lemma join_app (a b : list string) : join (a ++ b) = join a +:+ join b.
Proof.
  induction a as [|x a IH]; [reflexivity |].
  cbn [app join foldr]. fold (join (a ++ b)). fold (join a).
  now rewrite IH, append_assoc.
Qed.

Lemma declarations_text_app (a b : list (string * string)) :
  declarations_text (a ++ b) = declarations_text a +:+ declarations_text b.
Proof. unfold declarations_text. now rewrite map_app, join_app. Qed.

Lemma colorFormatter_parsed_hex `{Binary64} (culori : Culori)
    (c tailwindVersion : string) (col : color culori) :
  culori_parse culori c = Some col ->
  colorFormatter culori c "hex" tailwindVersion = culori_formatHex culori col.
Proof.
  intros Hparse. unfold colorFormatter, colorFormatter_try.
  rewrite Hparse. reflexivity.
Qed.

Lemma css_safe_colorFormatter_hsl `{Binary64} (culori : Culori) (c : string) :
  css_safe c = true -> css_safe (colorFormatter culori c "hsl" "3") = true.
Proof.
  intros Hc. unfold colorFormatter, colorFormatter_try.
  destruct (culori_parse culori c) as [col|]; [|exact Hc].
  change (css_safe
    (formatNumber (hsl_h (culori_hsl culori col)) +:+ " "
     +:+ formatNumber (Some (mul_opt (hsl_s (culori_hsl culori col)) (Fin 100)))
     +:+ "% "
     +:+ formatNumber (Some (mul_opt (hsl_l (culori_hsl culori col)) (Fin 100)))
     +:+ "%") = true).
  css_safe_pieces; apply css_safe_formatNumber.
Qed.

Section GeneratedBlocks.
Context `{Binary64} (culori : Culori) (st : ThemeStyles).

(** The condition under which a block has a [--tracking-normal] line, and
    the one under which it has a [--spacing] line. *)
Definition has_tracking (mode : Mode) : bool :=
  bool_decide (mode = Light)
  && negb (bool_decide (light st !! "letter-spacing"
                        = defaultLightThemeStyles !! "letter-spacing")).

Definition has_spacing (mode : Mode) : bool :=
  bool_decide (mode = Light)
  && negb (bool_decide (light st !! "spacing"
                        = defaultLightThemeStyles !! "spacing")).

(** The declarations of the block of [mode], in order. *)
Definition block_declarations (mode : Mode) (formatColor : option string -> string)
  : list (string * string) :=
  map (fun k => (k, formatColor (styles_of st mode !! k))) colorVariableNames
  ++ map (fun k => (k, js_str (styles_of st mode !! k)))
         ["font-sans"; "font-serif"; "font-mono"; "radius"]
  ++ map (fun k => (k, js_str (getShadowMap culori st mode !! k)))
         shadowVariableNames
  ++ (if has_tracking mode
      then [("tracking-normal", js_str (light st !! "letter-spacing"))] else [])
  ++ (if has_spacing mode
      then [("spacing", js_str (light st !! "spacing"))] else []).

Definition block_names (tracking spacing : bool) : list string :=
  colorVariableNames
  ++ ["font-sans"; "font-serif"; "font-mono"; "radius"]
  ++ shadowVariableNames
  ++ (if tracking then ["tracking-normal"] else [])
  ++ (if spacing then ["spacing"] else []).

Lemma block_declarations_names (mode : Mode) (formatColor : option string -> string) :
  map fst (block_declarations mode formatColor)
  = block_names (has_tracking mode) (has_spacing mode).
Proof.
  unfold block_declarations, block_names.
  rewrite !map_app, !map_map. cbn [fst].
  rewrite !map_id.
  now destruct (has_tracking mode), (has_spacing mode).
Qed.

Lemma generateThemeVariables_block (mode : Mode)
    (formatColor : option string -> string) :
  generateThemeVariables culori st mode formatColor
  = (match mode with Dark => ".dark" | Light => ":root" end)
    +:+ " {" +:+ (declarations_text (block_declarations mode formatColor) +:+ nl)
    +:+ "}".
Proof.
  unfold generateThemeVariables, block_declarations, generateColorVariables,
    generateFontVariables, generateShadowVariables.
  fold (has_tracking mode). fold (has_spacing mode).
  rewrite !declarations_text_app. unfold declarations_text.
  rewrite !map_map. cbn [fst snd].
  destruct (has_tracking mode), (has_spacing mode);
    cbn [map join foldr]; rewrite ?append_empty_r, !append_assoc; reflexivity.
Qed.

End GeneratedBlocks.

(** ** Hex literals *)

Definition is_hex_digit (c : ascii) : bool :=
  let n := nat_of_ascii c in
  is_digit c || (Nat.leb 97 n && Nat.leb n 102) || (Nat.leb 65 n && Nat.leb n 70).

(** [#] followed by hex digits. *)
Definition hex_literal (s : string) : bool :=
  match s with
  | String "#" r => all_chars is_hex_digit r
  | _ => false
  end.

Lemma hex_digit_plain (c : ascii) :
  is_hex_digit c = true ->
  is_delimiter c = false /\ is_ws c = false /\ Ascii.eqb ":" c = false.
Proof.
  unfold is_hex_digit, is_digit, is_delimiter, is_ws.
  intros Hc. repeat split;
    match goal with
    | |- ?b = false => destruct b eqn:Hb; [exfalso | reflexivity]
    end.
  - apply orb_prop in Hb as [[Hb|Hb]%orb_prop|Hb];
      apply Ascii.eqb_eq in Hb; subst c; discriminate Hc.
  - revert Hb Hc. generalize (nat_of_ascii c). intros n Hb Hc.
    apply orb_prop in Hb as [[Hb|Hb]%orb_prop|Hb];
    repeat match goal with
           | H : _ && _ = true |- _ => apply andb_prop in H as [? ?]
           | H : _ || _ = true |- _ => apply orb_prop in H as [?|?]
           | H : Nat.leb _ _ = true |- _ => apply Nat.leb_le in H
           | H : Nat.eqb _ _ = true |- _ => apply Nat.eqb_eq in H
           end; lia.
  - apply Ascii.eqb_eq in Hb. subst c. discriminate Hc.
Qed.

Lemma ends_solid_hex (a : ascii) (r : string) :
  is_ws a = false -> all_chars is_hex_digit r = true ->
  ends_solid (String a r) = true.
Proof.
  revert a. induction r as [|x r IH]; intros a Ha Hr.
  - cbn [ends_solid]. now rewrite Ha.
  - unfold all_chars in Hr. cbn [list_ascii_of_string forallb] in Hr.
    apply andb_prop in Hr as [Hx Hr].
    change (ends_solid (String a (String x r))) with (ends_solid (String x r)).
    apply IH; [now destruct (hex_digit_plain x Hx) as (_ & -> & _) | exact Hr].
Qed.

Lemma hex_literal_chars (h : string) :
  hex_literal h = true ->
  css_safe h = true /\ free_of is_colon h = true /\ ends_solid h = true.
Proof.
  destruct h as [|c r]; [discriminate |]. unfold hex_literal.
  destruct (Ascii.eqb_spec c "#") as [->|Hc];
    [|destruct c as [[] [] [] [] [] [] [] []]; try discriminate; now elim Hc].
  intros Hr.
  assert (Hs : css_safe r = true).
  { revert Hr. apply all_chars_weaken. intros x Hx.
    now destruct (hex_digit_plain x Hx) as (-> & _ & _). }
  assert (Hcol : free_of is_colon r = true).
  { revert Hr. apply all_chars_weaken. intros x Hx.
    now destruct (hex_digit_plain x Hx) as (_ & _ & ->). }
  repeat split.
  - unfold css_safe, free_of, all_chars in *.
    cbn [list_ascii_of_string forallb]. now rewrite Hs.
  - unfold free_of, all_chars in *.
    cbn [list_ascii_of_string forallb]. now rewrite Hcol.
  - now apply ends_solid_hex.
Qed.

Lemma hex_literal_read (h : string) :
  hex_literal h = true -> processColorValue (value_read h) = h.
Proof.
  intros Hh. destruct (hex_literal_chars h Hh) as (_ & Hcolon & Hsolid).
  unfold value_read.
  assert (Hfree : free_of is_colon (" " +:+ h) = true)
    by (rewrite free_of_app, Hcolon; reflexivity).
  rewrite (split_colon_free _ Hfree). cbn [hd]. unfold trim.
  destruct h as [|c r]; [discriminate |]. unfold hex_literal in Hh.
  destruct (Ascii.eqb_spec c "#") as [->|Hc];
    [|destruct c as [[] [] [] [] [] [] [] []]; try discriminate; now elim Hc].
  change (trim_start (" " +:+ String "#" r)) with (String "#" r).
  rewrite (trim_end_solid _ Hsolid). reflexivity.
Qed.

(** ** The generated names *)

(** A name the importer reads back unchanged: not empty, free of colons and
    of block delimiters, and untouched by [trim] and by the removal of the
    [--] prefix. *)
Definition plain_name (n : string) : bool :=
  negb (n =? "")%string && free_of is_colon n && css_safe n
  && (name_read n =? n)%string.

Lemma plain_name_spec (n : string) :
  plain_name n = true ->
  n <> "" /\ free_of is_colon n = true /\ css_safe n = true /\ name_read n = n.
Proof.
  unfold plain_name. intros [[[Hn Hc]%andb_prop Hs]%andb_prop Hr]%andb_prop.
  repeat split; try assumption.
  - intros ->. discriminate Hn.
  - now apply String.eqb_eq.
Qed.

Lemma block_names_plain (tracking spacing : bool) (n : string) :
  In n (block_names tracking spacing) -> plain_name n = true.
Proof.
  assert (Hall : forallb plain_name (block_names tracking spacing) = true)
    by (destruct tracking, spacing; vm_compute; reflexivity).
  rewrite forallb_forall in Hall. apply Hall.
Qed.

Lemma block_names_NoDup (tracking spacing : bool) :
  NoDup (map name_read (block_names tracking spacing)).
Proof.
  assert (Hid : map name_read (block_names tracking spacing)
                = block_names tracking spacing).
  { rewrite <- (map_id (block_names tracking spacing)) at 2.
    apply map_ext_in. intros n Hn.
    now destruct (plain_name_spec n (block_names_plain _ _ n Hn)) as (_ & _ & _ & ->). }
  rewrite Hid.
  destruct tracking, spacing; apply (bool_decide_unpack _); vm_compute; exact I.
Qed.

Lemma color_names_valid (k : string) :
  k ∈ colorVariableNames ->
  includes variableNames k = true /\ includes nonColorVariables k = false.
Proof.
  assert (Hall : forallb (fun k => includes variableNames k
                                   && negb (includes nonColorVariables k))
                         colorVariableNames = true)
    by (vm_compute; reflexivity).
  rewrite forallb_forall in Hall.
  intros Hk%list_elem_of_In. apply Hall in Hk.
  apply andb_prop in Hk as [Hv Hn]. split; [exact Hv | now apply negb_true_iff].
Qed.

Lemma free_of_declaration (p : ascii -> bool) (n v : string) :
  free_of p (declaration "" "") = true ->
  free_of p n = true -> free_of p v = true ->
  free_of p (declaration n v) = true.
Proof.
  unfold declaration. rewrite !free_of_app. intros Hlit -> ->. exact Hlit.
Qed.

Lemma free_of_declarations_text (p : ascii -> bool) (ds : list (string * string)) :
  free_of p (declaration "" "") = true ->
  (forall d, In d ds -> free_of p d.1 = true /\ free_of p d.2 = true) ->
  free_of p (declarations_text ds) = true.
Proof.
  intros Hlit. unfold declarations_text.
  induction ds as [|d ds IH]; intros Hds; [reflexivity |].
  cbn [map join foldr]. rewrite free_of_app.
  destruct (Hds d (or_introl eq_refl)) as [Hn Hv].
  rewrite (free_of_declaration p _ _ Hlit Hn Hv).
  apply IH. intros d' Hd'. apply Hds. now right.
Qed.

Lemma input_of_styles_lookup (st : ThemeStyles) :
  input_styles (input_of_styles st) !! "light" = Some (light st)
  /\ input_styles (input_of_styles st) !! "dark" = Some (dark st).
Proof.
  unfold input_of_styles, js_object. cbn [input_styles foldl fst snd]. split.
  - rewrite lookup_insert_ne by discriminate. apply lookup_insert_eq.
  - apply lookup_insert_eq.
Qed.

Lemma ThemeStyles_eta (st : ThemeStyles) :
  {| light := light st; dark := dark st |} = st.
Proof. now destruct st. Qed.

Lemma stylesheet_shape (lightBlock darkBlock rest : string) :
  let css := (":root" +:+ " {" +:+ lightBlock +:+ "}") +:+ nl +:+ nl
             +:+ (".dark" +:+ " {" +:+ darkBlock +:+ "}") +:+ rest in
  css = ":root {" +:+ lightBlock +:+ "}"
        +:+ (nl +:+ nl +:+ ".dark {" +:+ darkBlock +:+ "}" +:+ rest)
  /\ css = ":root {" +:+ (lightBlock +:+ "}" +:+ nl +:+ nl)
           +:+ ".dark {" +:+ darkBlock +:+ "}" +:+ rest.
Proof.
  cbv zeta. rewrite !append_assoc. split; reflexivity.
Qed.

(** culori prints a colour as a hex literal that it reads back as a colour
    printed the same way. *)
Definition formatHex_stable (culori : Culori) : Prop :=
  forall col : color culori,
    hex_literal (culori_formatHex culori col) = true
    /\ exists col', culori_parse culori (culori_formatHex culori col) = Some col'
                    /\ culori_formatHex culori col'
                       = culori_formatHex culori col.

Section RoundTrip.
Context `{Binary64} (culori : Culori) (st : ThemeStyles) (tailwindVersion : string).

Hypothesis Hhex : formatHex_stable culori.
Hypothesis Hcolors : forall mode k, k ∈ colorVariableNames ->
  exists v col, styles_of st mode !! k = Some v /\ culori_parse culori v = Some col.
Hypothesis Hsafe : forall mode k v,
  styles_of st mode !! k = Some v -> css_safe v = true.

Local Abbreviation formatColor :=
  (fun c : option string => colorFormatter_opt culori c "hex" tailwindVersion).

Lemma token_safe (mode : Mode) (k : string) :
  css_safe (js_str (styles_of st mode !! k)) = true.
Proof. apply css_safe_js_str. intros s. apply Hsafe. Qed.

Lemma merged_token_safe (mode : Mode) (k s : string) :
  spread (styles_of defaultStyles mode) (styles_of st mode) !! k = Some s ->
  css_safe s = true.
Proof.
  rewrite lookup_spread. destruct (styles_of st mode !! k) as [v|] eqn:Hv.
  - intros [= <-]. exact (Hsafe _ _ _ Hv).
  - apply default_tokens_safe.
Qed.

Lemma shadow_safe (mode : Mode) (name : string) :
  In name shadowVariableNames ->
  css_safe (js_str (getShadowMap culori st mode !! name)) = true.
Proof.
  intros Hname. unfold getShadowMap. cbv zeta.
  set (styles := spread _ _).
  assert (Htoken : forall k, css_safe (js_str (styles !! k)) = true).
  { intros k. apply css_safe_js_str. intros s. apply merged_token_safe. }
  assert (Hhsl : css_safe (colorFormatter_opt culori (styles !! "shadow-color")
                                              "hsl" "3") = true).
  { destruct (styles !! "shadow-color") as [c|] eqn:Hc; [|reflexivity].
    apply css_safe_colorFormatter_hsl. exact (merged_token_safe _ _ _ Hc). }
  match goal with
  | |- context [js_object [(_, ?v1); (_, ?v2); (_, ?v3); (_, ?v4); (_, ?v5);
                           (_, ?v6); (_, ?v7); (_, ?v8)]] =>
      destruct (shadow_object v1 v2 v3 v4 v5 v6 v7 v8)
        as (_ & E1 & E2 & E3 & E4 & E5 & E6 & E7 & E8)
  end.
  unfold shadowVariableNames in Hname. cbn [In] in Hname.
  repeat (destruct Hname as [<-|Hname]); try contradiction;
    rewrite ?E1, ?E2, ?E3, ?E4, ?E5, ?E6, ?E7, ?E8; unfold js_str at 1; cbn [default from_option id];
    css_safe_pieces;
    first [ apply Htoken | exact Hhsl | apply css_safe_toFixed2
          | apply css_safe_toString ].
Qed.

Lemma color_value (mode : Mode) (k : string) :
  k ∈ colorVariableNames ->
  exists col, formatColor (styles_of st mode !! k) = culori_formatHex culori col.
Proof.
  intros Hk. destruct (Hcolors mode k Hk) as (v & col & -> & Hcol).
  exists col. now apply colorFormatter_parsed_hex.
Qed.

Lemma block_values_safe (mode : Mode) (d : string * string) :
  In d (block_declarations culori st mode formatColor) -> css_safe d.2 = true.
Proof.
  unfold block_declarations. rewrite !in_app_iff, !in_map_iff.
  intros [(k & <- & Hk)|[(k & <- & Hk)|[(k & <- & Hk)|[Ht|Hs]]]]; cbn [snd].
  - destruct (color_value mode k (proj2 (list_elem_of_In _ _) Hk)) as [col ->].
    now destruct (hex_literal_chars _ (proj1 (Hhex col))) as (-> & _).
  - apply token_safe.
  - now apply shadow_safe.
  - destruct (has_tracking st mode); [|contradiction].
    destruct Ht as [<-|[]]. apply (token_safe Light).
  - destruct (has_spacing st mode); [|contradiction].
    destruct Hs as [<-|[]]. apply (token_safe Light).
Qed.

Lemma block_names_of (mode : Mode) (d : string * string) :
  In d (block_declarations culori st mode formatColor) -> plain_name d.1 = true.
Proof.
  intros Hd. apply (block_names_plain (has_tracking st mode) (has_spacing st mode)).
  rewrite <- (block_declarations_names culori st mode formatColor).
  now apply in_map.
Qed.

Lemma block_scannable (mode : Mode) :
  Forall scannable (block_declarations culori st mode formatColor).
Proof.
  apply List.Forall_forall. intros d Hd.
  destruct (plain_name_spec _ (block_names_of mode d Hd)) as (Hn & Hc & _ & _).
  repeat split; try assumption.
  apply css_safe_semicolon, (block_values_safe mode d Hd).
Qed.

Lemma block_free (p : ascii -> bool) (mode : Mode) :
  free_of p (declaration "" "") = true ->
  (forall c, p c = true -> is_delimiter c = true) ->
  free_of p (declarations_text (block_declarations culori st mode formatColor)
             +:+ nl) = true.
Proof.
  intros Hlit Hp. rewrite free_of_app. apply andb_true_intro. split.
  - apply free_of_declarations_text; [exact Hlit |]. intros d Hd. split.
    + apply css_safe_free; [exact Hp |].
      now destruct (plain_name_spec _ (block_names_of mode d Hd)) as (_ & _ & -> & _).
    + apply css_safe_free; [exact Hp |]. exact (block_values_safe mode d Hd).
  - unfold declaration in Hlit. rewrite !free_of_app in Hlit.
    now apply andb_prop in Hlit as [-> _].
Qed.

Lemma block_first (mode : Mode) :
  exists d ds, block_declarations culori st mode formatColor = d :: ds.
Proof. eexists _, _. reflexivity. Qed.

Lemma block_content (mode : Mode) :
  let body := declarations_text (block_declarations culori st mode formatColor)
              +:+ nl in
  body <> "" /\ (trim body =? "")%string = false.
Proof.
  cbv zeta. destruct (block_first mode) as (d & ds & ->). split.
  - unfold declarations_text. cbn [map join foldr]. unfold declaration.
    discriminate.
  - rewrite trim_block. reflexivity.
Qed.

(** What the importer stores for a colour token when it reads the
    declarations of a generated block. *)
Lemma parse_block (mode : Mode) (k : string) :
  k ∈ colorVariableNames ->
  parseColorVariables culori
    (trim (declarations_text (block_declarations culori st mode formatColor)
           +:+ nl)) ∅ variableNames !! k
  = Some (formatColor (styles_of st mode !! k)).
Proof.
  intros Hk. unfold parseColorVariables. cbv zeta.
  pose proof (block_scannable mode) as Hscan.
  pose proof (block_names_NoDup (has_tracking st mode) (has_spacing st mode)) as Hnd.
  rewrite <- (block_declarations_names culori st mode formatColor) in Hnd.
  rewrite map_map in Hnd.
  assert (Hin : (k, formatColor (styles_of st mode !! k))
                ∈ block_declarations culori st mode formatColor).
  { apply list_elem_of_In. unfold block_declarations. apply in_app_iff. left.
    apply in_map_iff. exists k. split; [reflexivity | now apply list_elem_of_In]. }
  destruct (block_first mode) as (d & ds & Hblock).
  rewrite Hblock in *.
  rewrite (match_declarations_block d ds Hscan).
  rewrite (foldl_parseDeclaration culori variableNames ∅ (d :: ds) Hscan).
  destruct (color_names_valid k Hk) as [Hvalid Hcolor].
  assert (Hread : name_read k = k).
  { rewrite <- Hblock in Hin. apply list_elem_of_In in Hin.
    now destruct (plain_name_spec _ (block_names_of mode _ Hin)) as (_ & _ & _ & ?). }
  pose proof (store_all_color culori variableNames ∅ (d :: ds) _ Hnd Hin) as Hstore.
  cbn [fst snd] in Hstore. rewrite Hread in Hstore.
  rewrite (Hstore Hvalid Hcolor). f_equal.
  destruct (color_value mode k Hk) as [col ->].
  destruct (Hhex col) as (Hlit & col' & Hparse & Hsame).
  rewrite (hex_literal_read _ Hlit).
  rewrite (colorFormatter_parsed_hex culori _ "3" col' Hparse). exact Hsame.
Qed.

End RoundTrip.

(** ** The sample colour library prints stable hex literals *)

Lemma hex_digit_value (d : N) :
  (d < 16)%N ->
  hex_value (hex_digit d) = Some d /\ is_hex_digit (hex_digit d) = true.
Proof.
  intros Hd. rewrite <- (N2Nat.id d).
  assert (Hn : (N.to_nat d < 16)%nat) by lia.
  clear Hd. revert Hn. generalize (N.to_nat d). intros n Hn.
  do 16 (destruct n as [|n]; [split; reflexivity |]). lia.
Qed.

Lemma hex_byte_stable (n : N) :
  hex_byte ((n / 16 mod 16) * 16 + n mod 16) = hex_byte n.
Proof.
  unfold hex_byte.
  assert (Ha : (n / 16 mod 16 < 16)%N) by (apply N.mod_lt; discriminate).
  assert (Hb : (n mod 16 < 16)%N) by (apply N.mod_lt; discriminate).
  generalize dependent (n / 16 mod 16)%N. generalize dependent (n mod 16)%N.
  intros b Hb a Ha.
  assert (Hq : ((a * 16 + b) / 16 = a)%N)
    by (symmetry; apply (N.div_unique _ 16 a b); lia).
  assert (Hr : ((a * 16 + b) mod 16 = b)%N)
    by (symmetry; apply (N.mod_unique _ 16 a b); lia).
  rewrite Hq, Hr, (N.mod_small a 16 Ha). reflexivity.
Qed.

Lemma sample_formatHex_stable : formatHex_stable sampleCulori.
Proof.
  intros [[r g] b].
  change (culori_formatHex sampleCulori (r, g, b))
    with (String "#" (hex_byte r +:+ hex_byte g +:+ hex_byte b)).
  change (culori_parse sampleCulori) with sample_parse.
  assert (Hdigit : forall n, (n mod 16 < 16)%N)
    by (intros n; apply N.mod_lt; discriminate).
  destruct (hex_digit_value _ (Hdigit (r / 16)%N)) as [Vr1 Hr1].
  destruct (hex_digit_value _ (Hdigit r)) as [Vr2 Hr2].
  destruct (hex_digit_value _ (Hdigit (g / 16)%N)) as [Vg1 Hg1].
  destruct (hex_digit_value _ (Hdigit g)) as [Vg2 Hg2].
  destruct (hex_digit_value _ (Hdigit (b / 16)%N)) as [Vb1 Hb1].
  destruct (hex_digit_value _ (Hdigit b)) as [Vb2 Hb2].
  split.
  - unfold hex_literal, hex_byte, all_chars.
    cbn [String.append list_ascii_of_string forallb].
    now rewrite Hr1, Hr2, Hg1, Hg2, Hb1, Hb2.
  - exists ((r / 16 mod 16) * 16 + r mod 16,
            (g / 16 mod 16) * 16 + g mod 16,
            (b / 16 mod 16) * 16 + b mod 16)%N.
    split.
    + unfold hex_byte at 1 2 3. cbn [String.append sample_parse].
      now rewrite Vr1, Vr2, Vg1, Vg2, Vb1, Vb2.
    + change (culori_formatHex sampleCulori ?c) with (sample_formatHex c).
      unfold sample_formatHex. now rewrite !hex_byte_stable.
Qed.

(** ** Import round-trip *)

(** C7 (amended).  Take a theme state in which, in both modes, every colour
    token holds a value culori parses and no token value contains [;], [{]
    or [}], and a culori whose hex output is a hex literal that it reads
    back as a colour printed the same way.  Then the generator with
    [colorFormat = "hex"] returns a stylesheet, and the importer applied to
    that stylesheet stores, for every colour token, the hex value the
    generator printed for it: in the light partial result for the [:root]
    block and in the dark partial result for the [.dark] block. *)
Theorem parseCssInput_reads_generated_hex `{Binary64} (culori : Culori)
    (st : ThemeStyles) (tailwindVersion : string) :
  formatHex_stable culori ->
  (forall mode k, k ∈ colorVariableNames ->
     exists v col, styles_of st mode !! k = Some v
                   /\ culori_parse culori v = Some col) ->
  (forall mode k v, styles_of st mode !! k = Some v -> css_safe v = true) ->
  exists css,
    generateThemeCode culori (Some (input_of_styles st)) "hex" tailwindVersion
    = Return css
    /\ forall k, k ∈ colorVariableNames ->
         (parseCssInput culori css).1 !! k
         = Some (colorFormatter_opt culori (light st !! k) "hex" tailwindVersion)
         /\ (parseCssInput culori css).2 !! k
            = Some (colorFormatter_opt culori (dark st !! k) "hex" tailwindVersion).
Proof.
  intros Hhex Hcolors Hsafe. unfold generateThemeCode.
  destruct (input_of_styles_lookup st) as [-> ->]. cbv zeta.
  rewrite ThemeStyles_eta, !generateThemeVariables_block.
  eexists. split; [reflexivity |]. intros k Hk.
  match goal with
  | |- context [(_ +:+ _ +:+ ?l +:+ _) +:+ nl +:+ nl
                +:+ (_ +:+ _ +:+ ?d +:+ _) +:+ ?r] =>
      destruct (stylesheet_shape l d r) as [Elight Edark];
      set (lightBlock := l) in *; set (darkBlock := d) in *;
      set (rest := r) in *
  end.
  cbv zeta in Elight, Edark.
  assert (Hopen : forall c, is_open_brace c = true -> is_delimiter c = true)
    by (intros c Hc; unfold is_delimiter; rewrite Hc; now rewrite orb_true_r).
  assert (Hclose : forall c, is_close_brace c = true -> is_delimiter c = true)
    by (intros c Hc; unfold is_delimiter; rewrite Hc; now rewrite orb_true_r).
  pose proof (block_free culori st tailwindVersion Hhex Hcolors Hsafe
                is_close_brace Light eq_refl Hclose) as HlightClose.
  pose proof (block_free culori st tailwindVersion Hhex Hcolors Hsafe
                is_open_brace Light eq_refl Hopen) as HlightOpen.
  pose proof (block_free culori st tailwindVersion Hhex Hcolors Hsafe
                is_close_brace Dark eq_refl Hclose) as HdarkClose.
  destruct (block_content culori st tailwindVersion Light) as [HlightBody HlightTrim].
  destruct (block_content culori st tailwindVersion Dark) as [HdarkBody HdarkTrim].
  unfold parseCssInput. cbv zeta. cbn [fst snd]. unfold extractCssBlockContent.
  split.
  - rewrite Elight, (first_block_root _ _ HlightBody HlightClose).
    cbv beta iota zeta. subst lightBlock. rewrite HlightTrim.
    exact (parse_block culori st tailwindVersion Hhex Hcolors Hsafe Light k Hk).
  - rewrite Edark. rewrite first_block_dark.
    + cbv beta iota zeta. subst darkBlock. rewrite HdarkTrim.
      exact (parse_block culori st tailwindVersion Hhex Hcolors Hsafe Dark k Hk).
    + rewrite free_of_app. subst lightBlock. now rewrite HlightOpen.
    + exact HdarkBody.
    + exact HdarkClose.
Qed.

(** The preset "modern-minimal", read with the sample colour library. *)
Lemma modern_minimal_colors (mode : Mode) (k : string) :
  k ∈ colorVariableNames ->
  exists v col,
    styles_of (catalogStyles "modern-minimal") mode !! k = Some v
    /\ culori_parse sampleCulori v = Some col.
Proof.
  assert (Hall : forallb (fun k =>
      match styles_of (catalogStyles "modern-minimal") mode !! k with
      | Some v => bool_decide (is_Some (sample_parse v))
      | None => false
      end) colorVariableNames = true)
    by (destruct mode; vm_compute; reflexivity).
  rewrite forallb_forall in Hall. intros Hk%list_elem_of_In.
  apply Hall in Hk.
  destruct (styles_of _ mode !! k) as [v|]; [|discriminate].
  apply bool_decide_eq_true_1 in Hk as [col Hcol]. now exists v, col.
Qed.

Lemma modern_minimal_safe (mode : Mode) (k v : string) :
  styles_of (catalogStyles "modern-minimal") mode !! k = Some v ->
  css_safe v = true.
Proof.
  assert (Hall : forall mode,
    map_Forall (fun _ v => css_safe v = true)
               (styles_of (catalogStyles "modern-minimal") mode)).
  { intros []; apply (bool_decide_unpack _); vm_compute; exact I. }
  apply Hall.
Qed.

Lemma parseCssInput_reads_generated_hex_witness :
  exists css,
    generateThemeCode (H := exact_arithmetic) sampleCulori
      (Some (input_of_styles (catalogStyles "modern-minimal"))) "hex" "4"
    = Return css
    /\ forall k, k ∈ colorVariableNames ->
         (parseCssInput (H := exact_arithmetic) sampleCulori css).1 !! k
         = Some (colorFormatter_opt (H := exact_arithmetic) sampleCulori
                   (light (catalogStyles "modern-minimal") !! k) "hex" "4")
         /\ (parseCssInput (H := exact_arithmetic) sampleCulori css).2 !! k
            = Some (colorFormatter_opt (H := exact_arithmetic) sampleCulori
                      (dark (catalogStyles "modern-minimal") !! k) "hex" "4").
Proof.
  apply (parseCssInput_reads_generated_hex sampleCulori).
  - exact sample_formatHex_stable.
  - exact modern_minimal_colors.
  - exact modern_minimal_safe.
Defined.

(** The preset "modern-minimal" with a light sans-serif font stack that
    spells a block of its own. *)
Definition nested_block_styles : ThemeStyles :=
  let st := catalogStyles "modern-minimal" in
  {| light := <["font-sans" := ".dark { }"]> (light st); dark := dark st |}.

(** C7 as stated fails.  Every colour token of [nested_block_styles] is a
    six-digit hex literal in both modes, yet the [.dark] block the importer
    finds is the one inside the light font declaration: its content trims
    to nothing, and the dark partial result holds no colour at all. *)
Lemma parseCssInput_round_trip_counterexample :
  forallb (fun k =>
      bool_decide (is_Some (from_option sample_parse None
                              (light nested_block_styles !! k)))
      && bool_decide (is_Some (from_option sample_parse None
                                 (dark nested_block_styles !! k))))
    colorVariableNames = true
  /\ dark nested_block_styles !! "background" = Some "#171717"
  /\ exists css,
       generateThemeCode (H := exact_arithmetic) sampleCulori
         (Some (input_of_styles nested_block_styles)) "hex" "4" = Return css
       /\ (parseCssInput (H := exact_arithmetic) sampleCulori css).2 = ∅.
Proof.
  split; [vm_compute; reflexivity |]. split; [vm_compute; reflexivity |].
  eexists. split; [vm_compute; reflexivity |].
  vm_compute. reflexivity.
Qed.

(** ** store/editor-store.ts: the operations together *)

(** [preset || "default"] resolves like the preset name itself. *)
Lemma preset_or_default (ts : ThemeEditorState) (p : string) :
  preset ts = Some p ->
  catalogStyles (preset_or_default_name ts) = catalogStyles p
  /\ (p ∉ objectPrototypeProperties ->
      preset_or_default_name ts ∉ objectPrototypeProperties).
Proof.
  intros Hp. unfold preset_or_default_name. rewrite Hp.
  destruct (String.eqb_spec p "") as [->|_]; [| now split].
  split; [reflexivity |]. intros _.
  apply (bool_decide_unpack _). vm_compute. exact I.
Qed.

Lemma catalog_differs_from_defaults :
  map_Forall (fun name _ => catalogStyles name <> defaultStyles) presets.
Proof. apply (bool_decide_unpack _). vm_compute. exact I. Qed.

(** The store [resetToCurrentPreset] leaves when it returns. *)
Definition resetPreset (s : EditorStore) : EditorStore :=
  {| themeState :=
       {| preset := preset (themeState s);
          styles := catalogStyles (preset_or_default_name (themeState s));
          currentMode := currentMode (themeState s) |};
     hasChangedThemeFromDefault := hasChangedThemeFromDefault s |}.

Lemma resetToCurrentPreset_returns (s : EditorStore) :
  preset_or_default_name (themeState s) ∉ objectPrototypeProperties ->
  resetToCurrentPreset s = Return (resetPreset s).
Proof.
  intros Hout. unfold resetToCurrentPreset.
  now rewrite (getPresetThemeStyles_returns _ Hout).
Qed.

Lemma resetToCurrentPreset_inv (s s' : EditorStore) :
  resetToCurrentPreset s = Return s' -> s' = resetPreset s.
Proof.
  intros Hcall.
  destruct (decide (preset_or_default_name (themeState s)
                    ∈ objectPrototypeProperties)) as [Hin|Hout].
  - unfold resetToCurrentPreset in Hcall.
    rewrite (getPresetThemeStyles_inherited _ Hin) in Hcall. discriminate.
  - rewrite (resetToCurrentPreset_returns s Hout) in Hcall. congruence.
Qed.

Lemma hasCurrentPresetChanged_returns (s : EditorStore) :
  preset_or_default_name (themeState s) ∉ objectPrototypeProperties ->
  hasCurrentPresetChanged s
  = Return (negb (bool_decide
                    (styles (themeState s)
                     = catalogStyles (preset_or_default_name (themeState s))))).
Proof.
  intros Hout. unfold hasCurrentPresetChanged.
  now rewrite (getPresetThemeStyles_returns _ Hout).
Qed.

(** X1.  The latch [hasChangedThemeFromDefault] is never cleared: an operation
    of the store keeps it once it is set, and the only operation that
    sets it is [applyThemePreset] with a name other than "default". *)
Theorem latch_never_cleared (prefersDark : bool) (s s' : EditorStore) :
  store_step prefersDark s s' ->
  (hasChangedThemeFromDefault s = true -> hasChangedThemeFromDefault s' = true)
  /\ (hasChangedThemeFromDefault s = false ->
      hasChangedThemeFromDefault s' = true ->
      exists name, name <> "default" /\ applyThemePreset name s = Return s').
Proof.
  intros Hstep.
  inversion Hstep as [state s0|name s0 s1 Hcall|s0|s0 s1 Hcall]; subst.
  - split; cbn [setThemeState hasChangedThemeFromDefault]; congruence.
  - destruct (applyThemePreset_inv name s s' Hcall) as [_ ->]. split.
    + unfold appliedPreset. cbn [hasChangedThemeFromDefault].
      intros ->. now destruct (negb _).
    + intros Hs Hs'. exists name. split; [| exact Hcall].
      intros ->. unfold appliedPreset in Hs'.
      cbn [hasChangedThemeFromDefault] in Hs'.
      change (negb ("default" =? "default")%string) with false in Hs'.
      cbv iota in Hs'. congruence.
  - split; cbn [resetToDefault hasChangedThemeFromDefault]; congruence.
  - rewrite (resetToCurrentPreset_inv s s' Hcall).
    split; cbn [resetPreset hasChangedThemeFromDefault]; congruence.
Qed.

Lemma bubblegum_applied :
  applyThemePreset "bubblegum" (initialStore false)
  = Return (appliedPreset "bubblegum" (initialStore false)).
Proof.
  apply applyThemePreset_returns. apply (bool_decide_unpack _).
  vm_compute. exact I.
Qed.

Lemma latch_never_cleared_witness :
  (hasChangedThemeFromDefault (initialStore false) = true ->
   hasChangedThemeFromDefault (appliedPreset "bubblegum" (initialStore false))
   = true)
  /\ (hasChangedThemeFromDefault (initialStore false) = false ->
      hasChangedThemeFromDefault (appliedPreset "bubblegum" (initialStore false))
      = true ->
      exists name, name <> "default"
        /\ applyThemePreset name (initialStore false)
           = Return (appliedPreset "bubblegum" (initialStore false))).
Proof.
  apply (latch_never_cleared false).
  exact (step_applyThemePreset false _ _ _ bubblegum_applied).
Defined.

(** X2.  Where the name the state carries ([preset || "default"]) is no
    property of [Object.prototype], [resetToCurrentPreset] returns, and
    after it the styles are those of that preset: [hasCurrentPresetChanged]
    answers no (the Reset button is disabled); the preset name, the mode
    and the latch are kept, and a second reset changes nothing.  For the
    other names both calls throw. *)
Theorem resetToCurrentPreset_settles (s : EditorStore) :
  let name := preset_or_default_name (themeState s) in
  (name ∉ objectPrototypeProperties ->
   exists s',
     resetToCurrentPreset s = Return s'
     /\ hasCurrentPresetChanged s' = Return false
     /\ preset (themeState s') = preset (themeState s)
     /\ currentMode (themeState s') = currentMode (themeState s)
     /\ hasChangedThemeFromDefault s' = hasChangedThemeFromDefault s
     /\ resetToCurrentPreset s' = Return s')
  /\ (name ∈ objectPrototypeProperties ->
      resetToCurrentPreset s = Throw styles_of_undefined
      /\ hasCurrentPresetChanged s = Throw styles_of_undefined).
Proof.
  cbv zeta. split.
  - intros Hout. exists (resetPreset s).
    assert (Hname : preset_or_default_name (themeState (resetPreset s))
                    = preset_or_default_name (themeState s)) by reflexivity.
    split; [now apply resetToCurrentPreset_returns |].
    split.
    { rewrite hasCurrentPresetChanged_returns by (now rewrite Hname).
      rewrite Hname. cbn [resetPreset themeState styles].
      now rewrite bool_decide_eq_true_2. }
    do 3 (split; [reflexivity |]).
    rewrite resetToCurrentPreset_returns by (now rewrite Hname).
    unfold resetPreset at 1. now rewrite Hname.
  - intros Hin. unfold resetToCurrentPreset, hasCurrentPresetChanged.
    now rewrite (getPresetThemeStyles_inherited _ Hin).
Qed.

(** X3.  Applying a name that is no property of [Object.prototype] (also the
    empty one and one outside the catalog) returns and leaves nothing to
    reset: [hasCurrentPresetChanged] answers no and [resetToCurrentPreset]
    changes nothing.  The theme state after two applications is the one
    after the second alone. *)
Theorem applyThemePreset_settles (name other : string) (s : EditorStore) :
  name ∉ objectPrototypeProperties ->
  exists s',
    applyThemePreset name s = Return s'
    /\ hasCurrentPresetChanged s' = Return false
    /\ resetToCurrentPreset s' = Return s'
    /\ (forall s1, applyThemePreset other s = Return s1 ->
        exists s2, applyThemePreset name s1 = Return s2
                   /\ themeState s2 = themeState s').
Proof.
  intros Hout. exists (appliedPreset name s).
  split; [now apply applyThemePreset_returns |].
  destruct (preset_or_default (themeState (appliedPreset name s)) name eq_refl)
    as [Hstyles Hname]. specialize (Hname Hout).
  split; [| split].
  - rewrite hasCurrentPresetChanged_returns by exact Hname.
    rewrite Hstyles. cbn [appliedPreset themeState styles].
    now rewrite bool_decide_eq_true_2.
  - rewrite resetToCurrentPreset_returns by exact Hname.
    unfold resetPreset. now rewrite Hstyles.
  - intros s1 Hother. destruct (applyThemePreset_inv other s s1 Hother) as [_ ->].
    exists (appliedPreset name (appliedPreset other s)).
    split; [now apply applyThemePreset_returns | reflexivity].
Qed.

Lemma applyThemePreset_settles_witness :
  exists s',
    applyThemePreset "" (initialStore true) = Return s'
    /\ hasCurrentPresetChanged s' = Return false
    /\ resetToCurrentPreset s' = Return s'
    /\ (forall s1, applyThemePreset "graphite" (initialStore true) = Return s1 ->
        exists s2, applyThemePreset "" s1 = Return s2
                   /\ themeState s2 = themeState s').
Proof.
  apply (applyThemePreset_settles "" "graphite" (initialStore true)).
  apply (bool_decide_unpack _). vm_compute. exact I.
Defined.

(** X4.  After [applyThemePreset] with a name that is no property of
    [Object.prototype], [hasDefaultThemeChanged] answers yes exactly for
    the names of the catalog: every preset of the catalog differs from the
    defaults, and every other such name resolves to the defaults. *)
Theorem applyThemePreset_changes_default (prefersDark : bool) (name : string)
    (s : EditorStore) :
  name ∉ objectPrototypeProperties ->
  exists s',
    applyThemePreset name s = Return s'
    /\ hasDefaultThemeChanged prefersDark s'
       = bool_decide (is_Some (presets !! name)).
Proof.
  intros Hout. exists (appliedPreset name s).
  split; [now apply applyThemePreset_returns |].
  unfold hasDefaultThemeChanged, appliedPreset.
  cbn [themeState styles defaultThemeState].
  destruct (presets !! name) as [p|] eqn:Hp.
  - rewrite (bool_decide_eq_true_2 (is_Some (Some p))) by eauto.
    rewrite bool_decide_eq_false_2; [reflexivity |].
    exact (catalog_differs_from_defaults name p Hp).
  - rewrite (bool_decide_eq_false_2 (is_Some None)) by (intros [? [=]]).
    rewrite bool_decide_eq_true_2; [reflexivity |].
    unfold catalogStyles. rewrite Hp.
    now destruct (String.eqb name "default").
Qed.

Lemma applyThemePreset_changes_default_witness :
  exists s',
    applyThemePreset "perpetuity" (initialStore false) = Return s'
    /\ hasDefaultThemeChanged false s'
       = bool_decide (is_Some (presets !! "perpetuity")).
Proof.
  apply (applyThemePreset_changes_default false "perpetuity" (initialStore false)).
  apply (bool_decide_unpack _). vm_compute. exact I.
Defined.

(** ** components/editor/theme-control-panel.tsx: what an edit leaves alone *)

Definition shadowTokens : list string :=
  [ "shadow-color"; "shadow-opacity"; "shadow-blur"; "shadow-spread";
    "shadow-offset-x"; "shadow-offset-y" ].

(** X5.  An edit of [key] keeps the preset name, the mode and the latch.  For a
    common token it leaves every other token of both modes as it was.  For
    another token it leaves the other tokens of the active mode at the
    value the panel showed for them: the state's value, or the default
    where the state had none. *)
Theorem editToken_frame (prefersDark : bool) (key value other : string)
    (s : EditorStore) :
  other <> key ->
  let mode := currentMode (themeState s) in
  let before := styles (themeState s) in
  let s' := editToken prefersDark key value s in
  let after := styles (themeState s') in
  preset (themeState s') = preset (themeState s)
  /\ currentMode (themeState s') = mode
  /\ hasChangedThemeFromDefault s' = hasChangedThemeFromDefault s
  /\ (key ∈ COMMON_STYLES ->
      light after !! other = light before !! other
      /\ dark after !! other = dark before !! other)
  /\ (key ∉ COMMON_STYLES ->
      styles_of after mode !! other
      = match styles_of before mode !! other with
        | Some v => Some v
        | None => styles_of defaultStyles mode !! other
        end).
Proof.
  intros Hother mode before s' after.
  unfold after, s', editToken, handleStyleChange, setThemeState, updateStyle,
    includes.
  cbn [themeState styles preset currentMode hasChangedThemeFromDefault].
  fold mode before. do 3 (split; [reflexivity |]). split; intros Hkey.
  - rewrite bool_decide_eq_true_2 by exact Hkey. cbn [light dark].
    now rewrite !lookup_insert_ne by congruence.
  - rewrite bool_decide_eq_false_2 by exact Hkey.
    assert (Hread : styles_of (with_mode before mode
                      (<[key:=value]> (currentStyles prefersDark before mode)))
                      mode !! other
                    = currentStyles prefersDark before mode !! other).
    { destruct mode; cbn [with_mode styles_of light dark];
        now rewrite lookup_insert_ne by congruence. }
    rewrite Hread. unfold currentStyles. apply lookup_spread.
Qed.

Lemma editToken_frame_witness :
  let s := initialStore false in
  let s' := editToken false "primary" "#ff0000" s in
  preset (themeState s') = preset (themeState s)
  /\ currentMode (themeState s') = currentMode (themeState s)
  /\ hasChangedThemeFromDefault s' = hasChangedThemeFromDefault s
  /\ ("primary" ∈ COMMON_STYLES ->
      light (styles (themeState s')) !! "ring"
      = light (styles (themeState s)) !! "ring"
      /\ dark (styles (themeState s')) !! "ring"
         = dark (styles (themeState s)) !! "ring")
  /\ ("primary" ∉ COMMON_STYLES ->
      styles_of (styles (themeState s')) (currentMode (themeState s)) !! "ring"
      = match styles_of (styles (themeState s)) (currentMode (themeState s))
              !! "ring" with
        | Some v => Some v
        | None => styles_of defaultStyles (currentMode (themeState s)) !! "ring"
        end).
Proof.
  apply (editToken_frame false "primary" "#ff0000" "ring" (initialStore false)).
  discriminate.
Defined.

(** X6.  An edit of a token that is not one of the six shadow tokens changes
    the shadow map of neither mode. *)
Theorem updateStyle_keeps_shadows `{Binary64} (culori : Culori)
    (prefersDark : bool) (st : ThemeStyles) (mode m : Mode) (key value : string) :
  key ∉ shadowTokens ->
  getShadowMap culori (updateStyle prefersDark st mode key value) m
  = getShadowMap culori st m.
Proof.
  intros Hkey.
  assert (Hsame : forall k, k ∈ shadowTokens ->
    spread (styles_of defaultStyles m)
           (styles_of (updateStyle prefersDark st mode key value) m) !! k
    = spread (styles_of defaultStyles m) (styles_of st m) !! k).
  { intros k Hk. assert (Hne : key <> k) by (intros ->; contradiction).
    rewrite !lookup_spread. unfold updateStyle.
    destruct (includes COMMON_STYLES key).
    - destruct m; cbn [styles_of light dark];
        now rewrite lookup_insert_ne by exact Hne.
    - destruct mode, m; cbn [with_mode styles_of light dark]; try reflexivity;
        rewrite lookup_insert_ne by exact Hne;
        unfold currentStyles; cbn [defaultThemeState styles];
        rewrite lookup_spread; cbn [styles_of];
        repeat case_match; congruence. }
  unfold getShadowMap. cbv zeta.
  rewrite !(Hsame "shadow-color"), !(Hsame "shadow-opacity"),
    !(Hsame "shadow-blur"), !(Hsame "shadow-spread"),
    !(Hsame "shadow-offset-x"), !(Hsame "shadow-offset-y");
    try reflexivity; unfold shadowTokens; set_solver.
Qed.

Lemma updateStyle_keeps_shadows_witness :
  getShadowMap (H := exact_arithmetic) sampleCulori
    (updateStyle false defaultStyles Light "primary" "#ff0000") Dark
  = getShadowMap (H := exact_arithmetic) sampleCulori defaultStyles Dark.
Proof.
  apply (updateStyle_keeps_shadows sampleCulori).
  apply (bool_decide_unpack _). vm_compute. exact I.
Defined.

(** ** utils/parse-css-input.ts: what the importer can return *)

Lemma span_until_inv (p : ascii -> bool) (s a b : string) :
  span_until p s = (a, b) ->
  s = a +:+ b /\ free_of p a = true
  /\ match b with String c _ => p c = true | EmptyString => True end.
Proof.
  revert a b. induction s as [|c s IH]; intros a b; cbn [span_until].
  - intros [= <- <-]. repeat split.
  - destruct (p c) eqn:Hc.
    + intros [= <- <-]. repeat split. exact Hc.
    + destruct (span_until p s) as [run r]. intros [= <- <-].
      destruct (IH run r eq_refl) as (-> & Hrun & Hr). repeat split.
      * unfold free_of, all_chars in *. cbn [list_ascii_of_string forallb].
        now rewrite Hc, Hrun.
      * exact Hr.
Qed.

Lemma block_at_inv (selector s body : string) :
  block_at selector s = Some body ->
  body <> "" /\ free_of is_close_brace body = true
  /\ exists w rest,
       all_chars is_ws w = true
       /\ s = selector +:+ w +:+ "{" +:+ body +:+ "}" +:+ rest.
Proof.
  unfold block_at.
  destruct (strip_prefix selector s) as [r|] eqn:Hr; [|discriminate].
  apply strip_prefix_Some in Hr as ->.
  destruct (trim_start_split r) as (w & Hw & Er).
  destruct (trim_start r) as [|c r'] eqn:Hts; [discriminate |].
  destruct (Ascii.eqb_spec c "{") as [->|Hc];
    [|destruct c as [[] [] [] [] [] [] [] []]; try discriminate; now elim Hc].
  destruct (span_until (Ascii.eqb "}") r') as [a b] eqn:Hspan.
  destruct (span_until_inv _ _ _ _ Hspan) as (-> & Hfree & _).
  destruct a as [|x a]; [discriminate |].
  destruct b as [|y rest]; [discriminate |].
  destruct (Ascii.eqb_spec y "}") as [->|Hy];
    [|destruct y as [[] [] [] [] [] [] [] []]; try discriminate; now elim Hy].
  intros [= <-]. repeat split; [discriminate | exact Hfree |].
  exists w, rest. split; [exact Hw |]. rewrite Er at 1. reflexivity.
Qed.

Lemma first_block_inv (selector s body : string) :
  first_block selector s = Some body ->
  exists pre t, s = pre +:+ t /\ block_at selector t = Some body.
Proof.
  induction s as [|c s IH]; cbn [first_block].
  - destruct (block_at selector "") as [b|] eqn:Hb; [|discriminate].
    intros [= <-]. now exists "", "".
  - destruct (block_at selector (String c s)) as [b|] eqn:Hb.
    + intros [= <-]. now exists "", (String c s).
    + intros Hs. destruct (IH Hs) as (pre & t & -> & Ht).
      now exists (String c pre), t.
Qed.

Lemma trim_end_split (s : string) :
  exists w, all_chars is_ws w = true /\ s = trim_end s +:+ w.
Proof.
  induction s as [|c s (w & Hw & Es)]; [now exists "" |].
  cbn [trim_end]. destruct (trim_end s) as [|x t] eqn:Ht.
  - cbn [String.append] in Es. subst s. destruct (is_ws c) eqn:Hc.
    + exists (String c w). split; [|reflexivity].
      unfold all_chars in *. cbn [list_ascii_of_string forallb].
      now rewrite Hc, Hw.
    + exists w. now split.
  - exists w. split; [exact Hw |]. now rewrite Es at 1.
Qed.

Lemma trim_end_ends_solid (s : string) :
  trim_end s <> "" -> ends_solid (trim_end s) = true.
Proof.
  induction s as [|c s IH]; cbn [trim_end]; [congruence |].
  destruct (trim_end s) as [|x t] eqn:Ht.
  - destruct (is_ws c) eqn:Hc; [congruence |]. intros _.
    cbn [ends_solid]. now rewrite Hc.
  - intros _. change (ends_solid (String c (String x t)))
      with (ends_solid (String x t)). apply IH. discriminate.
Qed.

Lemma trim_start_head (s : string) (c : ascii) (r : string) :
  trim_start s = String c r -> is_ws c = false.
Proof.
  induction s as [|x s IH]; cbn [trim_start]; [discriminate |].
  destruct (is_ws x) eqn:Hx; [exact IH |]. now intros [= <- _].
Qed.

Lemma trim_end_head (c : ascii) (r : string) :
  is_ws c = false -> exists r', trim_end (String c r) = String c r'.
Proof.
  intros Hc. cbn [trim_end]. destruct (trim_end r) as [|x t].
  - rewrite Hc. now exists "".
  - now exists (String x t).
Qed.

Lemma trim_idempotent (s : string) : trim (trim s) = trim s.
Proof.
  unfold trim. destruct (trim_start s) as [|c r] eqn:Hs; [reflexivity |].
  pose proof (trim_start_head _ _ _ Hs) as Hc.
  destruct (trim_end_head c r Hc) as [r' Er].
  assert (Hsolid : ends_solid (trim_end (String c r)) = true)
    by (apply trim_end_ends_solid; rewrite Er; discriminate).
  rewrite Er in *. cbn [trim_start]. rewrite Hc. now apply trim_end_solid.
Qed.

Lemma trim_split (s : string) :
  exists l r, all_chars is_ws l = true /\ all_chars is_ws r = true
              /\ s = l +:+ trim s +:+ r.
Proof.
  destruct (trim_start_split s) as (l & Hl & Es).
  destruct (trim_end_split (trim_start s)) as (r & Hr & Et).
  exists l, r. repeat split; try assumption.
  unfold trim. now rewrite <- Et.
Qed.

(** X7.  A block the importer extracts is what stands between the braces of an
    occurrence of the selector, without the white space around it: it is
    not empty, has no white space at either end and no closing brace. *)
Theorem extractCssBlockContent_sound (input selector content : string) :
  extractCssBlockContent input selector = Some content ->
  content <> "" /\ trim content = content
  /\ free_of is_close_brace content = true
  /\ exists pre w l r post,
       all_chars is_ws (w +:+ l +:+ r) = true
       /\ input = pre +:+ selector +:+ w +:+ "{" +:+ l +:+ content +:+ r
                  +:+ "}" +:+ post.
Proof.
  unfold extractCssBlockContent.
  destruct (first_block selector input) as [body|] eqn:Hblock; [|discriminate].
  cbv zeta. destruct (String.eqb_spec (trim body) "") as [|Hne]; [discriminate |].
  intros [= <-].
  destruct (first_block_inv _ _ _ Hblock) as (pre & t & -> & Ht).
  destruct (block_at_inv _ _ _ Ht) as (_ & Hfree & w & post & Hw & ->).
  destruct (trim_split body) as (l & r & Hl & Hr & Ebody).
  split; [exact Hne |]. split; [apply trim_idempotent |]. split.
  - rewrite Ebody, !free_of_app in Hfree.
    apply andb_prop in Hfree as [_ Hfree]. now apply andb_prop in Hfree as [? _].
  - exists pre, w, l, r, post. split.
    + rewrite !all_chars_app, Hw, Hl, Hr. reflexivity.
    + rewrite Ebody at 1. now rewrite !append_assoc.
Qed.

Lemma extractCssBlockContent_sound_witness :
  "--a: b;" <> "" /\ trim "--a: b;" = "--a: b;"
  /\ free_of is_close_brace "--a: b;" = true
  /\ exists pre w l r post,
       all_chars is_ws (w +:+ l +:+ r) = true
       /\ "x :root { --a: b; } y"
          = pre +:+ ":root" +:+ w +:+ "{" +:+ l +:+ "--a: b;" +:+ r
            +:+ "}" +:+ post.
Proof.
  apply (extractCssBlockContent_sound "x :root { --a: b; } y" ":root" "--a: b;").
  reflexivity.
Defined.

Section ImporterRange.
Context `{Binary64} (culori : Culori).

Lemma parseDeclaration_dom (validNames : list string)
    (target : gmap string string) (decl : string) (k : string) :
  k ∈ dom (parseDeclaration culori validNames target decl) ->
  k ∈ dom target \/ k ∈ validNames.
Proof.
  unfold parseDeclaration.
  destruct (map trim (split_colon decl)) as [|name [|value rest]]; auto.
  cbv zeta. unfold includes.
  destruct (bool_decide_reflect
              (replace_first VARIABLE_PREFIX "" name ∈ validNames)) as [Hv|_];
    [|now left].
  destruct (bool_decide _); rewrite dom_insert, elem_of_union, elem_of_singleton;
    (intros [->|Hk]; [now right | now left]).
Qed.

Lemma parseColorVariables_dom (content : string) (target : gmap string string)
    (validNames : list string) (k : string) :
  k ∈ dom (parseColorVariables culori content target validNames) ->
  k ∈ dom target \/ k ∈ validNames.
Proof.
  unfold parseColorVariables. cbv zeta.
  generalize (match_declarations 0 content). intros ds. revert target.
  induction ds as [|d ds IH]; intros target; cbn [foldl]; [now left |].
  intros Hk. destruct (IH _ Hk) as [Hk'|Hk']; [|now right].
  now apply parseDeclaration_dom in Hk'.
Qed.

(** X8.  Whatever the input, both partial results of the importer hold only
    tokens of the default light theme: no other name is ever stored. *)
Theorem parseCssInput_known_tokens (input : string) :
  dom (parseCssInput culori input).1 ⊆ dom defaultLightThemeStyles
  /\ dom (parseCssInput culori input).2 ⊆ dom defaultLightThemeStyles.
Proof.
  assert (Hnames : forall k, k ∈ variableNames -> k ∈ dom defaultLightThemeStyles)
    by (intros k; unfold variableNames; apply elem_of_elements).
  unfold parseCssInput. cbv zeta. cbn [fst snd].
  split; intros k.
  - destruct (extractCssBlockContent input ":root") as [content|].
    + intros [Hk|Hk]%parseColorVariables_dom; [|now apply Hnames].
      now rewrite dom_empty, elem_of_empty in Hk.
    + now rewrite dom_empty, elem_of_empty.
  - destruct (extractCssBlockContent input ".dark") as [content|].
    + intros [Hk|Hk]%parseColorVariables_dom; [|now apply Hnames].
      now rewrite dom_empty, elem_of_empty in Hk.
    + now rewrite dom_empty, elem_of_empty.
Qed.

End ImporterRange.

(** ** Importing an exported stylesheet *)

Section ImporterStores.
Context `{Binary64} (culori : Culori).

Lemma store_all_common (validNames : list string) (target : gmap string string)
    (ds : list (string * string)) (d : string * string) :
  NoDup (map (fun d => name_read d.1) ds) ->
  d ∈ ds ->
  includes validNames (name_read d.1) = true ->
  includes nonColorVariables (name_read d.1) = true ->
  store_all culori validNames target ds !! name_read d.1 = Some (value_read d.2).
Proof.
  intros Hnodup Hin Hvalid Hcommon. revert target.
  induction ds as [|e ds IH]; intros target; [now apply elem_of_nil in Hin |].
  cbn [map] in Hnodup. apply NoDup_cons in Hnodup as [Hfresh Hnodup].
  unfold store_all. cbn [foldl].
  change (foldl _ ?t ds) with (store_all culori validNames t ds).
  apply elem_of_cons in Hin as [<-|Hin].
  - rewrite store_all_other by exact Hfresh.
    unfold store_value. rewrite Hvalid, Hcommon. apply lookup_insert_eq.
  - now apply IH.
Qed.

Lemma store_all_invalid (validNames : list string) (target : gmap string string)
    (ds : list (string * string)) (k : string) :
  includes validNames k = false ->
  store_all culori validNames target ds !! k = target !! k.
Proof.
  intros Hk. revert target. induction ds as [|e ds IH]; intros target;
    [reflexivity |].
  unfold store_all. cbn [foldl].
  change (foldl _ ?t ds) with (store_all culori validNames t ds).
  rewrite IH. unfold store_value.
  destruct (includes validNames (name_read e.1)) eqn:He; [|reflexivity].
  assert (Hne : k <> name_read e.1) by (intros ->; congruence).
  destruct (includes nonColorVariables _); now rewrite lookup_insert_ne.
Qed.

End ImporterStores.

(** The tokens of a block that the importer stores. *)
Definition commonVariableNames : list string :=
  [ "font-sans"; "font-serif"; "font-mono"; "radius" ].

Definition kept_names (spacing : bool) : list string :=
  colorVariableNames ++ commonVariableNames
  ++ (if spacing then ["spacing"] else []).

Lemma block_names_kept (tracking spacing : bool) (n : string) :
  In n (block_names tracking spacing) ->
  includes variableNames n = bool_decide (n ∈ kept_names spacing).
Proof.
  assert (Hall : forallb (fun n => Bool.eqb (includes variableNames n)
                                     (bool_decide (n ∈ kept_names spacing)))
                         (block_names tracking spacing) = true)
    by (destruct tracking, spacing; vm_compute; reflexivity).
  rewrite forallb_forall in Hall. intros Hn. now apply Bool.eqb_prop, Hall.
Qed.

Lemma kept_names_printed (tracking spacing : bool) (n : string) :
  n ∈ kept_names spacing -> In n (block_names tracking spacing).
Proof.
  assert (Hall : forallb (fun n => bool_decide (n ∈ block_names tracking spacing))
                         (kept_names spacing) = true)
    by (destruct tracking, spacing; vm_compute; reflexivity).
  rewrite forallb_forall in Hall. intros Hn%list_elem_of_In.
  apply list_elem_of_In. exact (bool_decide_eq_true_1 _ (Hall n Hn)).
Qed.

Lemma common_names_classified (n : string) :
  n ∈ commonVariableNames ->
  includes variableNames n = true /\ includes nonColorVariables n = true.
Proof.
  assert (Hall : forallb (fun n => includes variableNames n
                                   && includes nonColorVariables n)
                         commonVariableNames = true)
    by (vm_compute; reflexivity).
  rewrite forallb_forall in Hall. intros Hn%list_elem_of_In.
  now apply andb_prop, Hall.
Qed.

Lemma value_read_plain (v : string) :
  free_of is_colon v = true -> value_read v = trim v.
Proof.
  intros Hv. unfold value_read.
  rewrite split_colon_free by (rewrite free_of_app, Hv; reflexivity).
  cbn [hd]. unfold trim. now rewrite (trim_start_ws " " v eq_refl).
Qed.

Section GeneratedImport.
Context `{Binary64} (culori : Culori) (st : ThemeStyles) (tailwindVersion : string).

Hypothesis Hhex : formatHex_stable culori.
Hypothesis Hcolors : forall mode k, k ∈ colorVariableNames ->
  exists v col, styles_of st mode !! k = Some v /\ culori_parse culori v = Some col.
Hypothesis Hsafe : forall mode k v,
  styles_of st mode !! k = Some v -> css_safe v = true.

Local Abbreviation formatColor :=
  (fun c : option string => colorFormatter_opt culori c "hex" tailwindVersion).

(** What the importer stores from the block of [mode]. *)
Definition imported_block (mode : Mode) : gmap string string :=
  store_all culori variableNames ∅
    (block_declarations culori st mode formatColor).

Lemma parse_generated_block (mode : Mode) :
  parseColorVariables culori
    (trim (declarations_text (block_declarations culori st mode formatColor)
           +:+ nl)) ∅ variableNames
  = imported_block mode.
Proof.
  unfold parseColorVariables, imported_block. cbv zeta.
  pose proof (block_scannable culori st tailwindVersion Hhex Hcolors Hsafe mode)
    as Hscan.
  destruct (block_first culori st tailwindVersion mode) as (d & ds & Hblock).
  rewrite Hblock in *.
  rewrite (match_declarations_block d ds Hscan).
  apply foldl_parseDeclaration, Hscan.
Qed.

Lemma import_of_generated :
  exists css,
    generateThemeCode culori (Some (input_of_styles st)) "hex" tailwindVersion
    = Return css
    /\ parseCssInput culori css = (imported_block Light, imported_block Dark).
Proof.
  unfold generateThemeCode.
  destruct (input_of_styles_lookup st) as [-> ->]. cbv zeta.
  rewrite ThemeStyles_eta, !generateThemeVariables_block.
  eexists. split; [reflexivity |].
  match goal with
  | |- context [(_ +:+ _ +:+ ?l +:+ _) +:+ nl +:+ nl
                +:+ (_ +:+ _ +:+ ?d +:+ _) +:+ ?r] =>
      destruct (stylesheet_shape l d r) as [Elight Edark]
  end.
  cbv zeta in Elight, Edark.
  assert (Hopen : forall c, is_open_brace c = true -> is_delimiter c = true)
    by (intros c Hc; unfold is_delimiter; rewrite Hc; now rewrite orb_true_r).
  assert (Hclose : forall c, is_close_brace c = true -> is_delimiter c = true)
    by (intros c Hc; unfold is_delimiter; rewrite Hc; now rewrite orb_true_r).
  pose proof (block_free culori st tailwindVersion Hhex Hcolors Hsafe
                is_close_brace Light eq_refl Hclose) as HlightClose.
  pose proof (block_free culori st tailwindVersion Hhex Hcolors Hsafe
                is_open_brace Light eq_refl Hopen) as HlightOpen.
  pose proof (block_free culori st tailwindVersion Hhex Hcolors Hsafe
                is_close_brace Dark eq_refl Hclose) as HdarkClose.
  destruct (block_content culori st tailwindVersion Light) as [HlightBody HlightTrim].
  destruct (block_content culori st tailwindVersion Dark) as [HdarkBody HdarkTrim].
  unfold parseCssInput, extractCssBlockContent. cbv zeta. f_equal.
  - rewrite Elight, (first_block_root _ _ HlightBody HlightClose).
    cbv beta iota zeta. rewrite HlightTrim. apply parse_generated_block.
  - rewrite Edark, first_block_dark.
    + cbv beta iota zeta. rewrite HdarkTrim. apply parse_generated_block.
    + rewrite free_of_app. now rewrite HlightOpen.
    + exact HdarkBody.
    + exact HdarkClose.
Qed.

Lemma block_entry (mode : Mode) (k : string) :
  In k (block_names (has_tracking st mode) (has_spacing st mode)) ->
  exists v, (k, v) ∈ block_declarations culori st mode formatColor.
Proof.
  rewrite <- (block_declarations_names culori st mode formatColor).
  intros ([n v] & <- & Hd)%in_map_iff. exists v. now apply list_elem_of_In.
Qed.

Lemma block_name_read (mode : Mode) (d : string * string) :
  d ∈ block_declarations culori st mode formatColor -> name_read d.1 = d.1.
Proof.
  intros Hd%list_elem_of_In.
  pose proof (block_names_of culori st tailwindVersion mode d Hd) as Hplain.
  now destruct (plain_name_spec _ Hplain) as (_ & _ & _ & ?).
Qed.

Lemma block_NoDup (mode : Mode) :
  NoDup (map (fun d => name_read d.1)
             (block_declarations culori st mode formatColor)).
Proof.
  pose proof (block_names_NoDup (has_tracking st mode) (has_spacing st mode)) as Hnd.
  rewrite <- (block_declarations_names culori st mode formatColor) in Hnd.
  now rewrite map_map in Hnd.
Qed.

Lemma imported_block_dom (mode : Mode) (k : string) :
  k ∈ dom (imported_block mode) <-> k ∈ kept_names (has_spacing st mode).
Proof.
  unfold imported_block. rewrite elem_of_dom.
  destruct (in_dec string_dec k
              (block_names (has_tracking st mode) (has_spacing st mode)))
    as [Hk|Hk].
  - destruct (block_entry mode k Hk) as [v Hd].
    pose proof (block_name_read mode _ Hd) as Hread. cbn [fst] in Hread.
    pose proof (block_names_kept _ _ k Hk) as Hclass.
    destruct (bool_decide_reflect (k ∈ kept_names (has_spacing st mode)))
      as [Hkept|Hkept].
    + split; [intros _; exact Hkept | intros _].
      destruct (includes nonColorVariables k) eqn:Hcommon.
      * pose proof (store_all_common culori variableNames ∅ _ (k, v)
                      (block_NoDup mode) Hd) as Hstore.
        cbn [fst snd] in Hstore. rewrite Hread in Hstore.
        rewrite (Hstore Hclass Hcommon). eauto.
      * pose proof (store_all_color culori variableNames ∅ _ (k, v)
                      (block_NoDup mode) Hd) as Hstore.
        cbn [fst snd] in Hstore. rewrite Hread in Hstore.
        rewrite (Hstore Hclass Hcommon). eauto.
    + rewrite (store_all_invalid culori variableNames ∅ _ k Hclass).
      rewrite lookup_empty. split; [intros [? [=]] | contradiction].
  - rewrite store_all_other.
    + rewrite lookup_empty. split; [intros [? [=]] |].
      intros Hkept. elim Hk. now apply kept_names_printed.
    + intros ([n v] & Hn & Hd)%list_elem_of_In%in_map_iff. cbn [fst] in Hn.
      apply Hk. rewrite <- (block_declarations_names culori st mode formatColor).
      apply in_map_iff. exists (n, v). split; [|exact Hd]. cbn [fst].
      rewrite <- Hn. symmetry.
      exact (block_name_read mode (n, v) (proj2 (list_elem_of_In _ _) Hd)).
Qed.

Lemma imported_block_common (mode : Mode) (k : string) :
  k ∈ commonVariableNames ->
  imported_block mode !! k = Some (value_read (js_str (styles_of st mode !! k))).
Proof.
  intros Hk. destruct (common_names_classified k Hk) as [Hvalid Hcommon].
  assert (Hd : (k, js_str (styles_of st mode !! k))
               ∈ block_declarations culori st mode formatColor).
  { apply list_elem_of_In. unfold block_declarations.
    apply in_app_iff. right. apply in_app_iff. left.
    apply in_map_iff. exists k. split; [reflexivity | now apply list_elem_of_In]. }
  pose proof (block_name_read mode _ Hd) as Hread. cbn [fst] in Hread.
  pose proof (store_all_common culori variableNames ∅ _ _ (block_NoDup mode) Hd)
    as Hstore.
  cbn [fst snd] in Hstore. rewrite Hread in Hstore. exact (Hstore Hvalid Hcommon).
Qed.

End GeneratedImport.

(** X9.  Of a stylesheet exported in hex, the importer keeps exactly the colour
    tokens, the three fonts and the radius of each block, and from the
    [:root] block a spacing that differs from the default.  The shadow
    tokens and the letter spacing do not come back. *)
Theorem import_keeps_colors_fonts_radius `{Binary64} (culori : Culori)
    (st : ThemeStyles) (tailwindVersion : string) :
  formatHex_stable culori ->
  (forall mode k, k ∈ colorVariableNames ->
     exists v col, styles_of st mode !! k = Some v
                   /\ culori_parse culori v = Some col) ->
  (forall mode k v, styles_of st mode !! k = Some v -> css_safe v = true) ->
  exists css,
    generateThemeCode culori (Some (input_of_styles st)) "hex" tailwindVersion
    = Return css
    /\ dom (parseCssInput culori css).1
       = list_to_set
           (colorVariableNames ++ ["font-sans"; "font-serif"; "font-mono"; "radius"]
            ++ (if bool_decide (light st !! "spacing"
                                = defaultLightThemeStyles !! "spacing")
                then [] else ["spacing"]))
    /\ dom (parseCssInput culori css).2
       = list_to_set
           (colorVariableNames ++ ["font-sans"; "font-serif"; "font-mono"; "radius"]).
Proof.
  intros Hhex Hcolors Hsafe.
  destruct (import_of_generated culori st tailwindVersion Hhex Hcolors Hsafe)
    as (css & Hcss & Hparse).
  exists css. split; [exact Hcss |]. rewrite Hparse. cbn [fst snd].
  split; apply set_eq; intros k;
    rewrite imported_block_dom, elem_of_list_to_set.
  - unfold has_spacing, kept_names, commonVariableNames.
    rewrite (bool_decide_eq_true_2 (Light = Light)) by reflexivity.
    cbn [andb]. now destruct (bool_decide _).
  - unfold has_spacing, kept_names, commonVariableNames.
    rewrite (bool_decide_eq_false_2 (Dark = Light)) by discriminate.
    cbn [andb]. now rewrite app_nil_r.
Qed.

Lemma import_keeps_colors_fonts_radius_witness :
  exists css,
    generateThemeCode (H := exact_arithmetic) sampleCulori
      (Some (input_of_styles (catalogStyles "bubblegum"))) "hex" "3"
    = Return css
    /\ dom (parseCssInput (H := exact_arithmetic) sampleCulori css).1
       = list_to_set
           (colorVariableNames ++ ["font-sans"; "font-serif"; "font-mono"; "radius"]
            ++ (if bool_decide (light (catalogStyles "bubblegum") !! "spacing"
                                = defaultLightThemeStyles !! "spacing")
                then [] else ["spacing"]))
    /\ dom (parseCssInput (H := exact_arithmetic) sampleCulori css).2
       = list_to_set
           (colorVariableNames ++ ["font-sans"; "font-serif"; "font-mono"; "radius"]).
Proof.
  apply (import_keeps_colors_fonts_radius sampleCulori).
  - exact sample_formatHex_stable.
  - intros mode k Hk.
    assert (Hall : forallb (fun k =>
        match styles_of (catalogStyles "bubblegum") mode !! k with
        | Some v => bool_decide (is_Some (sample_parse v))
        | None => false
        end) colorVariableNames = true)
      by (destruct mode; vm_compute; reflexivity).
    rewrite forallb_forall in Hall. apply list_elem_of_In, Hall in Hk.
    destruct (styles_of _ mode !! k) as [v|]; [|discriminate].
    apply bool_decide_eq_true_1 in Hk as [col Hcol]. now exists v, col.
  - intros mode. apply (bool_decide_unpack _). destruct mode; vm_compute; exact I.
Defined.

(** X10.  In such a stylesheet a font or a radius without a colon is read back
    as it stands in the state, without the white space around it (a
    missing one as the text [undefined]). *)
Theorem import_reads_fonts_radius `{Binary64} (culori : Culori)
    (st : ThemeStyles) (tailwindVersion : string) :
  formatHex_stable culori ->
  (forall mode k, k ∈ colorVariableNames ->
     exists v col, styles_of st mode !! k = Some v
                   /\ culori_parse culori v = Some col) ->
  (forall mode k v, styles_of st mode !! k = Some v -> css_safe v = true) ->
  exists css,
    generateThemeCode culori (Some (input_of_styles st)) "hex" tailwindVersion
    = Return css
    /\ forall k, k ∈ ["font-sans"; "font-serif"; "font-mono"; "radius"] ->
         (free_of is_colon (js_str (light st !! k)) = true ->
          (parseCssInput culori css).1 !! k = Some (trim (js_str (light st !! k))))
         /\ (free_of is_colon (js_str (dark st !! k)) = true ->
             (parseCssInput culori css).2 !! k
             = Some (trim (js_str (dark st !! k)))).
Proof.
  intros Hhex Hcolors Hsafe.
  destruct (import_of_generated culori st tailwindVersion Hhex Hcolors Hsafe)
    as (css & Hcss & Hparse).
  exists css. split; [exact Hcss |]. rewrite Hparse. cbn [fst snd].
  intros k Hk. split; intros Hplain.
  - rewrite (imported_block_common culori st tailwindVersion Light k Hk).
    cbn [styles_of]. now rewrite value_read_plain.
  - rewrite (imported_block_common culori st tailwindVersion Dark k Hk).
    cbn [styles_of]. now rewrite value_read_plain.
Qed.

Lemma import_reads_fonts_radius_witness :
  exists css,
    generateThemeCode (H := exact_arithmetic) sampleCulori
      (Some (input_of_styles (catalogStyles "catppuccin"))) "hex" "4"
    = Return css
    /\ forall k, k ∈ ["font-sans"; "font-serif"; "font-mono"; "radius"] ->
         (free_of is_colon (js_str (light (catalogStyles "catppuccin") !! k))
          = true ->
          (parseCssInput (H := exact_arithmetic) sampleCulori css).1 !! k
          = Some (trim (js_str (light (catalogStyles "catppuccin") !! k))))
         /\ (free_of is_colon (js_str (dark (catalogStyles "catppuccin") !! k))
             = true ->
             (parseCssInput (H := exact_arithmetic) sampleCulori css).2 !! k
             = Some (trim (js_str (dark (catalogStyles "catppuccin") !! k)))).
Proof.
  apply (import_reads_fonts_radius sampleCulori).
  - exact sample_formatHex_stable.
  - intros mode k Hk.
    assert (Hall : forallb (fun k =>
        match styles_of (catalogStyles "catppuccin") mode !! k with
        | Some v => bool_decide (is_Some (sample_parse v))
        | None => false
        end) colorVariableNames = true)
      by (destruct mode; vm_compute; reflexivity).
    rewrite forallb_forall in Hall. apply list_elem_of_In, Hall in Hk.
    destruct (styles_of _ mode !! k) as [v|]; [|discriminate].
    apply bool_decide_eq_true_1 in Hk as [col Hcol]. now exists v, col.
  - intros mode. apply (bool_decide_unpack _). destruct mode; vm_compute; exact I.
Defined.

(** ** hooks/use-toast.ts *)

Lemma addToRemoveQueue_elem (id x : string) (timeouts : list string) :
  x ∈ addToRemoveQueue id timeouts <-> x = id \/ x ∈ timeouts.
Proof.
  unfold addToRemoveQueue.
  destruct (bool_decide_reflect (id ∈ timeouts)) as [Hin|Hout].
  - split; [now right | intros [->|Hx]; assumption].
  - rewrite elem_of_app, list_elem_of_singleton. tauto.
Qed.

Lemma addToRemoveQueue_NoDup (id : string) (timeouts : list string) :
  NoDup timeouts -> NoDup (addToRemoveQueue id timeouts).
Proof.
  intros Hnd. unfold addToRemoveQueue.
  destruct (bool_decide_reflect (id ∈ timeouts)) as [Hin|Hout]; [exact Hnd |].
  apply NoDup_app. repeat split; [exact Hnd | | apply NoDup_singleton].
  intros x Hx ->%list_elem_of_singleton. contradiction.
Qed.

Lemma queue_all_elem (state : list ToasterToast) (timeouts : list string)
    (x : string) :
  x ∈ foldl (fun q t => addToRemoveQueue (toast_id t) q) timeouts state
  <-> x ∈ timeouts \/ x ∈ map toast_id state.
Proof.
  revert timeouts. induction state as [|t state IH]; intros timeouts;
    cbn [foldl map].
  - rewrite elem_of_nil. tauto.
  - rewrite IH, addToRemoveQueue_elem, elem_of_cons. tauto.
Qed.

Lemma queue_all_NoDup (state : list ToasterToast) (timeouts : list string) :
  NoDup timeouts ->
  NoDup (foldl (fun q t => addToRemoveQueue (toast_id t) q) timeouts state).
Proof.
  revert timeouts. induction state as [|t state IH]; intros timeouts Hnd;
    cbn [foldl]; [exact Hnd |].
  now apply IH, addToRemoveQueue_NoDup.
Qed.

Lemma reducer_timeouts_NoDup (timeouts : list string) (state : list ToasterToast)
    (action : Action) :
  NoDup timeouts -> NoDup (reducer timeouts state action).1.
Proof.
  intros Hnd. destruct action as [t|p|[id|]|[id|]]; cbn [reducer fst];
    try exact Hnd.
  - destruct (negb _); [now apply addToRemoveQueue_NoDup | now apply queue_all_NoDup].
  - now apply queue_all_NoDup.
Qed.

Lemma reducer_length (timeouts : list string) (state : list ToasterToast)
    (action : Action) :
  (length state <= TOAST_LIMIT)%nat ->
  (length (reducer timeouts state action).2 <= TOAST_LIMIT)%nat.
Proof.
  intros Hlen. destruct action as [t|p|[id|]|[id|]]; cbn [reducer snd].
  - rewrite length_take. lia.
  - now rewrite length_map.
  - now rewrite length_map.
  - now rewrite length_map.
  - etransitivity; [apply length_filter | exact Hlen].
  - cbn [length]. lia.
Qed.

(** X11.  However the module is used, there is at most one toast, no id has two
    removal timers pending, and the counter of [genId] stays below
    [Number.MAX_SAFE_INTEGER]. *)
Theorem toast_module_invariant (m : ToastModule) :
  toast_reachable m ->
  (length (memoryState m) <= TOAST_LIMIT)%nat
  /\ NoDup (toastTimeouts m)
  /\ (count m < MAX_SAFE_INTEGER)%N.
Proof.
  induction 1 as [|m m' Hm (Hlen & Hnd & Hcount) Hstep].
  - repeat split; [cbn; lia | constructor].
  - destruct Hstep as [props m|toastId m|id props m|toastId m Hin].
    + unfold toast, genId, dispatch. cbn [reducer snd count toastTimeouts memoryState].
      repeat split.
      * rewrite length_take. lia.
      * exact Hnd.
      * apply N.mod_lt. discriminate.
    + unfold dismiss, dispatch.
      pose proof (reducer_length (toastTimeouts m) (memoryState m)
                    (DISMISS_TOAST toastId) Hlen) as Hlen'.
      pose proof (reducer_timeouts_NoDup (toastTimeouts m) (memoryState m)
                    (DISMISS_TOAST toastId) Hnd) as Hnd'.
      destruct (reducer _ _ _) as [tm st]. now repeat split.
    + unfold update, dispatch. cbn [reducer count toastTimeouts memoryState].
      repeat split; [now rewrite length_map | exact Hnd | exact Hcount].
    + unfold removal_timer_fires, dispatch.
      cbn [reducer count toastTimeouts memoryState]. repeat split.
      * etransitivity; [apply length_filter | exact Hlen].
      * now apply NoDup_filter.
      * exact Hcount.
Qed.

Lemma toast_module_invariant_witness :
  let m := dismiss None (toast ∅ (toast ∅ initialToastModule).2).2 in
  (length (memoryState m) <= TOAST_LIMIT)%nat
  /\ NoDup (toastTimeouts m)
  /\ (count m < MAX_SAFE_INTEGER)%N.
Proof.
  apply toast_module_invariant.
  eapply toast_reachable_step; [|apply step_dismiss].
  eapply toast_reachable_step; [|apply step_toast].
  eapply toast_reachable_step; [|apply step_toast].
  apply toast_reachable_initial.
Defined.

(** X12.  Dismissing a toast by its id closes it, keeps it in the list and sets
    its removal timer; when that timer fires, the toasts with that id are
    gone, the others are as they were before the dismissal, and the timer
    is no longer pending. *)
Theorem dismiss_then_timer_removes (id : string) (m : ToastModule) :
  id <> "" ->
  let dismissed := dismiss (Some id) m in
  let removed := removal_timer_fires id dismissed in
  id ∈ toastTimeouts dismissed
  /\ map toast_id (memoryState dismissed) = map toast_id (memoryState m)
  /\ (forall t, t ∈ memoryState dismissed -> toast_id t = id ->
        toast_props t !! "open" = Some (VFlag false))
  /\ memoryState removed = filter (fun t => toast_id t <> id) (memoryState m)
  /\ toastTimeouts removed = filter (fun x => x <> id) (toastTimeouts m).
Proof.
  intros Hid dismissed removed.
  assert (Hne : negb (id =? "")%string = true)
    by (apply negb_true_iff, String.eqb_neq, Hid).
  unfold removed, dismissed, removal_timer_fires, dismiss, dispatch.
  cbn [reducer count toastTimeouts memoryState]. rewrite Hne.
  cbn [count toastTimeouts memoryState].
  rewrite (bool_decide_eq_false_2 (Some id = None)) by discriminate.
  split; [apply addToRemoveQueue_elem; now left |]. split; [|split; [|split]].
  - rewrite map_map. apply map_ext. intros t.
    now destruct (_ || _).
  - intros t (t0 & <- & Ht0)%list_elem_of_In%in_map_iff.
    destruct (bool_decide (Some (toast_id t0) = Some id)) eqn:E; cbn [orb].
    + intros _. cbn [close_toast toast_props]. apply lookup_insert_eq.
    + intros Ht. apply bool_decide_eq_false_1 in E. elim E. now rewrite Ht.
  - induction (memoryState m) as [|t ts IH]; [reflexivity |].
    cbn [map]. rewrite !filter_cons, IH.
    destruct (bool_decide (Some (toast_id t) = Some id)) eqn:E; cbn [orb].
    + apply bool_decide_eq_true_1 in E. injection E as E.
      cbn [close_toast toast_id].
      rewrite !decide_False by (intros Hn; now apply Hn). reflexivity.
    + apply bool_decide_eq_false_1 in E.
      rewrite !decide_True by congruence. reflexivity.
  - unfold addToRemoveQueue.
    destruct (bool_decide (id ∈ toastTimeouts m)); [reflexivity |].
    rewrite filter_app, filter_cons, decide_False by (intros Hn; now apply Hn).
    rewrite filter_nil. apply app_nil_r.
Qed.

Lemma dismiss_then_timer_removes_witness :
  let m := (toast ∅ initialToastModule).2 in
  let dismissed := dismiss (Some "1") m in
  let removed := removal_timer_fires "1" dismissed in
  "1" ∈ toastTimeouts dismissed
  /\ map toast_id (memoryState dismissed) = map toast_id (memoryState m)
  /\ (forall t, t ∈ memoryState dismissed -> toast_id t = "1" ->
        toast_props t !! "open" = Some (VFlag false))
  /\ memoryState removed = filter (fun t => toast_id t <> "1") (memoryState m)
  /\ toastTimeouts removed = filter (fun x => x <> "1") (toastTimeouts m).
Proof.
  apply (dismiss_then_timer_removes "1" (toast ∅ initialToastModule).2).
  discriminate.
Defined.

(** X13.  [dismiss()] without an id closes every toast and sets a removal timer
    for each, keeping the timers already pending.  [dismiss("")] sets the
    same timers, since the empty id counts as none, but closes only the
    toasts whose id is empty: where no toast has an empty id, the list
    stays as it is. *)
Theorem dismiss_all (m : ToastModule) :
  memoryState (dismiss None m) = map close_toast (memoryState m)
  /\ (forall x, x ∈ toastTimeouts (dismiss None m)
                <-> x ∈ toastTimeouts m \/ x ∈ map toast_id (memoryState m))
  /\ toastTimeouts (dismiss (Some "") m) = toastTimeouts (dismiss None m)
  /\ ((forall t, t ∈ memoryState m -> toast_id t <> "") ->
      memoryState (dismiss (Some "") m) = memoryState m).
Proof.
  unfold dismiss, dispatch. cbn [reducer toastTimeouts memoryState].
  split; [|split; [|split]].
  - apply map_ext. intros t. now rewrite orb_true_r.
  - intros x. apply queue_all_elem.
  - reflexivity.
  - intros Hids. rewrite <- (map_id (memoryState m)) at 2.
    apply map_ext_in. intros t Ht%list_elem_of_In.
    rewrite (bool_decide_eq_false_2 (Some "" = None)) by discriminate.
    rewrite bool_decide_eq_false_2; [reflexivity |].
    intros [= Hid]. now apply (Hids t Ht).
Qed.

(** X14.  [update] of a toast keeps the ids and their order, the timers and the
    counter; where no toast has the id, the list stays as it is. *)
Theorem update_keeps_ids (id : string) (props : ToasterToast) (m : ToastModule) :
  map toast_id (memoryState (update id props m)) = map toast_id (memoryState m)
  /\ toastTimeouts (update id props m) = toastTimeouts m
  /\ count (update id props m) = count m
  /\ (id ∉ map toast_id (memoryState m) ->
      memoryState (update id props m) = memoryState m).
Proof.
  unfold update, dispatch. cbn [reducer toastTimeouts memoryState count partial_id].
  repeat split.
  - rewrite map_map. apply map_ext. intros t.
    destruct (bool_decide_reflect (Some (toast_id t) = Some id)) as [[= Ht]|_];
      [|reflexivity].
    cbn [merge_toast toast_id partial_id default]. now rewrite Ht.
  - intros Hid. rewrite <- (map_id (memoryState m)) at 2.
    apply map_ext_in. intros t Ht.
    rewrite bool_decide_eq_false_2; [reflexivity |].
    intros [= Heq]. apply Hid, list_elem_of_In, in_map_iff. now exists t.
Qed.

(** ** [genId] *)

(** The ids of [n] calls of [genId] in a row. *)
Fixpoint genIds (n : nat) (count : N) : list string :=
  match n with
  | O => []
  | S n' => let '(id, count') := genId count in id :: genIds n' count'
  end.

Lemma digits_inj (a b : N) : digits a = digits b -> a = b.
Proof.
  assert (Hnonnil : forall n, N.to_uint n <> Decimal.Nil).
  { intros n. rewrite <- (DecimalN.Unsigned.of_to n) at 1.
    rewrite DecimalN.Unsigned.to_of. apply DecimalFacts.unorm_nonnil. }
  unfold digits. intros Hab.
  apply (f_equal NilZero.uint_of_string) in Hab.
  rewrite !NilZero.usu in Hab by apply Hnonnil.
  apply DecimalN.Unsigned.to_uint_inj. congruence.
Qed.

Lemma genIds_spec (n : nat) (count : N) :
  genIds n count
  = map (fun k => digits ((count + N.of_nat k) mod MAX_SAFE_INTEGER)%N) (seq 1 n).
Proof.
  revert count. induction n as [|n IH]; intros count; [reflexivity |].
  cbn [genIds genId seq map]. rewrite IH. f_equal.
  rewrite <- (seq_shift n 1), map_map. apply map_ext. intros k.
  rewrite N.Div0.add_mod_idemp_l. f_equal. f_equal. lia.
Qed.

(** X15.  Fewer calls of [genId] in a row than [Number.MAX_SAFE_INTEGER] give
    ids that differ from one another, whatever the counter was. *)
Theorem genId_fresh (n : nat) (count : N) :
  (N.of_nat n < MAX_SAFE_INTEGER)%N -> NoDup (genIds n count).
Proof.
  intros Hn. rewrite genIds_spec.
  change (map ?f ?l) with (f <$> l).
  apply NoDup_fmap_2_strong; [|apply NoDup_seq].
  intros i j Hi%elem_of_seq Hj%elem_of_seq Hij%digits_inj.
  pose proof (N.Div0.div_mod (count + N.of_nat i) MAX_SAFE_INTEGER) as Ei.
  pose proof (N.Div0.div_mod (count + N.of_nat j) MAX_SAFE_INTEGER) as Ej.
  rewrite Hij in Ei.
  unfold MAX_SAFE_INTEGER in *.
  change (2 ^ 53 - 1)%N with 9007199254740991%N in *.
  lia.
Qed.

Lemma genId_fresh_witness : NoDup (genIds 3 9007199254740989).
Proof. apply genId_fresh. reflexivity. Defined.

(** ** components/editor/css-import-dialog.tsx and action-bar.tsx *)

Lemma string_includes_cons (p : string) (c : ascii) (s : string) :
  string_includes p (String c s)
  = match strip_prefix p (String c s) with
    | Some _ => true
    | None => string_includes p s
    end.
Proof. reflexivity. Qed.

Lemma string_includes_intro (p a b : string) :
  string_includes p (a +:+ p +:+ b) = true.
Proof.
  induction a as [|c a IH].
  - change ("" +:+ p +:+ b) with (p +:+ b).
    destruct (p +:+ b) as [|x r] eqn:E.
    + cbn [string_includes]. now rewrite <- E, strip_prefix_app.
    + rewrite string_includes_cons, <- E, strip_prefix_app. reflexivity.
  - change (String c a +:+ p +:+ b) with (String c (a +:+ p +:+ b)).
    rewrite string_includes_cons, IH. now destruct (strip_prefix _ _).
Qed.

Lemma string_includes_elim (p s : string) :
  string_includes p s = true -> exists a b, s = a +:+ p +:+ b.
Proof.
  induction s as [|c s IH]; cbn [string_includes].
  - destruct (strip_prefix p "") as [r|] eqn:E; [|discriminate].
    intros _. exists "", r. exact (strip_prefix_Some _ _ _ E).
  - destruct (strip_prefix p (String c s)) as [r|] eqn:E.
    + intros _. exists "", r. exact (strip_prefix_Some _ _ _ E).
    + intros Hs. destruct (IH Hs) as (a & b & ->). now exists (String c a), b.
Qed.

Lemma blank_excludes (s : string) :
  trim s = "" -> string_includes "--" s = false.
Proof.
  intros Hs. destruct (string_includes "--" s) eqn:Hinc; [|reflexivity].
  destruct (string_includes_elim _ _ Hinc) as (a & b & Es).
  destruct (trim_split s) as (l & r & Hl & Hr & El).
  rewrite Hs in El. cbn [String.append] in El.
  assert (Hws : all_chars is_ws s = true)
    by (rewrite El, all_chars_app, Hl, Hr; reflexivity).
  rewrite Es, !all_chars_app in Hws.
  apply andb_prop in Hws as [_ Hws]. apply andb_prop in Hws as [Hws _].
  discriminate Hws.
Qed.

Lemma declaration_at_inv (t d : string) :
  declaration_at t = Some d -> exists n r, t = "--" +:+ n +:+ ":" +:+ r.
Proof.
  unfold declaration_at.
  destruct (strip_prefix "--" t) as [r|] eqn:Hr; [|discriminate].
  apply strip_prefix_Some in Hr as ->.
  destruct (span_until (Ascii.eqb ":") r) as [a b] eqn:Hspan.
  destruct (span_until_inv _ _ _ _ Hspan) as (-> & _ & Hb).
  destruct a as [|x a]; [discriminate |].
  destruct b as [|y b]; [discriminate |].
  apply Ascii.eqb_eq in Hb as <-. intros _. now exists (String x a), b.
Qed.

Lemma match_declarations_found (skip : nat) (s : string) :
  match_declarations skip s <> [] ->
  exists pre t d, s = pre +:+ t /\ declaration_at t = Some d.
Proof.
  revert skip. induction s as [|c s IH]; intros skip; cbn [match_declarations];
    [congruence |].
  assert (Hrest : forall k, match_declarations k s <> [] ->
            exists pre t d, String c s = pre +:+ t /\ declaration_at t = Some d).
  { intros k Hk. destruct (IH k Hk) as (pre & t & d & -> & Ht).
    now exists (String c pre), t, d. }
  destruct skip as [|k]; [|apply Hrest].
  destruct (declaration_at (String c s)) as [d|] eqn:Hd; [|apply Hrest].
  intros _. now exists "", (String c s), d.
Qed.

Lemma extract_infix (input selector content : string) :
  extractCssBlockContent input selector = Some content ->
  exists a b, input = a +:+ content +:+ b.
Proof.
  unfold extractCssBlockContent.
  destruct (first_block selector input) as [body|] eqn:Hblock; [|discriminate].
  cbv zeta. destruct (String.eqb (trim body) ""); [discriminate |].
  intros [= <-].
  destruct (first_block_inv _ _ _ Hblock) as (pre & t & -> & Ht).
  destruct (block_at_inv _ _ _ Ht) as (_ & _ & w & post & _ & ->).
  destruct (trim_split body) as (l & r & _ & _ & Ebody).
  exists (pre +:+ selector +:+ w +:+ "{" +:+ l), (r +:+ "}" +:+ post).
  rewrite Ebody at 1. now rewrite !append_assoc.
Qed.

Section ImportGate.
Context `{Binary64} (culori : Culori).

Lemma block_read_needs_declaration (input selector content : string) :
  extractCssBlockContent input selector = Some content ->
  parseColorVariables culori content ∅ variableNames <> ∅ ->
  string_includes "--" input = true /\ string_includes ":" input = true.
Proof.
  intros Hextract Hread.
  assert (Hfound : match_declarations 0 content <> []).
  { intros Hnone. apply Hread. unfold parseColorVariables. now rewrite Hnone. }
  destruct (match_declarations_found _ _ Hfound) as (pre & t & d & -> & Ht).
  destruct (declaration_at_inv _ _ Ht) as (n & r & ->).
  destruct (extract_infix _ _ _ Hextract) as (a & b & ->). split.
  - assert (E : a +:+ (pre +:+ "--" +:+ n +:+ ":" +:+ r) +:+ b
                = (a +:+ pre) +:+ "--" +:+ (n +:+ ":" +:+ r +:+ b))
      by (now rewrite !append_assoc).
    rewrite E. apply string_includes_intro.
  - assert (E : a +:+ (pre +:+ "--" +:+ n +:+ ":" +:+ r) +:+ b
                = (a +:+ pre +:+ "--" +:+ n) +:+ ":" +:+ (r +:+ b))
      by (now rewrite !append_assoc).
    rewrite E. apply string_includes_intro.
Qed.

Lemma read_needs_declaration (input : string) :
  parseCssInput culori input <> (∅, ∅) ->
  string_includes "--" input = true /\ string_includes ":" input = true.
Proof.
  unfold parseCssInput. cbv zeta. intros Hread.
  destruct (extractCssBlockContent input ":root") as [root|] eqn:Hroot.
  - destruct (decide (parseColorVariables culori root ∅ variableNames = ∅))
      as [Eroot|Nroot]; [|exact (block_read_needs_declaration _ _ _ Hroot Nroot)].
    rewrite Eroot in Hread.
    destruct (extractCssBlockContent input ".dark") as [dark|] eqn:Hdark;
      [|now elim Hread].
    apply (block_read_needs_declaration _ _ _ Hdark). congruence.
  - destruct (extractCssBlockContent input ".dark") as [dark|] eqn:Hdark;
      [|now elim Hread].
    apply (block_read_needs_declaration _ _ _ Hdark). congruence.
Qed.

(** X16.  The dialog turns away nothing the importer could have read: for a text
    it rejects, as empty or as not looking like CSS, both partial results
    of the importer are empty. *)
Theorem handleImport_rejects_only_unreadable (d : ImportDialog) :
  (handleImport d).2 = None -> parseCssInput culori (cssText d) = (∅, ∅).
Proof.
  intros Hreject.
  destruct (decide (parseCssInput culori (cssText d) = (∅, ∅))) as [|Hread];
    [assumption | exfalso].
  destruct (read_needs_declaration _ Hread) as [Hdashes Hcolon].
  unfold handleImport in Hreject.
  destruct (String.eqb_spec (trim (cssText d)) "") as [Hblank|_].
  - apply blank_excludes in Hblank. congruence.
  - rewrite Hdashes, Hcolon in Hreject. discriminate Hreject.
Qed.

End ImportGate.

Lemma handleImport_rejects_only_unreadable_witness :
  parseCssInput (H := exact_arithmetic) sampleCulori
    (cssText {| cssText := ":root { color: red; }"; dialog_error := None |})
  = (∅, ∅).
Proof.
  apply (handleImport_rejects_only_unreadable (H := exact_arithmetic) sampleCulori
           {| cssText := ":root { color: red; }"; dialog_error := None |}).
  reflexivity.
Defined.

Section ImportAction.
Context `{Binary64} (culori : Culori).

Lemma parseCssInput_unknown (input k : string) :
  k ∉ dom defaultLightThemeStyles ->
  (parseCssInput culori input).1 !! k = None
  /\ (parseCssInput culori input).2 !! k = None.
Proof.
  intros Hk.
  assert (Hnames : k ∉ variableNames)
    by (unfold variableNames; now rewrite elem_of_elements).
  unfold parseCssInput. cbv zeta. cbn [fst snd].
  split; apply not_elem_of_dom.
  - destruct (extractCssBlockContent input ":root") as [content|].
    + intros [Hd|Hd]%parseColorVariables_dom; [|contradiction].
      now rewrite dom_empty, elem_of_empty in Hd.
    + now rewrite dom_empty, elem_of_empty.
  - destruct (extractCssBlockContent input ".dark") as [content|].
    + intros [Hd|Hd]%parseColorVariables_dom; [|contradiction].
      now rewrite dom_empty, elem_of_empty in Hd.
    + now rewrite dom_empty, elem_of_empty.
Qed.

(** X17.  An import keeps the preset name, the mode and the latch, and leaves
    every token that is not a token of the default light theme as it was,
    in both modes.  It announces success with a toast whatever it read:
    also when the importer read nothing, in which case the theme state is
    the one before. *)
Theorem handleCssImport_merges (css : string) (s : EditorStore)
    (m : ToastModule) :
  let s' := (handleCssImport culori css s m).1 in
  let m' := (handleCssImport culori css s m).2 in
  preset (themeState s') = preset (themeState s)
  /\ currentMode (themeState s') = currentMode (themeState s)
  /\ hasChangedThemeFromDefault s' = hasChangedThemeFromDefault s
  /\ (forall k, k ∉ dom defaultLightThemeStyles ->
        light (styles (themeState s')) !! k = light (styles (themeState s)) !! k
        /\ dark (styles (themeState s')) !! k = dark (styles (themeState s)) !! k)
  /\ (parseCssInput culori css = (∅, ∅) -> themeState s' = themeState s)
  /\ exists t, memoryState m' = [t]
       /\ toast_props t !! "title" = Some (VText "CSS imported")
       /\ toast_props t !! "open" = Some (VFlag true).
Proof.
  cbv zeta. unfold handleCssImport.
  pose proof (parseCssInput_unknown css) as Hunknown.
  destruct (parseCssInput culori css) as [lightColors darkColors].
  cbn [fst snd] in *. unfold setThemeState.
  cbn [themeState preset currentMode styles hasChangedThemeFromDefault light dark].
  do 3 (split; [reflexivity |]). split; [|split].
  - intros k Hk. destruct (Hunknown k Hk) as [Hl Hd].
    rewrite !lookup_spread, Hl, Hd. now split.
  - intros [= -> ->]. unfold spread. rewrite !(left_id_L ∅ (∪)).
    destruct (themeState s) as [p [l d] mode]. reflexivity.
  - unfold toast, genId, dispatch. cbn [reducer snd memoryState take TOAST_LIMIT].
    eexists. split; [reflexivity |]. cbn [toast_props]. split.
    + rewrite !lookup_insert_ne by discriminate. vm_compute. reflexivity.
    + rewrite lookup_insert_ne by discriminate. apply lookup_insert_eq.
Qed.

End ImportAction.

(** ** parseFloat on the strings the code prints *)

Lemma digits_value_app (acc : N) (a b : string) :
  digits_value acc (a +:+ b) = digits_value (digits_value acc a) b.
Proof.
  revert acc. induction a as [|c a IH]; intros acc; [reflexivity |].
  cbn [String.append digits_value]. apply IH.
Qed.

Lemma digits_value_uint_acc (d : Decimal.uint) (acc : positive) :
  digits_value (Npos acc) (NilEmpty.string_of_uint d)
  = Npos (Pos.of_uint_acc d acc).
Proof.
  revert acc. induction d; intros acc;
    cbn [NilEmpty.string_of_uint digits_value Pos.of_uint_acc];
    try reflexivity; rewrite <- IHd; f_equal; cbn; lia.
Qed.

Lemma digits_value_uint (d : Decimal.uint) :
  digits_value 0 (NilEmpty.string_of_uint d) = Pos.of_uint d.
Proof.
  induction d; cbn [NilEmpty.string_of_uint digits_value Pos.of_uint];
    try reflexivity; try exact IHd;
    apply (digits_value_uint_acc d 1) || apply (digits_value_uint_acc d _).
Qed.

Lemma digits_value_digits (n : N) : digits_value 0 (digits n) = n.
Proof.
  unfold digits, NilZero.string_of_uint.
  rewrite <- (DecimalN.Unsigned.of_to n) at 2. unfold N.of_uint.
  destruct (N.to_uint n) eqn:E; try apply (digits_value_uint (_ _)).
  reflexivity.
Qed.

Lemma digits_value_shift (acc : N) (s : string) :
  digits_value acc s
  = (acc * 10 ^ N.of_nat (String.length s) + digits_value 0 s)%N.
Proof.
  revert acc. induction s as [|c s IH]; intros acc.
  - cbn [digits_value String.length]. change (10 ^ N.of_nat 0)%N with 1%N. lia.
  - cbn [digits_value String.length]. rewrite IH, (IH (0 * 10 + _)%N).
    rewrite Nat2N.inj_succ, N.pow_succ_r'. lia.
Qed.

Lemma two_digits_value (b : N) :
  (b < 100)%N ->
  String.length (two_digits b) = 2%nat /\ digits_value 0 (two_digits b) = b
  /\ all_chars is_digit (two_digits b) = true.
Proof.
  intros Hb. split; [|split].
  - assert (Hall : forallb (fun k => Nat.eqb (String.length (two_digits (N.of_nat k))) 2)
                           (seq 0 100) = true) by (vm_compute; reflexivity).
    rewrite forallb_forall in Hall.
    rewrite <- (N2Nat.id b). apply Nat.eqb_eq, Hall, in_seq. lia.
  - unfold two_digits. destruct (b <? 10)%N.
    + change ("0" +:+ digits b) with (String "0" (digits b)).
      cbn [digits_value]. apply digits_value_digits.
    + apply digits_value_digits.
  - unfold two_digits. destruct (b <? 10)%N.
    + rewrite all_chars_app, digits_are_digits. reflexivity.
    + apply digits_are_digits.
Qed.

Lemma span_digits_app (ds rest : string) :
  all_chars is_digit ds = true ->
  match rest with String c _ => is_digit c = false | EmptyString => True end ->
  span_digits (ds +:+ rest) = (ds, rest).
Proof.
  intros Hds Hrest. induction ds as [|c ds IH].
  - destruct rest as [|c r]; [reflexivity |].
    cbn [String.append span_digits]. now rewrite Hrest.
  - unfold all_chars in Hds. cbn [list_ascii_of_string forallb] in Hds.
    apply andb_prop in Hds as [Hc Hds].
    change (String c ds +:+ rest) with (String c (ds +:+ rest)).
    cbn [span_digits]. now rewrite Hc, (IH Hds).
Qed.

Section ParseFloatProperties.
Context `{Binary64}.

Lemma digit_head_plain (c : ascii) (r : string) :
  is_digit c = true ->
  parseFloat (String c r) = parse_unsigned (String c r)
  /\ starts_with "Infinity" (String c r) = false.
Proof.
  intros Hc. split.
  - unfold parseFloat.
    assert (Hws : is_ws c = false).
    { revert Hc. unfold is_digit, is_ws. generalize (nat_of_ascii c). intros n Hn.
      apply andb_prop in Hn as [H1%Nat.leb_le H2%Nat.leb_le].
      apply orb_false_intro; [apply orb_false_intro |].
      - apply andb_false_intro2, Nat.leb_gt. lia.
      - apply Nat.eqb_neq. lia.
      - apply Nat.eqb_neq. lia. }
    cbn [trim_start]. rewrite Hws.
    destruct (Ascii.eqb_spec c "-") as [->|Hm]; [discriminate Hc |].
    destruct (Ascii.eqb_spec c "+") as [->|Hp]; [discriminate Hc |].
    destruct c as [[] [] [] [] [] [] [] []]; try reflexivity;
      first [now elim Hm | now elim Hp].
  - unfold starts_with. cbn [strip_prefix].
    destruct (Ascii.eqb_spec "I" c) as [<-|_]; [discriminate Hc | reflexivity].
Qed.

(** [parseFloat] of a text [ip.fp] of decimal digits. *)
Lemma parseFloat_decimal (ip fp : string) :
  ip <> "" -> all_chars is_digit ip = true -> all_chars is_digit fp = true ->
  parseFloat (ip +:+ "." +:+ fp)
  = fin (scale10 (Z.of_N (digits_value 0 (ip +:+ fp)))
                 (- Z.of_nat (String.length fp))).
Proof.
  intros Hne Hip Hfp. destruct ip as [|c ip]; [congruence |].
  assert (Hc : is_digit c = true).
  { unfold all_chars in Hip. cbn [list_ascii_of_string forallb] in Hip.
    now apply andb_prop in Hip as [? _]. }
  change (String c ip +:+ "." +:+ fp) with (String c (ip +:+ "." +:+ fp)).
  destruct (digit_head_plain c (ip +:+ "." +:+ fp) Hc) as [-> Hinf].
  unfold parse_unsigned. rewrite Hinf.
  change (String c (ip +:+ "." +:+ fp)) with (String c ip +:+ String "." fp).
  rewrite (span_digits_app (String c ip) (String "." fp) Hip eq_refl).
  rewrite <- (append_empty_r fp) at 1.
  rewrite (span_digits_app fp "" Hfp I).
  cbn [String.eqb andb exponent_part]. reflexivity.
Qed.

(** [parseFloat] of a text of decimal digits, with or without a minus
    sign. *)
Lemma parse_unsigned_digits (ip : string) :
  ip <> "" -> all_chars is_digit ip = true ->
  parseFloat ip = parse_unsigned ip
  /\ parse_unsigned ip = fin (inject_Z (Z.of_N (digits_value 0 ip))).
Proof.
  intros Hne Hip. destruct ip as [|c ip]; [congruence |].
  assert (Hc : is_digit c = true).
  { unfold all_chars in Hip. cbn [list_ascii_of_string forallb] in Hip.
    now apply andb_prop in Hip as [? _]. }
  destruct (digit_head_plain c ip Hc) as [Hplain Hinf].
  split; [exact Hplain |].
  unfold parse_unsigned. rewrite Hinf.
  rewrite <- (append_empty_r (String c ip)) at 1.
  rewrite (span_digits_app (String c ip) "" Hip I).
  cbn [String.eqb andb exponent_part String.length].
  rewrite append_empty_r. unfold scale10. cbn [Z.of_nat Z.sub Z.opp Z.leb Z.compare].
  now rewrite Z.pow_0_r, Z.mul_1_r.
Qed.

Lemma parseFloat_minus (r : string) :
  parseFloat (String "-" r) = neg (parse_unsigned r).
Proof. reflexivity. Qed.

Lemma fin_integer (z : Z) :
  (Z.abs z <= 2 ^ 53)%Z ->
  exists q, fin (inject_Z z) = Fin q /\ (q == inject_Z z)%Q.
Proof.
  intros Hz. pose proof (rnd_int z Hz) as Hrnd. unfold fin.
  destruct (Qle_bool (inject_Z (2 ^ 1024)) (Qabs (rnd (inject_Z z)))) eqn:Hbig.
  - exfalso. apply Qle_bool_iff in Hbig. rewrite Hrnd in Hbig.
    change (Qabs (inject_Z z)) with (inject_Z (Z.abs z)) in Hbig.
    rewrite <- Zle_Qle in Hbig.
    assert (Hcmp : (2 ^ 53 < 2 ^ 1024)%Z) by (apply Z.ltb_lt; vm_compute; reflexivity).
    lia.
  - now exists (rnd (inject_Z z)).
Qed.

(** What [parseFloat] reads from the two-decimal rendering of [n]
    hundredths. *)
Lemma parseFloat_fixed2 (n : N) :
  parseFloat (fixed2 false n) = fin (Z.of_N n # 100).
Proof.
  unfold fixed2. change ("" +:+ ?s) with s.
  assert (Hb : (n mod 100 < 100)%N) by (apply N.mod_lt; discriminate).
  destruct (two_digits_value _ Hb) as (Hlen & Hval & Hdig).
  rewrite parseFloat_decimal;
    [| apply digits_nonempty | apply digits_are_digits | exact Hdig].
  rewrite Hlen, digits_value_app, digits_value_digits, digits_value_shift,
    Hlen, Hval.
  change (10 ^ N.of_nat 2)%N with 100%N.
  replace (n / 100 * 100 + n mod 100)%N with n
    by (pose proof (N.Div0.div_mod n 100); lia).
  reflexivity.
Qed.

End ParseFloatProperties.
(** ** utils/contrast-checker.ts and hooks/use-contrast-checker.ts *)

Section ContrastOrder.
Context `{Binary64} (culori : Culori).
Local Open Scope Q_scope.

Lemma Qle_bool_proper (a b c d : Q) :
  a == b -> c == d -> Qle_bool a c = Qle_bool b d.
Proof.
  intros Hab Hcd. destruct (Qle_bool b d) eqn:E.
  - apply Qle_bool_iff. apply Qle_bool_iff in E. now rewrite Hab, Hcd.
  - destruct (Qle_bool a c) eqn:E'; [|reflexivity].
    apply Qle_bool_iff in E'. rewrite Hab, Hcd in E'.
    apply Qle_bool_iff in E'. congruence.
Qed.

(** Equal values round to the same number, up to the fraction that
    represents it. *)
Lemma fin_proper (u v : Q) :
  u == v ->
  (fin u = fin v /\ forall r, fin u <> Fin r)
  \/ (exists a b, fin u = Fin a /\ fin v = Fin b /\ a == b).
Proof.
  intros Huv. pose proof (rnd_proper u v Huv) as Hr. unfold fin.
  rewrite (Qle_bool_proper (inject_Z (2 ^ 1024)) (inject_Z (2 ^ 1024))
             (Qabs (rnd u)) (Qabs (rnd v)))
    by (try reflexivity; now rewrite Hr).
  rewrite (Qle_bool_proper 0 0 (rnd u) (rnd v)) by (try reflexivity; exact Hr).
  destruct (Qle_bool (inject_Z (2 ^ 1024)) (Qabs (rnd v))).
  - left. split; [reflexivity |]. now destruct (Qle_bool 0 (rnd v)).
  - right. now exists (rnd u), (rnd v).
Qed.

Lemma ratio_of_equals (a b : Q) :
  a == b -> toFixed2 (div (Fin a) (Fin b)) = toFixed2 (div (Fin b) (Fin a)).
Proof.
  intros Hab. cbn [div].
  assert (Hsame : Qeq_bool a 0 = Qeq_bool b 0).
  { destruct (Qeq_bool b 0) eqn:E.
    - apply Qeq_bool_iff. apply Qeq_bool_iff in E. now rewrite Hab.
    - destruct (Qeq_bool a 0) eqn:E'; [|reflexivity].
      apply Qeq_bool_iff in E'. rewrite Hab in E'.
      apply Qeq_bool_iff in E'. congruence. }
  rewrite Hsame.
  destruct (Qeq_bool b 0) eqn:Hzero.
  - apply Qeq_bool_eq in Hzero.
    assert (Ha : Qnum a = 0%Z).
    { assert (Ha0 : a == 0) by (now rewrite Hab).
      unfold Qeq in Ha0. cbn [Qnum Qden] in Ha0. lia. }
    assert (Hb : Qnum b = 0%Z).
    { unfold Qeq in Hzero. cbn [Qnum Qden] in Hzero. lia. }
    now rewrite Ha, Hb.
  - assert (Hb : ~ b == 0) by (now apply Qeq_bool_neq).
    assert (Ha : ~ a == 0) by (now rewrite Hab).
    assert (E1 : a / b == 1) by (rewrite Hab; now field).
    assert (E2 : b / a == 1) by (rewrite Hab; now field).
    pose proof (rnd_int 1 ltac:(discriminate)) as Hone.
    change (inject_Z 1) with 1 in Hone.
    pose proof (rnd_proper _ _ E1) as R1. pose proof (rnd_proper _ _ E2) as R2.
    rewrite !fin_small by lra. rewrite !toFixed2_moderate by lra.
    f_equal. apply hundredths_comp. lra.
Qed.

Lemma contrast_formula_symmetric (x y : number) :
  toFixed2 (contrast_formula x y) = toFixed2 (contrast_formula y x).
Proof.
  unfold contrast_formula.
  destruct x as [| | |p], y as [| | |q]; try reflexivity.
  unfold Math_max, Math_min, leb.
  destruct (Qle_bool p q) eqn:Hpq, (Qle_bool q p) eqn:Hqp; try reflexivity.
  - apply Qle_bool_iff in Hpq. apply Qle_bool_iff in Hqp.
    assert (Heq : q + offset == p + offset) by lra.
    rewrite lit_offset. cbn [add].
    destruct (fin_proper _ _ Heq) as [[E Hinf]|(a & b & -> & -> & Hab)].
    + rewrite <- E. now destruct (fin (q + offset)).
    + now apply ratio_of_equals.
  - exfalso. destruct (Qlt_le_dec q p) as [Hlt|Hle].
    + apply Qlt_le_weak, Qle_bool_iff in Hlt. congruence.
    + apply Qle_bool_iff in Hle. congruence.
Qed.

(** X18.  The contrast ratio does not depend on which colour is the foreground,
    whatever the library reports for the two colours. *)
Theorem getContrastRatio_symmetric (c1 c2 : string) :
  getContrastRatio culori c1 c2 = getContrastRatio culori c2 c1.
Proof.
  rewrite !getContrastRatio_formula. apply contrast_formula_symmetric.
Qed.

(** The ratio of two colours with luminances in [[0, 1]], as a count of
    hundredths. *)
Lemma contrast_hundredths (c1 c2 : string) (p q : Q) :
  getLuminance culori c1 = Fin p -> 0 <= p <= 1 ->
  getLuminance culori c2 = Fin q -> 0 <= q <= 1 ->
  exists n,
    getContrastRatio culori c1 c2 = fixed2 false n /\ (100 <= n <= 2100)%N.
Proof.
  rewrite !getLuminance_value.
  intros Hl1 Hp Hl2 Hq. rewrite getContrastRatio_formula, Hl1, Hl2.
  destruct (contrast_formula_value p q Hp Hq)
    as (M & m & Hsel & H0 & HmM & H1 & ->).
  pose proof (quotient_range M m H0 HmM H1) as [_ Hr].
  exists (hundredths (quotient M m)).
  split; [apply toFixed2_moderate; lra |].
  change 100%N with (Z.to_N 100). change 2100%N with (Z.to_N 2100).
  apply hundredths_range.
  - change (inject_Z 100) with 100. lra.
  - change (inject_Z (2100 + 1)) with 2101. lra.
Qed.

Lemma contrastResults_map (pairs : list ColorPair) :
  contrastResults culori pairs
  = map (fun pair =>
           {| result_id := pair_id pair;
              contrastRatio :=
                parseFloat (getContrastRatio culori (foreground pair)
                                             (background pair)) |}) pairs.
Proof. now destruct pairs. Qed.

(** X19.  The hook reports one result per pair, with the ids of the pairs in
    their order.  For a pair whose two colours have luminances in
    [[0, 1]], the ratio reported at its place is a number between 1 and
    21. *)
Theorem contrastResults_range (pairs : list ColorPair) :
  map result_id (contrastResults culori pairs) = map pair_id pairs
  /\ forall (i : nat) (pair : ColorPair) (p q : Q),
       pairs !! i = Some pair ->
       getLuminance culori (foreground pair) = Fin p -> 0 <= p <= 1 ->
       getLuminance culori (background pair) = Fin q -> 0 <= q <= 1 ->
       exists r ratio,
         contrastResults culori pairs !! i = Some r
         /\ result_id r = pair_id pair
         /\ contrastRatio r = Fin ratio /\ 1 <= ratio <= 21.
Proof.
  rewrite contrastResults_map. split.
  - rewrite map_map. now apply map_ext.
  - intros i pair p q Hi Hl1 Hp Hl2 Hq.
    destruct (contrast_hundredths _ _ p q Hl1 Hp Hl2 Hq) as (n & Hratio & Hn).
    eexists. exists (rnd (Z.of_N n # 100)).
    split; [rewrite list_lookup_fmap, Hi; reflexivity |].
    split; [reflexivity |]. cbn [contrastRatio].
    rewrite Hratio, parseFloat_fixed2.
    assert (Hlo : 1 <= Z.of_N n # 100) by (unfold Qle; cbn [Qnum Qden]; lia).
    assert (Hhi : Z.of_N n # 100 <= 21) by (unfold Qle; cbn [Qnum Qden]; lia).
    pose proof (rnd_mono _ _ Hlo) as Hlo'. pose proof (rnd_mono _ _ Hhi) as Hhi'.
    pose proof (rnd_int 1 ltac:(discriminate)) as H1.
    pose proof (rnd_int 21 ltac:(discriminate)) as H21.
    change (inject_Z 1) with 1 in H1. change (inject_Z 21) with 21 in H21.
    split; [apply fin_small; lra | lra].
Qed.

End ContrastOrder.

Lemma contrastResults_range_witness :
  let pair := {| pair_id := "base"; foreground := "#171717";
                 background := "#ffffff" |} in
  let pairs := [ {| pair_id := "broken"; foreground := "no colour";
                    background := "#ffffff" |}; pair ] in
  exists r ratio,
    contrastResults (H := exact_arithmetic) sampleCulori pairs !! 1%nat = Some r
    /\ result_id r = pair_id pair
    /\ contrastRatio r = Fin ratio /\ (1 <= ratio <= 21)%Q.
Proof.
  cbv zeta.
  destruct (luminance_of_unit sampleCulori "#171717" sample_luminance_unit)
    as (p & Hp & Hpr).
  destruct (luminance_of_unit sampleCulori "#ffffff" sample_luminance_unit)
    as (q & Hq & Hqr).
  rewrite <- getLuminance_value in Hp, Hq.
  exact (proj2 (contrastResults_range (H := exact_arithmetic) sampleCulori
                  [ {| pair_id := "broken"; foreground := "no colour";
                       background := "#ffffff" |};
                    {| pair_id := "base"; foreground := "#171717";
                       background := "#ffffff" |} ])
           1%nat
           {| pair_id := "base"; foreground := "#171717";
              background := "#ffffff" |}
           p q eq_refl Hp Hpr Hq Hqr).
Defined.

(** ** components/editor/theme-control-panel.tsx: the sliders *)

Lemma replace_first_cons (pat rep : string) (c : ascii) (s : string) :
  replace_first pat rep (String c s)
  = match strip_prefix pat (String c s) with
    | Some rest => rep +:+ rest
    | None => String c (replace_first pat rep s)
    end.
Proof. reflexivity. Qed.

Lemma replace_first_suffix (a : ascii) (p s : string) :
  free_of (Ascii.eqb a) s = true ->
  replace_first (String a p) "" (s +:+ String a p) = s.
Proof.
  induction s as [|c s IH]; intros Hs.
  - change ("" +:+ String a p) with (String a p).
    rewrite replace_first_cons.
    rewrite <- (append_empty_r (String a p)) at 2.
    now rewrite strip_prefix_app.
  - apply free_of_cons in Hs as [Hc Hs].
    change (String c s +:+ String a p) with (String c (s +:+ String a p)).
    rewrite replace_first_cons. cbn [strip_prefix]. rewrite Hc.
    now rewrite (IH Hs).
Qed.

Section SliderProperties.
Context `{Binary64}.

(** X20.  A whole number a slider writes into a token with the unit [px], [rem]
    or [em] is the number the slider shows for that token. *)
Theorem slider_round_trip (unit : string) (z : Z) :
  unit ∈ ["px"; "rem"; "em"] ->
  (Z.abs z <= 2 ^ 53)%Z ->
  exists q,
    slider_value unit (slider_token unit (Fin (inject_Z z))) = Fin q
    /\ (q == inject_Z z)%Q.
Proof.
  intros Hunit Hz. unfold slider_value, slider_token, toString, is_integer.
  rewrite Qfloor_Z, Qeq_bool_refl.
  change (Qabs (inject_Z z)) with (inject_Z (Z.abs z)).
  rewrite (proj2 (Qle_bool_iff _ _)) by (now rewrite <- Zle_Qle).
  cbn [andb].
  set (a := Z.to_N (Z.abs z)).
  assert (Hdigits : all_chars is_digit (digits a) = true) by apply digits_are_digits.
  assert (Hread : exists text,
            replace_first unit ""
              (((if Qle_bool 0 (inject_Z z) then "" else "-") +:+ digits a) +:+ unit)
            = text
            /\ text = (if Qle_bool 0 (inject_Z z) then "" else "-") +:+ digits a).
  { eexists. split; [|reflexivity].
    assert (Hfree : forall x, bool_decide (x ∈ list_ascii_of_string "pre") = true ->
              free_of (Ascii.eqb x)
                ((if Qle_bool 0 (inject_Z z) then "" else "-") +:+ digits a) = true).
    { intros x Hx. rewrite free_of_app. apply andb_true_intro. split.
      - destruct (Qle_bool 0 (inject_Z z)); [reflexivity |].
        apply bool_decide_eq_true_1 in Hx.
        repeat (apply elem_of_cons in Hx as [->|Hx]; [reflexivity |]).
        now apply elem_of_nil in Hx.
      - revert Hdigits. apply all_chars_weaken. intros c Hc.
        apply negb_true_iff. destruct (Ascii.eqb_spec x c) as [<-|]; [|reflexivity].
        apply bool_decide_eq_true_1 in Hx.
        repeat (apply elem_of_cons in Hx as [->|Hx]; [discriminate Hc |]).
        now apply elem_of_nil in Hx. }
    repeat (apply elem_of_cons in Hunit as [->|Hunit];
            [apply replace_first_suffix, Hfree; reflexivity |]).
    now apply elem_of_nil in Hunit. }
  destruct Hread as (text & -> & ->).
  destruct (parse_unsigned_digits (digits a) (digits_nonempty a) Hdigits)
    as [Hplain Hvalue].
  rewrite digits_value_digits in Hvalue.
  destruct (Qle_bool 0 (inject_Z z)) eqn:Hsign.
  - apply Qle_bool_iff in Hsign. change 0%Q with (inject_Z 0) in Hsign.
    rewrite <- Zle_Qle in Hsign.
    change ("" +:+ digits a) with (digits a). rewrite Hplain, Hvalue.
    replace (Z.of_N a) with z by (unfold a; lia). now apply fin_integer.
  - assert (Hneg : (z < 0)%Z).
    { destruct (Z.lt_ge_cases z 0) as [|Hge]; [assumption |].
      assert (Hle : Qle_bool 0 (inject_Z z) = true)
        by (apply Qle_bool_iff; change 0%Q with (inject_Z 0);
            now rewrite <- Zle_Qle).
      congruence. }
    change ("-" +:+ digits a) with (String "-" (digits a)).
    rewrite parseFloat_minus, Hvalue.
    destruct (fin_integer (Z.of_N a)) as (q & -> & Hq); [unfold a; lia |].
    exists (- q)%Q. split; [reflexivity |]. rewrite Hq.
    replace (Z.of_N a) with (- z)%Z by (unfold a; lia).
    now rewrite inject_Z_opp, Qopp_opp.
Qed.

End SliderProperties.

Lemma slider_round_trip_witness :
  exists q,
    slider_value (H := exact_arithmetic) "px"
      (slider_token (H := exact_arithmetic) "px" (Fin (inject_Z (-4)))) = Fin q
    /\ (q == inject_Z (-4))%Q.
Proof.
  apply (slider_round_trip (H := exact_arithmetic) "px" (-4)).
  - apply (bool_decide_unpack _). vm_compute. exact I.
  - vm_compute. discriminate.
Defined.

(** ** scripts/generate-theme-registry.ts *)

(** A decidable fact about literals, by evaluation. *)
Ltac by_evaluation := apply (bool_decide_unpack _); vm_compute; exact I.

Lemma getShadowMap_ext `{Binary64} (culori : Culori) (st st' : ThemeStyles)
    (m : Mode) :
  (forall k, k ∈ shadowTokens ->
     spread (styles_of defaultStyles m) (styles_of st m) !! k
     = spread (styles_of defaultStyles m) (styles_of st' m) !! k) ->
  getShadowMap culori st m = getShadowMap culori st' m.
Proof.
  intros Hsame. unfold getShadowMap. cbv zeta.
  rewrite !(Hsame "shadow-color"), !(Hsame "shadow-opacity"),
    !(Hsame "shadow-blur"), !(Hsame "shadow-spread"),
    !(Hsame "shadow-offset-x"), !(Hsame "shadow-offset-y");
    try reflexivity; by_evaluation.
Qed.

Lemma or_else_self (v : string) : or_else (Some v) "" = v.
Proof. unfold or_else, or_opt. now destruct (String.eqb_spec v "") as [->|]. Qed.

Lemma or_else_filled (v fallback : string) :
  v <> "" -> or_else (Some v) fallback = v.
Proof.
  intros Hv. unfold or_else, or_opt.
  now destruct (String.eqb_spec v "") as [->|].
Qed.

Lemma foldl_rewrite_keys (f : option string -> string) (keys : list string)
    (theme : gmap string string) (k : string) :
  NoDup keys ->
  foldl (fun result key => <[key := f (result !! key)]> result) theme keys !! k
  = if bool_decide (k ∈ keys) then Some (f (theme !! k)) else theme !! k.
Proof.
  intros Hnd. revert theme. induction Hnd as [|key keys Hfresh Hnd IH];
    intros theme; [reflexivity |].
  cbn [foldl]. rewrite IH.
  destruct (decide (k = key)) as [->|Hne].
  - rewrite (bool_decide_eq_false_2 (key ∈ keys)) by exact Hfresh.
    rewrite bool_decide_eq_true_2 by apply list_elem_of_here.
    apply lookup_insert_eq.
  - rewrite lookup_insert_ne by congruence.
    destruct (bool_decide_reflect (k ∈ keys)) as [Hin|Hout].
    + rewrite bool_decide_eq_true_2 by now apply list_elem_of_further.
      reflexivity.
    + rewrite bool_decide_eq_false_2; [reflexivity |].
      intros [?|?]%elem_of_cons; contradiction.
Qed.

Lemma registryColorKeys_NoDup : NoDup registryColorKeys.
Proof. by_evaluation. Qed.

Lemma catalog_shared_tokens_filled :
  map_Forall (fun name _ =>
    forall k, k ∈ ["font-sans"; "font-mono"; "font-serif"; "radius";
                   "letter-spacing"; "spacing"] ->
      exists v, dark (catalogStyles name) !! k = Some v /\ v <> "")
    presets.
Proof.
  assert (Hall : map_Forall (fun name _ =>
    forallb (fun k =>
      match dark (catalogStyles name) !! k with
      | Some v => negb (String.eqb v "")
      | None => false
      end)
      ["font-sans"; "font-mono"; "font-serif"; "radius"; "letter-spacing";
       "spacing"] = true) presets)
    by (by_evaluation).
  intros name p Hp k Hk%list_elem_of_In. specialize (Hall name p Hp).
  cbv beta in Hall. rewrite forallb_forall in Hall. specialize (Hall k Hk).
  destruct (dark (catalogStyles name) !! k) as [v|]; [|discriminate].
  exists v. split; [reflexivity |]. intros ->. discriminate Hall.
Qed.

Lemma theme_object (v1 v2 v3 v4 : string) :
  let m := js_object
             [ ("font-sans", v1); ("font-mono", v2); ("font-serif", v3);
               ("radius", v4);
               ("tracking-tighter", "calc(var(--tracking-normal) - 0.05em)");
               ("tracking-tight", "calc(var(--tracking-normal) - 0.025em)");
               ("tracking-wide", "calc(var(--tracking-normal) + 0.025em)");
               ("tracking-wider", "calc(var(--tracking-normal) + 0.05em)");
               ("tracking-widest", "calc(var(--tracking-normal) + 0.1em)") ] in
  m !! "font-sans" = Some v1 /\ m !! "font-mono" = Some v2
  /\ m !! "font-serif" = Some v3 /\ m !! "radius" = Some v4.
Proof. vm_compute. repeat split. Qed.

Lemma preset_dom (name : string) (mode : Mode) :
  dom (styles_of (catalogStyles name) mode)
  = dom (styles_of defaultStyles mode).
Proof.
  unfold catalogStyles.
  destruct (String.eqb name "default"); [reflexivity |].
  destruct (presets !! name) as [p|] eqn:Hp; [|reflexivity].
  pose proof (presets_within_defaults name p Hp) as [Hl Hd].
  unfold defaultStyles. cbn [light dark].
  generalize dependent defaultLightThemeStyles.
  generalize dependent defaultDarkThemeStyles.
  intros defaultDark Hd defaultLight Hl.
  destruct mode; cbn [styles_of light dark];
    rewrite dom_spread, (comm_L (∪)); now apply subseteq_union_1_L.
Qed.

Section RegistryProperties.
Context `{Binary64} (culori : Culori).

(** The item [generateThemeRegistry] returns for a name of the catalog. *)
Definition catalogItem (name : string) : RegistryItem :=
  let converted := convertThemeStyles culori (catalogStyles name) in
  registryItem name (light converted) (dark converted)
    (getShadowMap culori converted Light) (getShadowMap culori converted Dark).

Lemma generateThemeRegistry_catalog (name : string) :
  is_Some (presets !! name) ->
  getPresetThemeStyles name = Return (catalogStyles name)
  /\ generateThemeRegistry culori name = Return (catalogItem name).
Proof.
  intros Hcat. pose proof (getPresetThemeStyles_catalog name Hcat) as Hst.
  split; [exact Hst |]. unfold generateThemeRegistry. now rewrite Hst.
Qed.

Lemma convertTheme_lookup (theme : gmap string string) (k : string) :
  convertTheme culori theme !! k
  = if bool_decide (k ∈ registryColorKeys)
    then Some (convertToRegistryColor culori (or_else (theme !! k) ""))
    else theme !! k.
Proof.
  unfold convertTheme. cbv zeta.
  apply (foldl_rewrite_keys
           (fun color => convertToRegistryColor culori (or_else color ""))).
  exact registryColorKeys_NoDup.
Qed.

Lemma with_shadows_lookup (shadows tokens : gmap string string)
    (keys : list string) (k : string) :
  foldl (fun m key => set_key key (shadows !! key) m) tokens keys !! k
  = if bool_decide (k ∈ keys) then shadows !! k else tokens !! k.
Proof.
  revert tokens. induction keys as [|key keys IH]; intros tokens; [reflexivity |].
  cbn [foldl]. rewrite IH.
  destruct (bool_decide_reflect (k ∈ keys)) as [Hin|Hout].
  - rewrite bool_decide_eq_true_2 by now apply list_elem_of_further. reflexivity.
  - destruct (decide (k = key)) as [->|Hne].
    + rewrite bool_decide_eq_true_2 by apply list_elem_of_here.
      unfold set_key. destruct (shadows !! key);
        [apply lookup_insert_eq | apply lookup_delete_eq].
    + rewrite bool_decide_eq_false_2
        by (intros [?|?]%elem_of_cons; contradiction).
      unfold set_key. destruct (shadows !! key);
        [now rewrite lookup_insert_ne | now rewrite lookup_delete_ne].
Qed.

Lemma with_shadows_other (shadows tokens : gmap string string)
    (keys : list string) (k : string) :
  k ∉ keys ->
  foldl (fun m key => set_key key (shadows !! key) m) tokens keys !! k
  = tokens !! k.
Proof. intros Hk. now rewrite with_shadows_lookup, bool_decide_eq_false_2. Qed.

Lemma with_shadows_shadow (shadows tokens : gmap string string)
    (keys : list string) (k : string) :
  k ∈ keys ->
  foldl (fun m key => set_key key (shadows !! key) m) tokens keys !! k
  = shadows !! k.
Proof. intros Hk. now rewrite with_shadows_lookup, bool_decide_eq_true_2. Qed.

Lemma catalog_item_colors (name : string) (k : string) :
  is_Some (presets !! name) ->
  k ∈ registryColorKeys ->
  (exists v, light (catalogStyles name) !! k = Some v
     /\ cssVars_light (catalogItem name) !! k
        = Some (colorFormatter culori v "oklch" "3"))
  /\ (exists v, dark (catalogStyles name) !! k = Some v
        /\ cssVars_dark (catalogItem name) !! k
           = Some (colorFormatter culori v "oklch" "3")).
Proof.
  intros _ Hk.
  assert (Hkeys : forall mode, k ∈ dom (styles_of defaultStyles mode)).
  { assert (Hall : forall mode,
        forallb (fun k => bool_decide (k ∈ dom (styles_of defaultStyles mode)))
                registryColorKeys = true)
      by (intros []; vm_compute; reflexivity).
    intros mode. specialize (Hall mode). rewrite forallb_forall in Hall.
    specialize (Hall k (proj1 (list_elem_of_In _ _) Hk)).
    now apply bool_decide_eq_true_1 in Hall. }
  assert (Hplain : k <> "spacing" /\ k <> "tracking-normal"
                   /\ k ∉ ["shadow-2xs"; "shadow-xs"; "shadow-sm"; "shadow";
                            "shadow-md"; "shadow-lg"; "shadow-xl"; "shadow-2xl"]).
  { revert Hk. generalize k. apply Forall_forall. by_evaluation. }
  destruct Hplain as (Hspacing & Htracking & Hshadow).
  assert (Hpreset : forall mode,
    exists v, styles_of (catalogStyles name) mode !! k = Some v).
  { intros mode. apply elem_of_dom.
    pose proof (preset_dom name mode) as Hdom.
    rewrite Hdom. apply Hkeys. }
  unfold catalogItem, registryItem, convertThemeStyles. cbv zeta.
  cbn [cssVars_light cssVars_dark light dark].
  split.
  - destruct (Hpreset Light) as [v Hv]. cbn [styles_of] in Hv.
    exists v. split; [exact Hv |].
    rewrite !lookup_insert_ne by congruence.
    rewrite with_shadows_other by exact Hshadow.
    rewrite lookup_spread, convertTheme_lookup, bool_decide_eq_true_2 by exact Hk.
    unfold convertToRegistryColor. now rewrite Hv, or_else_self.
  - destruct (Hpreset Dark) as [v Hv]. cbn [styles_of] in Hv.
    exists v. split; [exact Hv |].
    rewrite with_shadows_other by exact Hshadow.
    rewrite lookup_spread, convertTheme_lookup, bool_decide_eq_true_2 by exact Hk.
    unfold convertToRegistryColor. now rewrite Hv, or_else_self.
Qed.


Lemma converted_plain_token (st : ThemeStyles) (k : string) :
  k ∉ registryColorKeys ->
  light (convertThemeStyles culori st) !! k
  = match light st !! k with
    | Some v => Some v
    | None => defaultLightThemeStyles !! k
    end
  /\ dark (convertThemeStyles culori st) !! k
     = match dark st !! k with
       | Some v => Some v
       | None => defaultDarkThemeStyles !! k
       end.
Proof.
  intros Hk. unfold convertThemeStyles. cbn [light dark].
  now rewrite !lookup_spread, !convertTheme_lookup, !bool_decide_eq_false_2.
Qed.

Lemma preset_over_defaults (name : string) (k : string) :
  match light (catalogStyles name) !! k with
  | Some v => Some v
  | None => defaultLightThemeStyles !! k
  end = light (catalogStyles name) !! k
  /\ match dark (catalogStyles name) !! k with
     | Some v => Some v
     | None => defaultDarkThemeStyles !! k
     end = dark (catalogStyles name) !! k.
Proof.
  pose proof (preset_dom name Light) as Hl. pose proof (preset_dom name Dark) as Hd.
  cbn [styles_of] in Hl, Hd. unfold defaultStyles in Hl, Hd. cbn [light dark] in Hl, Hd.
  generalize dependent (catalogStyles name). intros st Hl Hd.
  generalize dependent defaultLightThemeStyles.
  generalize dependent defaultDarkThemeStyles. intros dd Hd dl Hl.
  split.
  - destruct (light st !! k) as [v|] eqn:Hv; [reflexivity |].
    apply not_elem_of_dom. apply not_elem_of_dom in Hv. now rewrite <- Hl.
  - destruct (dark st !! k) as [v|] eqn:Hv; [reflexivity |].
    apply not_elem_of_dom. apply not_elem_of_dom in Hv. now rewrite <- Hd.
Qed.

Lemma converted_preset_token (name : string) (k : string) :
  k ∉ registryColorKeys ->
  light (convertThemeStyles culori (catalogStyles name)) !! k
  = light (catalogStyles name) !! k
  /\ dark (convertThemeStyles culori (catalogStyles name)) !! k
     = dark (catalogStyles name) !! k.
Proof.
  intros Hk.
  destruct (converted_plain_token (catalogStyles name) k Hk) as [-> ->].
  apply preset_over_defaults.
Qed.

Lemma catalog_item_shared (name : string) :
  is_Some (presets !! name) ->
  let item := catalogItem name in
  let dark_tokens := dark (catalogStyles name) in
  (forall k, k ∈ ["font-sans"; "font-mono"; "font-serif"; "radius"] ->
     cssVars_theme item !! k = dark_tokens !! k)
  /\ cssVars_light item !! "tracking-normal" = dark_tokens !! "letter-spacing"
  /\ cssVars_light item !! "spacing" = dark_tokens !! "spacing"
  /\ cssVars_dark item !! "tracking-normal" = None.
Proof.
  intros [p Hp]. cbv zeta.
  pose proof (catalog_shared_tokens_filled name p Hp) as Hfilled.
  assert (Hvalue : forall k fallback,
    k ∈ ["font-sans"; "font-mono"; "font-serif"; "radius"; "letter-spacing";
         "spacing"] ->
    Some (or_else
            (Some (getThemeValue
                     (dark (convertThemeStyles culori (catalogStyles name)))
                     (light (convertThemeStyles culori (catalogStyles name)))
                     k))
            fallback)
    = dark (catalogStyles name) !! k).
  { intros k fallback Hk. destruct (Hfilled k Hk) as (v & Hv & Hne).
    assert (Hplain : k ∉ registryColorKeys).
    { revert Hk. generalize k. apply Forall_forall.
      by_evaluation. }
    unfold getThemeValue.
    destruct (converted_preset_token name k Hplain) as [_ ->].
    rewrite Hv. unfold or_opt at 1.
    rewrite (proj2 (String.eqb_neq v "")) by exact Hne.
    unfold or_else at 2. cbn [or_opt default].
    rewrite (proj2 (String.eqb_neq v "")) by exact Hne. cbn [default].
    now rewrite or_else_filled. }
  unfold catalogItem, registryItem. cbv zeta.
  cbn [cssVars_theme cssVars_light cssVars_dark].
  split; [|split; [|split]].
  - intros k Hk.
    match goal with
    | |- js_object ((_, ?v1) :: (_, ?v2) :: (_, ?v3) :: (_, ?v4) :: _) !! _ = _ =>
        destruct (theme_object v1 v2 v3 v4) as (E1 & E2 & E3 & E4)
    end.
    repeat (apply elem_of_cons in Hk as [->|Hk];
            [first [rewrite E1 | rewrite E2 | rewrite E3 | rewrite E4];
             apply Hvalue; by_evaluation |]).
    now apply elem_of_nil in Hk.
  - rewrite lookup_insert_ne by discriminate. rewrite lookup_insert_eq.
    apply Hvalue. by_evaluation.
  - rewrite lookup_insert_eq. apply Hvalue. by_evaluation.
  - rewrite with_shadows_other by by_evaluation.
    assert (Hplain : "tracking-normal" ∉ registryColorKeys) by by_evaluation.
    destruct (converted_preset_token name "tracking-normal" Hplain) as [_ ->].
    apply not_elem_of_dom.
    pose proof (preset_dom name Dark) as Hdom. cbn [styles_of] in Hdom.
    rewrite Hdom. by_evaluation.
Qed.

Lemma catalog_item_shadows (name : string) (k : string) :
  is_Some (presets !! name) ->
  k ∈ shadowVariableNames ->
  cssVars_light (catalogItem name) !! k
  = getShadowMap culori (catalogStyles name) Light !! k
  /\ cssVars_dark (catalogItem name) !! k
     = getShadowMap culori (catalogStyles name) Dark !! k.
Proof.
  intros _ Hk.
  assert (Hsame : forall mode,
    getShadowMap culori (convertThemeStyles culori (catalogStyles name)) mode
    = getShadowMap culori (catalogStyles name) mode).
  { intros mode. apply getShadowMap_ext. intros t Ht.
    assert (Hplain : t ∉ registryColorKeys).
    { revert Ht. generalize t. apply Forall_forall.
      by_evaluation. }
    rewrite !lookup_spread.
    destruct (converted_preset_token name t Hplain) as [Hl Hd].
    destruct mode; cbn [styles_of]; [now rewrite Hl | now rewrite Hd]. }
  assert (Hin : k ∈ ["shadow-2xs"; "shadow-xs"; "shadow-sm"; "shadow";
                     "shadow-md"; "shadow-lg"; "shadow-xl"; "shadow-2xl"])
    by exact Hk.
  assert (Hne : k <> "spacing" /\ k <> "tracking-normal").
  { split; intros ->; revert Hk; apply (bool_decide_unpack _);
      vm_compute; exact I. }
  unfold catalogItem, registryItem. cbv zeta. cbn [cssVars_light cssVars_dark].
  rewrite !Hsame. split.
  - rewrite !lookup_insert_ne by (intros <-; tauto).
    now rewrite with_shadows_shadow.
  - now rewrite with_shadows_shadow.
Qed.

(** X21.  For a preset of the catalog, every colour token of the registry item
    is the preset's value of that mode (the default where the preset sets
    none) in the [oklch] rendering of [colorFormatter]. *)
Theorem registry_colors (name : string) (k : string) :
  is_Some (presets !! name) ->
  k ∈ registryColorKeys ->
  exists st item,
    getPresetThemeStyles name = Return st
    /\ generateThemeRegistry culori name = Return item
    /\ (exists v, light st !! k = Some v
          /\ cssVars_light item !! k = Some (colorFormatter culori v "oklch" "3"))
    /\ (exists v, dark st !! k = Some v
          /\ cssVars_dark item !! k = Some (colorFormatter culori v "oklch" "3")).
Proof.
  intros Hcat Hk. exists (catalogStyles name), (catalogItem name).
  destruct (generateThemeRegistry_catalog name Hcat) as [Hst Hitem].
  split; [exact Hst |]. split; [exact Hitem |].
  exact (catalog_item_colors name k Hcat Hk).
Qed.

(** X22.  For a preset of the catalog, the settings the registry item shares
    between the modes (the three fonts and the radius of its theme block,
    [tracking-normal] and [spacing] of its light block) are those of the
    preset's dark token set, the default where the preset's dark set has
    none: neither the light value nor the fallback of the script is
    used. *)
Theorem registry_shared_from_dark (name : string) :
  is_Some (presets !! name) ->
  exists st item,
    getPresetThemeStyles name = Return st
    /\ generateThemeRegistry culori name = Return item
    /\ (forall k, k ∈ ["font-sans"; "font-mono"; "font-serif"; "radius"] ->
          cssVars_theme item !! k = dark st !! k)
    /\ cssVars_light item !! "tracking-normal" = dark st !! "letter-spacing"
    /\ cssVars_light item !! "spacing" = dark st !! "spacing"
    /\ cssVars_dark item !! "tracking-normal" = None.
Proof.
  intros Hcat. exists (catalogStyles name), (catalogItem name).
  destruct (generateThemeRegistry_catalog name Hcat) as [Hst Hitem].
  split; [exact Hst |]. split; [exact Hitem |].
  exact (catalog_item_shared name Hcat).
Qed.

(** X23.  The shadows of the registry item are those the editor shows for the
    preset: the conversion of the colours to [oklch] leaves the shadow map
    of either mode as it is. *)
Theorem registry_shadows (name : string) (k : string) :
  is_Some (presets !! name) ->
  k ∈ shadowVariableNames ->
  exists st item,
    getPresetThemeStyles name = Return st
    /\ generateThemeRegistry culori name = Return item
    /\ cssVars_light item !! k = getShadowMap culori st Light !! k
    /\ cssVars_dark item !! k = getShadowMap culori st Dark !! k.
Proof.
  intros Hcat Hk. exists (catalogStyles name), (catalogItem name).
  destruct (generateThemeRegistry_catalog name Hcat) as [Hst Hitem].
  split; [exact Hst |]. split; [exact Hitem |].
  exact (catalog_item_shadows name k Hcat Hk).
Qed.

End RegistryProperties.

Lemma registry_colors_witness :
  exists st item,
    getPresetThemeStyles "t3-chat" = Return st
    /\ generateThemeRegistry (H := exact_arithmetic) sampleCulori "t3-chat"
       = Return item
    /\ (exists v, light st !! "primary" = Some v
          /\ cssVars_light item !! "primary"
             = Some (colorFormatter (H := exact_arithmetic) sampleCulori v
                       "oklch" "3"))
    /\ (exists v, dark st !! "primary" = Some v
          /\ cssVars_dark item !! "primary"
             = Some (colorFormatter (H := exact_arithmetic) sampleCulori v
                       "oklch" "3")).
Proof.
  apply (registry_colors (H := exact_arithmetic) sampleCulori "t3-chat" "primary").
  - by_evaluation.
  - by_evaluation.
Defined.

Lemma registry_shared_from_dark_witness :
  exists st item,
    getPresetThemeStyles "modern-minimal" = Return st
    /\ generateThemeRegistry (H := exact_arithmetic) sampleCulori "modern-minimal"
       = Return item
    /\ (forall k, k ∈ ["font-sans"; "font-mono"; "font-serif"; "radius"] ->
          cssVars_theme item !! k = dark st !! k)
    /\ cssVars_light item !! "tracking-normal" = dark st !! "letter-spacing"
    /\ cssVars_light item !! "spacing" = dark st !! "spacing"
    /\ cssVars_dark item !! "tracking-normal" = None.
Proof.
  apply (registry_shared_from_dark (H := exact_arithmetic) sampleCulori
           "modern-minimal").
  by_evaluation.
Defined.

Lemma registry_shadows_witness :
  exists st item,
    getPresetThemeStyles "graphite" = Return st
    /\ generateThemeRegistry (H := exact_arithmetic) sampleCulori "graphite"
       = Return item
    /\ cssVars_light item !! "shadow-md"
       = getShadowMap (H := exact_arithmetic) sampleCulori st Light !! "shadow-md"
    /\ cssVars_dark item !! "shadow-md"
       = getShadowMap (H := exact_arithmetic) sampleCulori st Dark !! "shadow-md".
Proof.
  apply (registry_shadows (H := exact_arithmetic) sampleCulori "graphite"
           "shadow-md").
  - by_evaluation.
  - by_evaluation.
Defined.

(* ===================================================================== *)
(** * The font menus *)

(** [getAppliedThemeFont] reads nothing but the light token. *)
Definition font_shown (value : option string) : option string :=
  match List.find (fun key =>
                match js_object fonts !! key with
                | Some stack => string_includes (js_str value) stack
                | None => false
                end)
             (map fst fonts) with
  | Some key => if String.eqb key "" then None else Some key
  | None => None
  end.

Lemma getAppliedThemeFont_value (state : ThemeEditorState) (fontKey : string) :
  getAppliedThemeFont state fontKey
  = font_shown (light (styles state) !! fontKey).
Proof. reflexivity. Qed.

Lemma font_stacks_recognised :
  Forall (fun entry => font_shown (Some entry.2) = Some entry.1) fonts.
Proof. apply (bool_decide_unpack _). vm_compute. exact I. Qed.

Lemma font_keys_common :
  Forall (fun key => key ∈ COMMON_STYLES) ["font-sans"; "font-serif"; "font-mono"].
Proof. apply (bool_decide_unpack _). vm_compute. exact I. Qed.

(** X24.  Choosing the stack of any entry of [fonts] for one of the three font
    tokens, in either mode, makes the panel show that entry's name for the
    token. *)
Theorem font_choice_shown (prefersDark : bool) (fontKey name stack : string)
    (s : EditorStore) :
  fontKey ∈ ["font-sans"; "font-serif"; "font-mono"] ->
  (name, stack) ∈ fonts ->
  getAppliedThemeFont (themeState (editToken prefersDark fontKey stack s)) fontKey
  = Some name.
Proof.
  intros Hkey Hfont.
  pose proof (proj1 (Forall_forall _ _) font_keys_common _ Hkey) as Hcommon.
  pose proof (proj1 (Forall_forall _ _) font_stacks_recognised _ Hfont) as Hshown.
  rewrite getAppliedThemeFont_value.
  unfold editToken, handleStyleChange, setThemeState, updateStyle, includes.
  cbn [themeState styles].
  rewrite bool_decide_eq_true_2 by exact Hcommon. cbn [light].
  rewrite lookup_insert_eq. exact Hshown.
Qed.

Lemma font_choice_shown_witness :
  getAppliedThemeFont
    (themeState (editToken false "font-mono" "Geist Mono, monospace"
                   (appliedPreset "t3-chat"
                      {| themeState := defaultThemeState true;
                         hasChangedThemeFromDefault := false |})))
    "font-mono"
  = Some "Geist Mono".
Proof.
  apply font_choice_shown.
  - apply (bool_decide_unpack _). vm_compute. exact I.
  - apply (bool_decide_unpack _). vm_compute. exact I.
Defined.

Lemma find_sound {A : Type} (f : A -> bool) (l : list A) (x : A) :
  List.find f l = Some x -> x ∈ l /\ f x = true.
Proof.
  intros Hfind. apply List.find_some in Hfind as [Hin Hf].
  split; [now apply list_elem_of_In | exact Hf].
Qed.

(** X25.  The name [getAppliedThemeFont] returns is a key of [fonts] whose stack
    contains the light token of the state as a substring; the dark token is
    not read.  A state without the token shows no font, and a state whose
    token is the empty string shows the first font, [Inter]. *)
Theorem getAppliedThemeFont_sound (state : ThemeEditorState) (fontKey : string) :
  (forall name, getAppliedThemeFont state fontKey = Some name ->
     exists stack,
       (name, stack) ∈ fonts
       /\ string_includes (js_str (light (styles state) !! fontKey)) stack = true)
  /\ (light (styles state) !! fontKey = None ->
      getAppliedThemeFont state fontKey = None)
  /\ (light (styles state) !! fontKey = Some "" ->
      getAppliedThemeFont state fontKey = Some "Inter").
Proof.
  rewrite getAppliedThemeFont_value.
  set (value := light (styles state) !! fontKey). clearbody value.
  split; [| split].
  - intros name. unfold font_shown.
    destruct (List.find _ _) as [key|] eqn:Hfind; [| discriminate].
    destruct (String.eqb key ""); [discriminate |].
    intros [= ->]. apply find_sound in Hfind as [_ Hstack].
    destruct (js_object fonts !! name) as [stack|] eqn:Hlookup; [| discriminate].
    exists stack. split; [| exact Hstack].
    revert Hlookup. generalize stack. generalize name.
    assert (Hall : forall k v, js_object fonts !! k = Some v -> (k, v) ∈ fonts).
    { intros k v Hkv.
      assert (Hmap : js_object fonts = list_to_map fonts)
        by (apply (bool_decide_unpack _); vm_compute; exact I).
      rewrite Hmap in Hkv. now apply elem_of_list_to_map_2. }
    exact Hall.
  - intros ->. vm_compute. reflexivity.
  - intros ->. vm_compute. reflexivity.
Qed.

(* ===================================================================== *)
(** * The theme effect on the root element *)

(** The text of one custom property, and of a run of them. *)
Definition style_declaration (entry : string * string) : string :=
  "--" +:+ entry.1 +:+ ": " +:+ entry.2 +:+ ";".

Definition style_declarations (entries : list (string * string)) : string :=
  foldr (fun entry rest => style_declaration entry +:+ rest) "" entries.

(** [getAttribute("style") || ""] *)
Definition style_text (element : Element) : string :=
  default "" (style_attribute element).

Lemma applyStyleToElement_text (element : Element) (key value : string) :
  style_text (applyStyleToElement element key value)
  = style_text element +:+ style_declaration (key, value).
Proof.
  unfold applyStyleToElement, style_text, style_declaration.
  cbn [style_attribute default fst snd]. now destruct (style_attribute element).
Qed.

Lemma apply_entries (f : string -> string) (entries : list (string * string))
    (root : Element) :
  let root' :=
    foldl (fun root entry => applyStyleToElement root entry.1 (f entry.2))
          root entries in
  style_text root'
  = style_text root
    +:+ style_declarations (map (fun entry => (entry.1, f entry.2)) entries)
  /\ classList root' = classList root.
Proof.
  revert root. induction entries as [|entry entries IH]; intros root.
  - cbn. now rewrite append_empty_r.
  - cbn [foldl map style_declarations foldr]. cbv zeta in IH |- *.
    destruct (IH (applyStyleToElement root entry.1 (f entry.2))) as [-> ->].
    rewrite applyStyleToElement_text, append_assoc. split; reflexivity.
Qed.

Lemma foldl_guarded {A B : Type} (c : B -> bool) (step : A -> B -> A)
    (l : list B) (a : A) :
  foldl (fun a b => if c b then step a b else a) a l
  = foldl step a (filter (fun b => c b = true) l).
Proof.
  revert a. induction l as [|b l IH]; intros a; [reflexivity |].
  cbn [foldl]. rewrite filter_cons. destruct (c b) eqn:E.
  - rewrite decide_True by reflexivity. cbn [foldl]. apply IH.
  - rewrite decide_False by discriminate. apply IH.
Qed.

Lemma updateThemeClass_classes (root : Element) (mode : Mode) (c : string) :
  c ∈ classList (updateThemeClass root mode)
  <-> (c = "dark" /\ mode = Dark) \/ (c <> "dark" /\ c ∈ classList root).
Proof.
  unfold updateThemeClass, includes. destruct mode.
  - cbn [classList]. rewrite list_elem_of_filter. split.
    + intros [Hc Hin]. right. now split.
    + intros [[_ [=]]|[Hc Hin]]. now split.
  - case_bool_decide as Hdark; cbn [classList].
    + split.
      * intros Hin. destruct (decide (c = "dark")) as [->|Hc];
          [left | right]; now split.
      * intros [[-> _]|[_ Hin]]; assumption.
    + rewrite elem_of_app, list_elem_of_singleton. split.
      * intros [Hin| ->]; [right | left]; split; try reflexivity; try exact Hin.
        intros ->. contradiction.
      * intros [[-> _]|[_ Hin]]; [now right | now left].
Qed.

Lemma updateThemeClass_text (root : Element) (mode : Mode) :
  style_text (updateThemeClass root mode) = style_text root.
Proof.
  unfold updateThemeClass, includes. destruct mode; [reflexivity |].
  now case_bool_decide.
Qed.

Section ThemeEffectProperties.
Context `{Binary64} (culori : Culori).
Variable Object_entries : gmap string string -> list (string * string).

(** X26.  One run of the theme effect only appends to the [style] attribute of
    the root element: the text it had stays in front, followed by one
    declaration for each common token of the light token set (in dark mode
    too), then one for each other token of the token set of the mode, with
    its value in the [hsl] format, then one for each shadow of
    [getShadowMap].  Tokens the state lacks are not declared.  The class
    [dark] is on the root exactly in dark mode, the other classes are
    kept. *)
Theorem themeEffect_appends (root : Element) (state : ThemeEditorState) :
  (forall m, Object_entries m ≡ₚ map_to_list m) ->
  let mode := currentMode state in
  let root' := themeEffect culori Object_entries root state in
  (forall c, c ∈ classList root'
             <-> (c = "dark" /\ mode = Dark) \/ (c <> "dark" /\ c ∈ classList root))
  /\ exists common colors shadows : list (string * string),
       common ≡ₚ filter (fun entry => entry.1 ∈ COMMON_STYLES)
                        (map_to_list (light (styles state)))
       /\ colors ≡ₚ filter (fun entry => entry.1 ∉ COMMON_STYLES)
                           (map_to_list (styles_of (styles state) mode))
       /\ shadows ≡ₚ map_to_list (getShadowMap culori (styles state) mode)
       /\ style_text root'
          = style_text root
            +:+ style_declarations common
            +:+ style_declarations
                  (map (fun entry => (entry.1, colorFormatter culori entry.2 "hsl" "4"))
                       colors)
            +:+ style_declarations shadows.
Proof.
  intros Hentries mode root'.
  unfold root', themeEffect, setShadowVariables, applyThemeColors,
    applyCommonStyles. cbv zeta. fold mode.
  rewrite (foldl_guarded (fun entry => negb (includes COMMON_STYLES entry.1))
             (fun root entry =>
                applyStyleToElement root entry.1
                  (colorFormatter culori entry.2 "hsl" "4"))).
  set (common := filter (fun entry => includes COMMON_STYLES entry.1 = true)
                   (Object_entries (light (styles state)))).
  set (colors := filter (fun entry => negb (includes COMMON_STYLES entry.1) = true)
                   (Object_entries (styles_of (styles state) mode))).
  set (shadows := Object_entries (getShadowMap culori (styles state) mode)).
  destruct (apply_entries id common (updateThemeClass root mode)) as [T1 C1].
  cbv zeta in T1, C1. unfold id in T1, C1.
  set (root1 := foldl _ (updateThemeClass root mode) common) in *.
  destruct (apply_entries (fun v => colorFormatter culori v "hsl" "4") colors root1)
    as [T2 C2].
  cbv zeta in T2, C2.
  set (root2 := foldl _ root1 colors) in *.
  destruct (apply_entries id shadows root2) as [T3 C3].
  cbv zeta in T3, C3. unfold id in T3, C3.
  set (root3 := foldl _ root2 shadows) in *.
  split.
  - intros c. rewrite C3, C2, C1. apply updateThemeClass_classes.
  - exists common, colors, shadows. split; [| split; [| split]].
    + unfold common. rewrite (Hentries (light (styles state))).
      erewrite list_filter_iff; [reflexivity |].
      intros entry. unfold includes. cbn beta.
      rewrite bool_decide_eq_true. reflexivity.
    + unfold colors. rewrite (Hentries (styles_of (styles state) mode)).
      erewrite list_filter_iff; [reflexivity |].
      intros entry. unfold includes. cbn beta.
      rewrite negb_true_iff, bool_decide_eq_false. reflexivity.
    + unfold shadows. apply Hentries.
    + rewrite T3, T2, T1, updateThemeClass_text, !append_assoc.
      do 2 f_equal.
      * f_equal. clear. induction common as [|[k v] l IH]; [reflexivity |].
        cbn [map fst snd]. now rewrite IH.
      * f_equal. f_equal. clear.
        induction shadows as [|[k v] l IH]; [reflexivity |].
        cbn [map fst snd]. now rewrite IH.
Qed.

End ThemeEffectProperties.

Lemma themeEffect_appends_witness :
  let state := defaultThemeState true in
  let root := {| style_attribute := Some "color: red;"; classList := ["app"] |} in
  let root' :=
    themeEffect (H := exact_arithmetic) sampleCulori map_to_list root state in
  (forall c, c ∈ classList root'
             <-> (c = "dark" /\ currentMode state = Dark)
                 \/ (c <> "dark" /\ c ∈ classList root))
  /\ exists common colors shadows : list (string * string),
       common ≡ₚ filter (fun entry => entry.1 ∈ COMMON_STYLES)
                        (map_to_list (light (styles state)))
       /\ colors ≡ₚ filter (fun entry => entry.1 ∉ COMMON_STYLES)
                           (map_to_list (styles_of (styles state) (currentMode state)))
       /\ shadows ≡ₚ map_to_list
                        (getShadowMap (H := exact_arithmetic) sampleCulori
                           (styles state) (currentMode state))
       /\ style_text root'
          = style_text root
            +:+ style_declarations common
            +:+ style_declarations
                  (map (fun entry =>
                          (entry.1,
                           colorFormatter (H := exact_arithmetic) sampleCulori
                             entry.2 "hsl" "4"))
                       colors)
            +:+ style_declarations shadows.
Proof.
  apply (themeEffect_appends (H := exact_arithmetic) sampleCulori map_to_list).
  intros m. reflexivity.
Defined.
